(** * Batch translation orchestration of gslides-translator

    A shallow embedding of the batch translation engine of the repository
    (src/app13.py, with the token estimator and the block scanner of
    src/pptx_translator.py and the recovery helper of src/batch-recovery.py),
    of the extraction of the texts of a presentation and of the requests
    that write the translations back, and the proofs of their properties.

    Python values are modelled as follows.
    - [str] is a sequence of Unicode code points: [list N].
    - [dict] keeps insertion order and has unique keys: an association list
      updated by [dict_set], which overwrites in place or appends.
    - [int] is unbounded: [Z].
    - an exception that a function can raise is a value of [exn], returned
      on the left of a sum.

    What the code gets from outside is a parameter: the decoder
    [json.loads], the translation backend, and the recovery file (the class
    [recovery_file], which tells the writes that raise).  The concrete runs
    use the reference decoder [RefJson], the backends of [Stub] and the
    file [utf8_file].  Printing and waiting are not modelled. *)

From Stdlib Require Import ZArith String Ascii List Lia DecimalNat.
From stdpp Require Import base tactics option list numbers sorting.

Open Scope Z_scope.

(** ** Python strings and dictionaries *)

Abbreviation pystr := (list N).

(** An ASCII literal as a Python string. *)
Definition py (s : string) : pystr := N_of_ascii <$> list_ascii_of_string s.

(** The same with every apostrophe read as a double quote, to write JSON
    texts. *)
Definition pyq (s : string) : pystr :=
  (fun c => if N.eqb c 39 then 34%N else c) <$> py s.

(** [c * n] for a one-character string [c]. *)
Definition py_repeat (c : N) (n : N) : pystr := N.iter n (cons c) [].

(** [len(s)] *)
Definition len {A} (l : list A) : Z := Z.of_nat (length l).

Abbreviation dict V := (list (pystr * V)).

(** [d.get(k)], [None] when the key is absent. *)
Fixpoint dict_get {V} (k : pystr) (d : dict V) : option V :=
  match d with
  | [] => None
  | (k', v) :: d' => if decide (k = k') then Some v else dict_get k d'
  end.

(** [k in d] *)
Definition dict_in {V} (k : pystr) (d : dict V) : bool :=
  bool_decide (is_Some (dict_get k d)).

(** [d[k] = v]: an existing key keeps its position, a new key goes last. *)
Fixpoint dict_set {V} (k : pystr) (v : V) (d : dict V) : dict V :=
  match d with
  | [] => [(k, v)]
  | (k', v') :: d' =>
      if decide (k = k') then (k, v) :: d' else (k', v') :: dict_set k v d'
  end.

(** [d.update(other)] *)
Definition dict_update {V} (d other : dict V) : dict V :=
  foldl (fun acc kv => dict_set kv.1 kv.2 acc) d other.

(** [list(d.keys())] *)
Definition dict_keys {V} (d : dict V) : list pystr := d.*1.

(** [dict(items)]: later pairs overwrite earlier ones. *)
Definition dict_of_items {V} (items : list (pystr * V)) : dict V :=
  dict_update [] items.

(** [d1 == d2] on dictionaries: same keys, same values, any order. *)
Definition dict_eq {V} (d1 d2 : dict V) : Prop :=
  forall k, dict_get k d1 = dict_get k d2.

(** Exceptions raised in the modelled code. *)
Inductive exn :=
  | JSONDecodeError (msg : pystr) (lineno colno pos : nat)
  | APIError (msg : pystr)
  | AttributeError (msg : pystr)
  | KeyError (key : pystr)
  | ValueError (msg : pystr)
  | TypeError (msg : pystr)
  | IndexError
  | ZeroDivisionError
  | UnicodeEncodeError (encoding object : pystr) (start stop : nat)
                       (reason : pystr)
  | RecursionError (msg : pystr).

(** A call that ends with an exception. *)
Definition raises {E A} (r : E + A) : Prop :=
  match r with
  | inl _ => True
  | inr _ => False
  end.

(** ** Token estimator *)

Module App13.

(** src/app13.py, [estimate_tokens] (nested in
  [split_dict_into_smart_batches]): [len(str(text)) // 4 + 1], and 0 for
  [None]. *)
Definition estimate_tokens (text : option pystr) : Z :=
match text with
| None => 0
| Some s => len s / 4 + 1
end.

End App13.

Module Pptx.

(** [ord(c) > 0x4E00 and ord(c) < 0x9FFF] *)
Definition is_cjk (c : N) : bool :=
(N.ltb 0x4E00 c && N.ltb c 0x9FFF)%N.

(** src/pptx_translator.py, [estimate_tokens]:
  [(ascii_chars // 4) + (cjk_chars // 1.5) + 1], converted with [int].
  [cjk_chars // 1.5] is a float floor division of an integer by 3/2; its
  value is the integer [floor (2 * cjk_chars / 3)]. *)
Definition cjk_chars (s : pystr) : Z := len (filter (fun c => is_cjk c = true) s).
Definition ascii_chars (s : pystr) : Z := len s - cjk_chars s.

Definition estimate_tokens (text : option pystr) : Z :=
match text with
| None => 0
| Some s => ascii_chars s / 4 + (2 * cjk_chars s) / 3 + 1
end.

End Pptx.

(** ** Batch partitioner (src/app13.py, [split_dict_into_smart_batches]) *)

Section Partitioner.

(** The nested [estimate_tokens] of the file at hand. *)
Variable estimate_tokens : option pystr -> Z.

(** [estimate_tokens(key) + estimate_tokens(value) + 10] *)
Definition item_tokens (kv : pystr * pystr) : Z :=
  estimate_tokens (Some kv.1) + estimate_tokens (Some kv.2) + 10.

(** [items.sort(key=lambda x: estimate_tokens(x[1]), reverse=True)]:
    a stable sort by descending key; items with equal keys keep their
    order. *)
Definition sort_key (kv : pystr * pystr) : Z := estimate_tokens (Some kv.2).

Fixpoint insert_desc (x : pystr * pystr) (l : list (pystr * pystr)) :=
  match l with
  | [] => [x]
  | y :: l' =>
      if Z.leb (sort_key y) (sort_key x) then x :: y :: l'
      else y :: insert_desc x l'
  end.

Definition sort_desc (items : list (pystr * pystr)) : list (pystr * pystr) :=
  foldr insert_desc [] items.

(** The state of the [for key, value in items] loop. *)
Record part_state := PartState {
  batches : list (dict pystr);
  current_batch : dict pystr;
  current_token_count : Z
}.

Definition part_step (max_input_tokens prompt_tokens : Z)
    (st : part_state) (kv : pystr * pystr) : part_state :=
  let it := item_tokens kv in
  let st1 :=
    if Z.ltb max_input_tokens (current_token_count st + it)
       && negb (bool_decide (current_batch st = []))
    then PartState (batches st ++ [current_batch st]) [] prompt_tokens
    else st in
  PartState (batches st1)
            (dict_set kv.1 kv.2 (current_batch st1))
            (current_token_count st1 + it).

(** Lines 220-240: the batches that the function has built when it
    reaches its reporting lines. *)
Definition smart_batches (input_dict : dict pystr)
    (max_input_tokens prompt_tokens : Z) : list (dict pystr) :=
  let st := foldl (part_step max_input_tokens prompt_tokens)
                  (PartState [] [] prompt_tokens) (sort_desc input_dict) in
  if bool_decide (current_batch st = []) then batches st
  else batches st ++ [current_batch st].

(** The whole function.  Lines 242-248 print statistics; the averages and
    extrema are guarded by [if batches else 0], the last line divides
    [sum(batch_sizes)] by [total_items = len(input_dict)] without a guard
    and raises [ZeroDivisionError] for an empty dictionary. *)
Definition split_dict_into_smart_batches (input_dict : dict pystr)
    (max_input_tokens prompt_tokens : Z) : exn + list (dict pystr) :=
  let result := smart_batches input_dict max_input_tokens prompt_tokens in
  if bool_decide (len input_dict = 0) then inl ZeroDivisionError
  else inr result.

(** The estimated size of a request for one batch. *)
Definition batch_tokens (prompt_tokens : Z) (b : dict pystr) : Z :=
  prompt_tokens + foldr (fun kv acc => item_tokens kv + acc) 0 b.

(** The prompt overhead plus the estimates of the texts of a batch. *)
Definition text_tokens (prompt_tokens : Z) (b : dict pystr) : Z :=
  prompt_tokens + foldr (fun kv acc => estimate_tokens (Some kv.2) + acc) 0 b.

(** A batch respects the token ceiling, or it holds a single item that
    does not fit in an empty batch. *)
Definition within_budget (max_input_tokens prompt_tokens : Z)
    (b : dict pystr) : Prop :=
  batch_tokens prompt_tokens b <= max_input_tokens \/
  exists kv, b = [kv] /\ max_input_tokens < prompt_tokens + item_tokens kv.

(** The invariant of the loop, and the items placed so far. *)
Definition part_inv (max_input_tokens prompt_tokens : Z) (st : part_state)
    : Prop :=
  Forall (fun b => b <> [] /\ within_budget max_input_tokens prompt_tokens b)
         (batches st)
  /\ current_token_count st = batch_tokens prompt_tokens (current_batch st)
  /\ (current_batch st = []
      \/ within_budget max_input_tokens prompt_tokens (current_batch st)).

Definition flat (st : part_state) : dict pystr :=
  concat (batches st) ++ current_batch st.

End Partitioner.

(** ** Deduplicator (src/app13.py, [deduplicate_content]) *)

(** First loop: [content_to_keys[value].append(key)] or
    [content_to_keys[value] = [key]]. *)
Definition content_to_keys_step (c2k : dict (list pystr)) (kv : pystr * pystr)
    : dict (list pystr) :=
  match dict_get kv.2 c2k with
  | Some keys => dict_set kv.2 (keys ++ [kv.1]) c2k
  | None => dict_set kv.2 [kv.1] c2k
  end.

Definition content_to_keys (input_dict : dict pystr) : dict (list pystr) :=
  foldl content_to_keys_step [] input_dict.

(** Second loop.  [keys[0]] cannot fail: every list stored by the first
    loop starts with one key; the model leaves the state alone for the
    empty list. *)
Definition dedupe_step (acc : dict pystr * dict pystr)
    (ck : pystr * list pystr) : dict pystr * dict pystr :=
  match ck.2 with
  | [] => acc
  | representative_key :: _ =>
      (dict_set representative_key ck.1 acc.1,
       foldl (fun dm key => dict_set key representative_key dm) acc.2 ck.2)
  end.

(** Returns [(unique_content, duplicates_map)]. *)
Definition deduplicate_content (input_dict : dict pystr)
    : dict pystr * dict pystr :=
  foldl dedupe_step ([], []) (content_to_keys input_dict).

(** The keys of [input_dict] that carry [text], in the order of the
    dictionary, and the first of them. *)
Definition keys_with (text : pystr) (input_dict : dict pystr) : list pystr :=
  (filter (fun kv => kv.2 = text) input_dict).*1.

Definition first_key_with (text : pystr) (input_dict : dict pystr)
    : option pystr :=
  head (keys_with text input_dict).

(** ** String operations of the Python library used by the code *)

(** [str.isspace] of one character, which is also what [\s] matches. *)
Definition is_space (c : N) : bool :=
  ((9 <=? c) && (c <=? 13) || (28 <=? c) && (c <=? 32)
   || (c =? 0x85) || (c =? 0xA0) || (c =? 0x1680)
   || (0x2000 <=? c) && (c <=? 0x200A)
   || (c =? 0x2028) || (c =? 0x2029) || (c =? 0x202F)
   || (c =? 0x205F) || (c =? 0x3000))%N.

Fixpoint drop_while (f : N -> bool) (s : pystr) : pystr :=
  match s with
  | [] => []
  | c :: s' => if f c then drop_while f s' else s
  end.

Definition lstrip (s : pystr) : pystr := drop_while is_space s.
Definition rstrip (s : pystr) : pystr := reverse (lstrip (reverse s)).
Definition strip (s : pystr) : pystr := rstrip (lstrip s).

(** [s.rstrip(c)] for a one-character argument. *)
Definition rstrip_char (c : N) (s : pystr) : pystr :=
  reverse (drop_while (N.eqb c) (reverse s)).

(** [s.count(c)] for a one-character argument. *)
Definition count_char (c : N) (s : pystr) : nat :=
  length (filter (fun x => x = c) s).

(** [s.startswith(p)] *)
Fixpoint startswith (p s : pystr) : bool :=
  match p, s with
  | [], _ => true
  | _ :: _, [] => false
  | a :: p', b :: s' => bool_decide (a = b) && startswith p' s'
  end.

(** [sub in s] *)
Fixpoint contains (sub s : pystr) : bool :=
  startswith sub s || match s with [] => false | _ :: s' => contains sub s' end.

(** [s.split(sep)] for a non-empty separator: the pieces between the
    occurrences of [sep], found from the left and not overlapping.  [skip]
    counts the characters of a separator still to pass, [cur] holds the
    piece in progress, reversed. *)
Fixpoint split_from (sep s : pystr) (skip : nat) (cur : pystr) : list pystr :=
  match s with
  | [] => [reverse cur]
  | c :: s' =>
      match skip with
      | S k => split_from sep s' k cur
      | O =>
          if startswith sep s
          then reverse cur :: split_from sep s' (length sep - 1) []
          else split_from sep s' 0 (c :: cur)
      end
  end.

Definition split (sep s : pystr) : list pystr := split_from sep s 0 [].

(** [sep.join(pieces)] *)
Fixpoint join (sep : pystr) (pieces : list pystr) : pystr :=
  match pieces with
  | [] => []
  | [p] => p
  | p :: rest => p ++ sep ++ join sep rest
  end.

(** [s.replace(old, new)] for a non-empty [old]. *)
Definition replace (old new s : pystr) : pystr := join new (split old s).

(** A scan of [s] from the left with a matcher [m] for the text at the
    current position: [m] returns a result and the length (at least 1) of
    the text it matched; the scan resumes after the match, or one character
    further when there is none.  This is the traversal of [re.finditer],
    [re.findall] and [re.sub] for patterns that match no empty text. *)
Fixpoint scan {A} (m : pystr -> option (A * nat)) (s : pystr) (skip : nat)
    : list (A + N) :=
  match s with
  | [] => []
  | c :: s' =>
      match skip with
      | S k => scan m s' k
      | O =>
          match m s with
          | Some (a, n) => inl a :: scan m s' (n - 1)
          | None => inr c :: scan m s' 0
          end
      end
  end.

(** [re.finditer]/[re.findall]: the matches. *)
Definition find_all {A} (m : pystr -> option (A * nat)) (s : pystr) : list A :=
  omap (fun x => match x with inl a => Some a | inr _ => None end) (scan m s 0).

(** [re.sub]: matches replaced, other characters kept. *)
Definition sub_all (m : pystr -> option (pystr * nat)) (s : pystr) : pystr :=
  concat ((fun x => match x with inl r => r | inr c => [c] end) <$> scan m s 0).

(** Decimal digits of a number, as [str(n)] prints them. *)
Fixpoint uint_digits (d : Decimal.uint) : pystr :=
  match d with
  | Decimal.Nil => []
  | Decimal.D0 d => 48%N :: uint_digits d
  | Decimal.D1 d => 49%N :: uint_digits d
  | Decimal.D2 d => 50%N :: uint_digits d
  | Decimal.D3 d => 51%N :: uint_digits d
  | Decimal.D4 d => 52%N :: uint_digits d
  | Decimal.D5 d => 53%N :: uint_digits d
  | Decimal.D6 d => 54%N :: uint_digits d
  | Decimal.D7 d => 55%N :: uint_digits d
  | Decimal.D8 d => 56%N :: uint_digits d
  | Decimal.D9 d => 57%N :: uint_digits d
  end.

Definition str_of_nat (n : nat) : pystr := uint_digits (Nat.to_uint n).

(** [format(n, 'x')], padded with zeros to [width] digits. *)
Fixpoint hex_padded (width : nat) (n : N) : pystr :=
  match width with
  | O => []
  | S w =>
      hex_padded w (n / 16)
        ++ [if (n mod 16 <? 10)%N then (48 + n mod 16)%N else (87 + n mod 16)%N]
  end.

(** The character that an encoding error names, as [str(e)] prints it. *)
Definition escaped_char (c : N) : pystr :=
  if (c <=? 0xFF)%N then py "\x" ++ hex_padded 2 c
  else if (c <=? 0xFFFF)%N then py "\u" ++ hex_padded 4 c
  else py "\U" ++ hex_padded 8 c.

(** [str(e)] *)
Definition str_of_exn (e : exn) : pystr :=
  match e with
  | JSONDecodeError msg lineno colno pos =>
      msg ++ py ": line " ++ str_of_nat lineno ++ py " column "
          ++ str_of_nat colno ++ py " (char " ++ str_of_nat pos ++ py ")"
  | APIError msg | AttributeError msg | ValueError msg | TypeError msg
  | RecursionError msg => msg
  | KeyError key => py "'" ++ key ++ py "'"
  | IndexError => py "string index out of range"
  | ZeroDivisionError => py "division by zero"
  | UnicodeEncodeError encoding object start stop reason =>
      match object !! start with
      | Some c =>
          if bool_decide (stop = S start) then
            py "'" ++ encoding ++ py "' codec can't encode character '"
              ++ escaped_char c ++ py "' in position " ++ str_of_nat start
              ++ py ": " ++ reason
          else
            py "'" ++ encoding ++ py "' codec can't encode characters in position "
              ++ str_of_nat start ++ py "-" ++ str_of_nat (stop - 1)
              ++ py ": " ++ reason
      | None =>
          py "'" ++ encoding ++ py "' codec can't encode characters in position "
            ++ str_of_nat start ++ py "-" ++ str_of_nat (stop - 1)
            ++ py ": " ++ reason
      end
  end.

(** ** JSON values and the decoder interface *)

(** What [json.loads] returns. *)
#[warnings="-register-all"]
Inductive json :=
  | JNull
  | JBool (b : bool)
  | JInt (n : Z)
  | JFloat (literal : pystr)
  | JStr (s : pystr)
  | JArr (items : list json)
  | JObj (members : list (pystr * json)).

(** [isinstance(e, json.JSONDecodeError)], the test of the clauses
    [except json.JSONDecodeError]. *)
Definition is_decode_error (e : exn) : bool :=
  match e with
  | JSONDecodeError _ _ _ _ => true
  | _ => false
  end.

(** [sys.get_int_max_str_digits()], the default of CPython 3.11. *)
Definition int_max_str_digits : nat := 4300.

(** [int(digits)] for ASCII digits: the conversion is refused above
    [int_max_str_digits] digits. *)
Definition digits_limit_error (ds : pystr) : option exn :=
  if (int_max_str_digits <? length ds)%nat
  then Some (ValueError
               (py "Exceeds the limit (4300 digits) for integer string conversion: value has "
                  ++ str_of_nat (length ds)
                  ++ py " digits; use sys.set_int_max_str_digits() to increase the limit"))
  else None.

(** ** Regular expressions of the code, as matchers for [scan] *)

Definition is_digit (c : N) : bool := ((48 <=? c) && (c <=? 57))%N.

Definition is_word (c : N) : bool :=
  (is_digit c || (65 <=? c) && (c <=? 90) || (97 <=? c) && (c <=? 122)
   || (c =? 95))%N.

Fixpoint take_while (f : N -> bool) (s : pystr) : pystr :=
  match s with
  | [] => []
  | c :: s' => if f c then c :: take_while f s' else []
  end.

(** The number that ASCII digits write. *)
Definition nat_of_digits (ds : pystr) : nat :=
  foldl (fun acc c => (10 * acc + N.to_nat (c - 48))%nat) 0%nat ds.

(** [int(digits)] *)
Definition int_of_digits (ds : pystr) : exn + Z :=
  match digits_limit_error ds with
  | Some ex => inl ex
  | None => inr (Z.of_nat (nat_of_digits ds))
  end.

(** [prefix(\d+)] at the current position: the number read. *)
Definition m_number (prefix : pystr) (s : pystr) : option (nat * nat) :=
  if startswith prefix s then
    let ds := take_while is_digit (drop (length prefix) s) in
    match ds with
    | [] => None
    | _ => Some (nat_of_digits ds, (length prefix + length ds)%nat)
    end
  else None.

(** [re.search(prefix(\d+), s)], the group as an integer. *)
Definition search_number (prefix s : pystr) : option nat :=
  head (find_all (m_number prefix) s).

(** [,\s*c] at the current position, replaced by [c]. *)
Definition m_trailing_comma (c : N) (s : pystr) : option (pystr * nat) :=
  match s with
  | 44%N :: s' =>
      let ws := take_while is_space s' in
      match drop (length ws) s' with
      | c' :: _ => if N.eqb c' c then Some ([c], (length ws + 2)%nat) else None
      | [] => None
      end
  | _ => None
  end.

(** [([a-zA-Z0-9_]+):] at the current position, with the replacement of
    [fix_property_names]: the group never starts with a quote, so the
    replacement is always the quoted group and a colon. *)
Definition m_property_name (s : pystr) : option (pystr * nat) :=
  let w := take_while is_word s in
  match w, drop (length w) s with
  | _ :: _, 58%N :: _ => Some ([34%N] ++ w ++ [34%N; 58%N], S (length w))
  | _, _ => None
  end.

(** A quoted key and its colon at the current position (a quote, one or
    more characters other than a quote, a quote, [\s*:\s*]): the key and
    the rest of the text. *)
Definition m_key_colon (s : pystr) : option (pystr * pystr) :=
  match s with
  | 34%N :: s1 =>
      let key := take_while (fun c => negb (N.eqb c 34)) s1 in
      match key, drop (length key) s1 with
      | _ :: _, 34%N :: s2 =>
          match drop_while is_space s2 with
          | 58%N :: s3 => Some (key, drop_while is_space s3)
          | _ => None
          end
      | _, _ => None
      end
  | _ => None
  end.

(** The pattern of the salvage in [repair_json], line 303: a quoted key
    and its colon, followed by a quoted value without a quote inside
    (first alternative, groups 1 and 2) or by [[0-9]+] (second alternative,
    groups 3 and 4).  The match gives the key and the text of the value,
    on the left for the first alternative and on the right for the
    second. *)
Definition m_key_value (s : pystr)
    : option ((pystr * (pystr + pystr)) * nat) :=
  match m_key_colon s with
  | Some (key, rest) =>
      let quoted :=
        match rest with
        | 34%N :: r1 =>
            let value := take_while (fun c => negb (N.eqb c 34)) r1 in
            match drop (length value) r1 with
            | 34%N :: r2 => Some (inl value, length r2)
            | _ => None
            end
        | _ => None
        end in
      let matched :=
        match quoted with
        | Some m => Some m
        | None =>
            match take_while is_digit rest with
            | [] => None
            | ds => Some (inr ds, (length rest - length ds)%nat)
            end
        end in
      match matched with
      | Some (v, after) => Some ((key, v), (length s - after)%nat)
      | None => None
      end
  | None => None
  end.

(** [({[^{]*?})] at the current position: from an opening brace to the
    first closing brace, with no other opening brace in between. *)
Definition m_block (s : pystr) : option (pystr * nat) :=
  match s with
  | 123%N :: s1 =>
      let body := take_while (fun c => negb (N.eqb c 123) && negb (N.eqb c 125)) s1 in
      match drop (length body) s1 with
      | 125%N :: _ => Some (123%N :: body ++ [125%N], (length body + 2)%nat)
      | _ => None
      end
  | _ => None
  end.

(** ** Response repair (src/app13.py, [repair_json], [extract_json_blocks]
    and the parsing steps of [translate_batch]) *)

Section ResponseRepair.

(** [json.loads] of the Python library: the decoded value, or the
    exception it raises; a [JSONDecodeError] for a text that is not JSON,
    and also a [RecursionError] for a text nested too deep or a
    [ValueError] for an integer of too many digits. *)
Variable json_loads : pystr -> exn + json.

(** Lines 262-278: the repair of an unterminated string.  The line and
    the column are read back from [str(e)] with [re.search].  A column 0
    makes [line[col_num-1]] the last character of the line, and an
    [IndexError] on an empty line. *)
Definition fix_unterminated (e : exn) (json_content : pystr)
    : exn + pystr :=
  let error_info := str_of_exn e in
  if contains (py "Unterminated string") error_info then
    match search_number (py "line ") error_info,
          search_number (py "column ") error_info with
    | Some line_num, Some col_num =>
        let lines := split [10%N] json_content in
        match line_num with
        | O => inr json_content
        | S li =>
            match lines !! li with
            | None => inr json_content
            | Some line =>
                let fixed :=
                  match col_num with
                  | O =>
                      match last line with
                      | None => inl IndexError
                      | Some c =>
                          if N.eqb c 34
                          then inr (take (length line - 1) line
                                      ++ [92%N; 34%N] ++ line)
                          else inr (line ++ [34%N])
                      end
                  | S ci =>
                      match line !! ci with
                      | Some 34%N =>
                          inr (take ci line ++ [92%N; 34%N] ++ drop col_num line)
                      | _ => inr (line ++ [34%N])
                      end
                  end in
                match fixed with
                | inl ex => inl ex
                | inr line' => inr (join [10%N] (<[li := line']> lines))
                end
            end
        end
    | _, _ => inr json_content
    end
  else inr json_content.

(** Lines 280-285: closing braces appended, or stripped from the end. *)
Definition balance_braces (json_content : pystr) : pystr :=
  let opening := count_char 123 json_content in
  let closing := count_char 125 json_content in
  if (closing <? opening)%nat
  then json_content ++ replicate (opening - closing) 125%N
  else Nat.iter (closing - opening)
         (fun s => rstrip (rstrip_char 125 (rstrip s))) json_content.

(** Lines 287-296: trailing commas removed, bare property names quoted. *)
Definition fix_syntax (json_content : pystr) : pystr :=
  sub_all m_property_name
    (sub_all (m_trailing_comma 93) (sub_all (m_trailing_comma 125) json_content)).

(** Lines 302-309: the key/value pairs found in the original text, the
    later ones over the earlier ones; [int] raises on a number of too many
    digits, and the pairs found before it are lost with it. *)
Definition salvage_pair (acc : exn + dict json)
    (m : pystr * (pystr + pystr)) : exn + dict json :=
  match acc, m with
  | inl ex, _ => inl ex
  | inr result, (key, inl value) => inr (dict_set key (JStr value) result)
  | inr result, (key, inr digits) =>
      match int_of_digits digits with
      | inl ex => inl ex
      | inr n => inr (dict_set key (JInt n) result)
      end
  end.

Definition regex_salvage (original_content : pystr) : exn + dict json :=
  foldl salvage_pair (inr []) (find_all m_key_value original_content).

(** [repair_json]: both handlers are [except json.JSONDecodeError]; any
    other exception of [json.loads] leaves the function at once. *)
Definition repair_json (json_content : pystr) : exn + json :=
  match json_loads json_content with
  | inr v => inr v
  | inl e =>
      if is_decode_error e then
        match fix_unterminated e json_content with
        | inl ex => inl ex
        | inr jc1 =>
            match json_loads (fix_syntax (balance_braces jc1)) with
            | inr v => inr v
            | inl e2 =>
                if is_decode_error e2 then
                  match regex_salvage json_content with
                  | inl ex => inl ex
                  | inr [] => inl e
                  | inr result => inr (JObj result)
                  end
                else inl e2
            end
        end
      else inl e
  end.

(** [extract_json_blocks]: the blocks that decode are merged in order; a
    block that makes [json.loads] raise, whatever the exception, is left
    out.  [combined.update(block)] needs a mapping; Python's decoder gives
    a dict for a text that starts with a brace, and the model raises
    [TypeError] for any other value. *)
Definition extract_json_blocks (text : pystr) : exn + option (dict json) :=
  let potential_blocks := find_all m_block text in
  let valid_blocks :=
    omap (fun block => match json_loads block with
                       | inr parsed => Some parsed
                       | inl _ => None
                       end) potential_blocks in
  match valid_blocks with
  | [] => inr None
  | _ =>
      foldl (fun acc block =>
               match acc, block with
               | inl ex, _ => inl ex
               | inr (Some combined), JObj d => inr (Some (dict_update combined d))
               | inr _, _ => inl (TypeError (py "object is not iterable"))
               end)
            (inr (Some [])) valid_blocks
  end.

(** The code fence around the answer, lines 442-447. *)
Definition fenced_content (translated_text : pystr) : pystr :=
  if contains (py "```json") translated_text then
    strip (nth 0 (split (py "```")
                    (nth 1 (split (py "```json") translated_text) [])) [])
  else if contains (py "```") translated_text then
    strip (nth 1 (split (py "```") translated_text) [])
  else strip translated_text.

(** Lines 449-465: strict decoding, then [repair_json], then
    [extract_json_blocks]; the first [JSONDecodeError] is raised when all
    of them fail.  The handler of line 451 is for [json.JSONDecodeError]
    only: any other exception of the strict decoding is raised with no
    repair tried.  The handler of line 454 is for every exception of
    [repair_json]. *)
Definition parse_response (json_content : pystr) : exn + json :=
  match json_loads json_content with
  | inr batch_result => inr batch_result
  | inl e =>
      if is_decode_error e then
        match repair_json json_content with
        | inr batch_result => inr batch_result
        | inl e2 =>
            match extract_json_blocks json_content with
            | inl ex => inl ex
            | inr (Some ((_ :: _) as extracted_result)) =>
                inr (JObj extracted_result)
            | inr _ => inl e
            end
        end
      else inl e
  end.


(** [clean_text] *)
Definition clean_text (text : pystr) : pystr :=
  replace (py "\t") [9%N]
    (replace (py "\u000b") [11%N] (replace (py "\n") [10%N] text)).

(** [type(v).__name__] of a decoded value. *)
Definition type_name (v : json) : pystr :=
  match v with
  | JNull => py "NoneType"
  | JBool _ => py "bool"
  | JInt _ => py "int"
  | JFloat _ => py "float"
  | JStr _ => py "str"
  | JArr _ => py "list"
  | JObj _ => py "dict"
  end.

(** Lines 467-469: [batch_result.items()] needs a dict; the string values
    are cleaned in place. *)
Definition clean_result (batch_result : json) : exn + dict json :=
  match batch_result with
  | JObj d =>
      inr ((fun kv => match kv.2 with
                      | JStr value => (kv.1, JStr (clean_text value))
                      | _ => kv
                      end) <$> d)
  | _ =>
      inl (AttributeError
             (py "'" ++ type_name batch_result
                ++ py "' object has no attribute 'items'"))
  end.

(** The text of an answer turned into a batch result. *)
Definition decode_answer (translated_text : pystr) : exn + dict json :=
  match parse_response (fenced_content translated_text) with
  | inl ex => inl ex
  | inr batch_result => clean_result batch_result
  end.

End ResponseRepair.

(** ** Recovery state and the translation backend *)

(** An entry of [recovery_state["failed_batches"]]. *)
Record failed_batch := FailedBatch {
  fb_batch_id : pystr;
  fb_keys : list pystr;
  fb_error : pystr
}.

Global Instance failed_batch_eq_dec : EqDecision failed_batch.
Proof. solve_decision. Defined.

(** The recovery state of [setup_recovery_system], with the fields that
    [translate_text] reads or writes.  The identifier, the languages, the
    item count and the two time stamps are written to the file and never
    read back by the engine. *)
Record recovery_state := RecoveryState {
  completed_batches : list pystr;
  failed_batches : list failed_batch;
  translated_items : dict json;
  duplicates_map : option (dict pystr)
}.

(** What varies in the prompt of a call to [client.messages.create]: which
    of the two prompts it is (a batch, or the final batch of missing keys),
    the batch index printed in it and the JSON object to translate. *)
Record request := Request {
  rq_final : bool;
  rq_batch_index : pystr;
  rq_payload : dict pystr
}.

(** The state of one run of [translate_text]: the recovery state, the
    local dictionary [unique_translated_dict], the number of calls made to
    the backend so far, and the recovery state at every write of the
    recovery file, the latest first.  A write that is completed leaves the
    text of its state in the file; a write that raises leaves the file
    truncated (see [CheckpointFile] below). *)
Record job := Job {
  rstate : recovery_state;
  unique_translated_dict : dict json;
  clock : nat;
  disk : list recovery_state
}.

(** The recovery file.  [json.dump(recovery_state, f, ensure_ascii=False,
    indent=2)] writes to a file opened with [encoding='utf-8']:
    [dump_error st] is the exception that this raises for the state [st],
    if any.  A string with a lone surrogate, which UTF-8 cannot encode,
    gives a [UnicodeEncodeError]; a value nested deeper than the
    interpreter allows gives a [RecursionError].  The file system itself
    is taken to work: opening and writing raise for no other reason than
    the data. *)
Class recovery_file := { dump_error : recovery_state -> option exn }.

(** The encoder of [json.dump] and the encoding of the file, after
    CPython 3.11 (Lib/json/encoder.py, [_make_iterencode]; the UTF-8 codec
    in strict mode), for the strings that cannot be encoded.  The limit on
    the nesting of the values is not modelled. *)
Module Utf8File.

(** [encode_basestring]: a string between quotes, with the escapes of
    JSON. *)
Definition escape_char (c : N) : pystr :=
  (if c =? 34 then [92; 34]
   else if c =? 92 then [92; 92]
   else if c =? 10 then py "\n"
   else if c =? 13 then py "\r"
   else if c =? 9 then py "\t"
   else if c =? 8 then py "\b"
   else if c =? 12 then py "\f"
   else if c <? 32 then py "\u" ++ hex_padded 4 c
   else [c])%N.

Definition encode_basestring (s : pystr) : pystr :=
  [34%N] ++ concat (escape_char <$> s) ++ [34%N].

(** The pieces that hold a string among those that the encoder yields
    for [v] at the nesting [level], in the order of writing.  A key and a
    string value of a dictionary are pieces of their own; a string of a
    list comes after the bracket or the comma, the line feed and the
    indentation. *)
Fixpoint str_chunks (level : nat) (v : json) : list pystr :=
  let newline_indent := 10%N :: replicate (2 * S level) 32%N in
  match v with
  | JStr s => [encode_basestring s]
  | JArr items =>
      (fix elems (first : bool) (l : list json) : list pystr :=
         match l with
         | [] => []
         | x :: rest =>
             match x with
             | JStr s =>
                 [((if first then 91%N else 44%N) :: newline_indent)
                    ++ encode_basestring s]
             | _ => str_chunks (S level) x
             end ++ elems false rest
         end) true items
  | JObj members =>
      (fix mems (l : list (pystr * json)) : list pystr :=
         match l with
         | [] => []
         | (k, x) :: rest =>
             encode_basestring k :: str_chunks (S level) x ++ mems rest
         end) members
  | _ => []
  end.

Definition is_surrogate (c : N) : bool := ((0xD800 <=? c) && (c <=? 0xDFFF))%N.

(** [chunk.encode('utf-8')]: the error names the first run of
    surrogates. *)
Definition encode_error (chunk : pystr) : option exn :=
  let before := take_while (fun c => negb (is_surrogate c)) chunk in
  match take_while is_surrogate (drop (length before) chunk) with
  | [] => None
  | run =>
      Some (UnicodeEncodeError (py "utf-8") chunk (length before)
              (length before + length run) (py "surrogates not allowed"))
  end.

(** The members of the recovery state that hold strings of the run, in
    the order of the dictionary of [setup_recovery_system].  The
    identifier, the languages, the item count and the time stamps are
    taken to hold no surrogate. *)
Definition state_json (st : recovery_state) : json :=
  JObj ([(py "completed_batches", JArr (JStr <$> completed_batches st));
         (py "failed_batches",
          JArr ((fun fb => JObj [(py "batch_id", JStr (fb_batch_id fb));
                                 (py "keys", JArr (JStr <$> fb_keys fb));
                                 (py "error", JStr (fb_error fb))])
                  <$> failed_batches st));
         (py "translated_items", JObj (translated_items st))]
          ++ match duplicates_map st with
             | Some duplicates =>
                 [(py "duplicates_map",
                   JObj ((fun kr => (kr.1, JStr kr.2)) <$> duplicates))]
             | None => []
             end).

(** The exception of the first piece that cannot be encoded. *)
Definition dump_error (st : recovery_state) : option exn :=
  head (omap encode_error (str_chunks 0 (state_json st))).

End Utf8File.

(** The recovery file of the concrete runs. *)
Global Instance utf8_file : recovery_file :=
  {| dump_error := Utf8File.dump_error |}.

(** [save_recovery_state()]: the exception of the write, if any, and the
    job after the call. *)
Definition save_recovery_state `{!recovery_file} (j : job)
    : option exn * job :=
  (dump_error (rstate j),
   Job (rstate j) (unique_translated_dict j) (clock j) (rstate j :: disk j)).

(** A call that no handler encloses: its exception ends the run. *)
Definition uncaught (r : option exn * job) : exn + job :=
  match r.1 with
  | Some ex => inl ex
  | None => inr r.2
  end.

(** What can be read back from the recovery file after [writes], the
    latest first: the state of the last write when that write was completed,
    nothing when it raised and left the file truncated. *)
Definition checkpoint `{!recovery_file} (writes : list recovery_state)
    : option recovery_state :=
  match writes with
  | st :: _ =>
      match dump_error st with
      | None => Some st
      | Some _ => None
      end
  | [] => None
  end.

(** [list.remove(x)]: the first element equal to [x] goes, [ValueError]
    when there is none. *)
Fixpoint list_remove `{EqDecision A} (x : A) (l : list A) : option (list A) :=
  match l with
  | [] => None
  | y :: l' =>
      if decide (x = y) then Some l'
      else match list_remove x l' with
           | Some r => Some (y :: r)
           | None => None
           end
  end.

(** [[items[i:i+n] for i in range(0, len(items), n)]] for [n > 0]; [fuel]
    bounds the number of chunks. *)
Fixpoint chunks_fuel {A} (fuel n : nat) (items : list A) : list (list A) :=
  match fuel, items with
  | S f, _ :: _ => take n items :: chunks_fuel f n (drop n items)
  | _, _ => []
  end.

Definition chunks {A} (n : nat) (items : list A) : list (list A) :=
  chunks_fuel (length items) n items.

(** [st'] has a translation for every key that [st] has one for. *)
Definition covered_by (st st' : recovery_state) : Prop :=
  dict_keys (translated_items st) ⊆ dict_keys (translated_items st').

(** The recovery states written between two states of a job, the latest
    first, cover one another in the order of writing, from [lo] up to
    [hi]. *)
Fixpoint between (lo : recovery_state) (written : list recovery_state)
    (hi : recovery_state) : Prop :=
  match written with
  | [] => covered_by lo hi
  | w :: older => covered_by w hi /\ between lo older w
  end.

(** From [j] to [j'] the translated keys only grow, in the recovery state
    and in every file content written on the way. *)
Definition grows (j j' : job) : Prop :=
  exists written,
    disk j' = written ++ disk j /\ between (rstate j) written (rstate j').

(** The local dictionary has the keys of the recovery state. *)
Definition synced (j : job) : Prop :=
  dict_keys (translated_items (rstate j)) ⊆ dict_keys (unique_translated_dict j).

(** The recovery state with which a run starts. *)
Definition start_state (resume : option recovery_state) : recovery_state :=
  match resume with
  | Some st => st
  | None => RecoveryState [] [] [] None
  end.

(** A step of the run: the keys grow, and the local dictionary stays in
    step with the recovery state. *)
Definition keeps (j j' : job) : Prop :=
  grows j j' /\ (synced j -> synced j').

Section Orchestrator.

Context `{!recovery_file}.

Variable json_loads : pystr -> exn + json.

(** The backend: the answer to the [n]-th call of the run, as a function
    of the request; an exception raised by the client library, or the
    text of the answer. *)
Variable backend : nat -> request -> exn + pystr.

(** One pass of the loop body of [translate_batch]. *)
Definition attempt (rq : request) (now : nat) : exn + dict json :=
  match backend now rq with
  | inl ex => inl ex
  | inr translated_text => decode_answer json_loads translated_text
  end.

(** [for retry in range(max_retries + 1)]: both handlers go to the next
    pass while [retry < max_retries] and raise the exception of the last
    pass otherwise. *)
Fixpoint attempts (rq : request) (retries_left : nat) (now : nat)
    : (exn + dict json) * nat :=
  match attempt rq now with
  | inr batch_result => (inr batch_result, S now)
  | inl ex =>
      match retries_left with
      | O => (inl ex, S now)
      | S n => attempts rq n (S now)
      end
  end.

(** [translate_batch(batch, batch_index, ..., max_retries)] *)
Definition translate_batch (batch : dict pystr) (batch_index : pystr)
    (max_retries : nat) (now : nat) : (exn + dict json) * nat :=
  attempts (Request false batch_index batch) max_retries now.

(** Lines 555-558 and 600-603: a result is merged, the batch id recorded
    and the state written. *)
Definition record_success (id : pystr) (result : dict json) (now : nat)
    (j : job) : option exn * job :=
  save_recovery_state
    (Job (RecoveryState (completed_batches (rstate j) ++ [id])
                        (failed_batches (rstate j))
                        (dict_update (translated_items (rstate j)) result)
                        (duplicates_map (rstate j)))
         (dict_update (unique_translated_dict j) result)
         now (disk j)).

(** Lines 560-567: the handler of the main loop. *)
Definition record_failure (id : pystr) (batch : dict pystr) (ex : exn)
    (now : nat) (j : job) : option exn * job :=
  save_recovery_state
    (Job (RecoveryState (completed_batches (rstate j))
                        (failed_batches (rstate j)
                           ++ [FailedBatch id (dict_keys batch) (str_of_exn ex)])
                        (translated_items (rstate j))
                        (duplicates_map (rstate j)))
         (unique_translated_dict j) now (disk j)).

Definition main_batch_id (batch_index : nat) : pystr :=
  py "batch_" ++ str_of_nat (batch_index + 1).

(** Lines 540-572: one batch of the main loop.  The write of line 558 is
    inside the [try]: when it raises, the handler records the batch as
    failed, with the state as the [try] left it.  The write of line 567 is
    in the handler: its exception ends the run. *)
Definition translating_step (batch_index : nat) (batch : dict pystr)
    (j : job) : exn + job :=
  let id := main_batch_id batch_index in
  if bool_decide (id ∈ completed_batches (rstate j)) then inr j
  else
    match translate_batch batch (str_of_nat (batch_index + 1)) 2 (clock j) with
    | (inr batch_result, now) =>
        match record_success id batch_result now j with
        | (None, j1) => inr j1
        | (Some ex, j1) => uncaught (record_failure id batch ex now j1)
        end
    | (inl ex, now) => uncaught (record_failure id batch ex now j)
    end.

Fixpoint translating (batches : list (dict pystr)) (batch_index : nat)
    (j : job) : exn + job :=
  match batches with
  | [] => inr j
  | batch :: rest =>
      match translating_step batch_index batch j with
      | inl ex => inl ex
      | inr j' => translating rest (S batch_index) j'
      end
  end.

(** Lines 591-607: the sub-batches of one failed batch; a failure, of the
    call or of the write of line 603, is printed and skipped. *)
Definition sub_batch_step (id : pystr) (i : nat) (sub_batch : dict pystr)
    (j : job) : job :=
  let sub_id := id ++ py "_sub_" ++ str_of_nat (i + 1) in
  match translate_batch sub_batch (id ++ py "." ++ str_of_nat (i + 1)) 3
                        (clock j) with
  | (inr sub_result, now) => (record_success sub_id sub_result now j).2
  | (inl _, now) =>
      Job (rstate j) (unique_translated_dict j) now (disk j)
  end.

Fixpoint sub_batches_loop (id : pystr) (sub_batches : list (dict pystr))
    (i : nat) (j : job) : job :=
  match sub_batches with
  | [] => j
  | sub_batch :: rest =>
      sub_batches_loop id rest (S i) (sub_batch_step id i sub_batch j)
  end.

(** Lines 583-587. *)
Definition retry_sub_batches (text_dict : dict pystr) (keys : list pystr)
    : list (dict pystr) :=
  let retry_batch :=
    dict_of_items
      (omap (fun k => match dict_get k text_dict with
                      | Some v => Some (k, v)
                      | None => None
                      end) keys) in
  let chunk_size := Nat.max 5 (length retry_batch / 4) in
  dict_of_items <$> chunks chunk_size retry_batch.

(** Lines 579-610: one failed batch is retried in sub-batches and then
    removed from [failed_batches], whatever the sub-batches did; the write
    of line 610 is outside any [try]. *)
Definition reconcile_step (text_dict : dict pystr) (fb : failed_batch)
    (j : job) : exn + job :=
  let j1 := sub_batches_loop (fb_batch_id fb)
              (retry_sub_batches text_dict (fb_keys fb)) 0 j in
  match list_remove fb (failed_batches (rstate j1)) with
  | None => inl (ValueError (py "list.remove(x): x not in list"))
  | Some remaining =>
      uncaught
        (save_recovery_state
           (Job (RecoveryState (completed_batches (rstate j1)) remaining
                               (translated_items (rstate j1))
                               (duplicates_map (rstate j1)))
                (unique_translated_dict j1) (clock j1) (disk j1)))
  end.

(** [for failed_batch in list(recovery_state["failed_batches"])] *)
Fixpoint reconciling (text_dict : dict pystr) (snapshot : list failed_batch)
    (j : job) : exn + job :=
  match snapshot with
  | [] => inr j
  | fb :: rest =>
      match reconcile_step text_dict fb j with
      | inl ex => inl ex
      | inr j' => reconciling text_dict rest j'
      end
  end.

(** Lines 612-618: the full dictionary, duplicates filled in from their
    representative. *)
Definition reconstruct (unique_translated : dict json)
    (duplicates : dict pystr) : dict json :=
  foldl (fun full kr =>
           match dict_get kr.2 unique_translated with
           | Some v =>
               if bool_decide (kr.1 <> kr.2) then dict_set kr.1 v full else full
           | None => full
           end)
        (dict_update [] unique_translated) duplicates.

(** [set(text_dict.keys()) - set(full_translated_dict.keys())], listed in
    the order of [text_dict] (the iteration order of a Python set is not
    specified), and [missing_dict]. *)
Definition missing_dict (text_dict : dict pystr) (full : dict json)
    : dict pystr :=
  dict_of_items (filter (fun kv => dict_in kv.1 full = false) text_dict).

(** Lines 622-709: one call for the missing keys; any exception is
    printed and dropped, also the one of the write of line 696, which
    comes after the two updates.  Returns the full dictionary and the
    job. *)
Definition final_sweep (text_dict : dict pystr) (full : dict json) (j : job)
    : dict json * job :=
  match missing_dict text_dict full with
  | [] => (full, j)
  | missing =>
      match attempt (Request true [] missing) (clock j) with
      | inr final_batch =>
          (dict_update full final_batch,
           (save_recovery_state
              (Job (RecoveryState (completed_batches (rstate j))
                                  (failed_batches (rstate j))
                                  (dict_update (translated_items (rstate j))
                                               final_batch)
                                  (duplicates_map (rstate j)))
                   (unique_translated_dict j) (S (clock j)) (disk j))).2)
      | inl _ =>
          (full, Job (rstate j) (unique_translated_dict j) (S (clock j)) (disk j))
      end
  end.

(** [setup_recovery_system]: the state read from the resume file when
    there is one, a new state written to a new file otherwise (line 365,
    outside any [try]).  [resume] is the state that [json.load] returns
    for the resume file, with its three lists; a file that cannot be
    decoded, or that lacks one of them, is not modelled. *)
Definition setup_recovery_system (resume : option recovery_state)
    (now : nat) (files : list recovery_state) : exn + job :=
  match resume with
  | Some st => inr (Job st [] now files)
  | None =>
      uncaught (save_recovery_state (Job (RecoveryState [] [] [] None) [] now files))
  end.

(** Lines 534-618: the batches are translated, the failed ones retried,
    and the full dictionary rebuilt. *)
Definition run_batches (text_dict : dict pystr) (duplicates : dict pystr)
    (batches : list (dict pystr)) (j : job) : exn + (dict json * job) :=
  match translating batches 0
          (Job (rstate j) (translated_items (rstate j)) (clock j) (disk j)) with
  | inl ex => inl ex
  | inr j2 =>
      match reconciling text_dict (failed_batches (rstate j2)) j2 with
      | inl ex => inl ex
      | inr j3 => inr (reconstruct (unique_translated_dict j3) duplicates, j3)
      end
  end.

(** Lines 517-525: the unique texts and the duplicates map, computed on
    a new job (and written, line 520, outside any [try]) and read back
    from the recovery state on a resumed one. *)
Definition prepare (text_dict : dict pystr) (j0 : job)
    : exn + (dict pystr * dict pystr * job) :=
  match translated_items (rstate j0) with
  | [] =>
      let '(unique, duplicates) := deduplicate_content text_dict in
      match uncaught
              (save_recovery_state
                 (Job (RecoveryState (completed_batches (rstate j0))
                                     (failed_batches (rstate j0))
                                     (translated_items (rstate j0))
                                     (Some duplicates))
                      (unique_translated_dict j0) (clock j0) (disk j0))) with
      | inl ex => inl ex
      | inr j1 => inr (unique, duplicates, j1)
      end
  | _ =>
      match duplicates_map (rstate j0) with
      | None => inl (KeyError (py "duplicates_map"))
      | Some duplicates =>
          inr (filter (fun kv => kv.1 ∉ duplicates.*2) text_dict,
               duplicates, j0)
      end
  end.

(** [translate_text(text_dict, ..., resume_file)], run from call number
    [now] with the recovery file history [files]. *)
Definition translate_text (text_dict : dict pystr)
    (resume : option recovery_state) (now : nat)
    (files : list recovery_state) : exn + (dict json * job) :=
  match setup_recovery_system resume now files with
  | inl ex => inl ex
  | inr j0 =>
      match prepare text_dict j0 with
      | inl ex => inl ex
      | inr (unique_text_dict, duplicates, j1) =>
          let remaining_dict :=
            filter (fun kv => dict_in kv.1 (translated_items (rstate j1)) = false)
                   unique_text_dict in
          let translated :=
            match remaining_dict with
            | [] => inr (translated_items (rstate j1), j1)
            | _ =>
                match split_dict_into_smart_batches App13.estimate_tokens
                        remaining_dict 150000 2000 with
                | inl ex => inl ex
                | inr batches => run_batches text_dict duplicates batches j1
                end
            end in
          match translated with
          | inl ex => inl ex
          | inr (full_translated_dict, j4) =>
              inr (final_sweep text_dict full_translated_dict j4)
          end
      end
  end.

End Orchestrator.

(** ** The recovery helper of src/batch-recovery.py *)

Module BatchRecovery.

(** An entry of [failed_batches] as [process_batch] writes it. *)
Record failed_info := FailedInfo {
  batch_index : pystr;
  items : list pystr;
  error : pystr;
  batch_size : nat
}.

Global Instance failed_info_eq_dec : EqDecision failed_info.
Proof. solve_decision. Defined.

Record state := State {
  completed_batches : list pystr;
  failed_batches : list failed_info;
  translated_items : dict json;
  calls : nat
}.

Section Recovery.

(** The translation code that the file leaves to its user (the
    placeholder in the [try] block of [process_batch]): it binds
    [batch_result] or raises.  Its answer may depend on the number of
    calls made before. *)
Variable translate_hook : nat -> dict pystr -> exn + dict json.

(** The two files that the helper writes with [json.dump(...,
    ensure_ascii=False, indent=2)] and [encoding='utf-8']: the exception
    that the write of a batch (lines 52-53) and the write of the recovery
    state (lines 43-44) raise, if any. *)
Variable batch_file_error : dict pystr -> option exn.
Variable state_file_error : state -> option exn.

(** Lines 69-81, the handler of [process_batch]: the batch is recorded as
    failed and the state written; the exception of that write leaves the
    function. *)
Definition record_failed (batch : dict pystr) (index : pystr) (size : nat)
    (ex : exn) (st : state) : exn + ((bool * dict json) * state) :=
  let st' :=
    State (completed_batches st)
          (failed_batches st
             ++ [FailedInfo index (dict_keys batch) (str_of_exn ex) size])
          (translated_items st) (calls st) in
  match state_file_error st' with
  | Some ex' => inl ex'
  | None => inr ((false, []), st')
  end.

(** [process_batch(batch, batch_index, batch_size)], with the state
    after the call.  The copy of the batch is written before the [try];
    the write of line 64 is inside it. *)
Definition process_batch (batch : dict pystr) (index : pystr)
    (size : nat) (st : state) : exn + ((bool * dict json) * state) :=
  match batch_file_error batch with
  | Some ex => inl ex
  | None =>
      match translate_hook (calls st) batch with
      | inr batch_result =>
          let st' :=
            State (completed_batches st ++ [index]) (failed_batches st)
                  (dict_update (translated_items st) batch_result)
                  (S (calls st)) in
          match state_file_error st' with
          | None => inr ((true, batch_result), st')
          | Some ex => record_failed batch index size ex st'
          end
      | inl ex =>
          record_failed batch index size ex
            (State (completed_batches st) (failed_batches st)
                   (translated_items st) (S (calls st)))
      end
  end.

(** Lines 113-131: the sub-batches of one failed batch, counting the
    successes; the write of line 131 is outside any [try]. *)
Fixpoint sub_batches_loop (index : pystr) (size : nat)
    (sub_batches : list (dict pystr)) (i : nat) (sub_success_count : nat)
    (st : state) : exn + (nat * state) :=
  match sub_batches with
  | [] => inr (sub_success_count, st)
  | sub_batch :: rest =>
      match process_batch sub_batch
              (index ++ py "." ++ str_of_nat (i + 1)) size st with
      | inl ex => inl ex
      | inr ((true, result), st') =>
          let st'' :=
            State (completed_batches st') (failed_batches st')
                  (dict_update (translated_items st') result) (calls st') in
          match state_file_error st'' with
          | Some ex => inl ex
          | None =>
              sub_batches_loop index size rest (S i) (S sub_success_count) st''
          end
      | inr ((false, _), st') =>
          sub_batches_loop index size rest (S i) sub_success_count st'
      end
  end.

(** Lines 96-109. *)
Definition retry_sub_batches (text_dict : dict pystr) (info : failed_info)
    : nat * list (dict pystr) :=
  let new_batch_size := Nat.max 1 (batch_size info / 2) in
  let retry_dict :=
    dict_of_items
      (omap (fun k => match dict_get k text_dict with
                      | Some v => Some (k, v)
                      | None => None
                      end) (items info)) in
  (new_batch_size, dict_of_items <$> chunks new_batch_size retry_dict).

(** Lines 90-139: one failed batch; it is removed only when every
    sub-batch succeeded, and the state is written then (line 137). *)
Definition retry_step (text_dict : dict pystr) (info : failed_info)
    (st : state) : exn + state :=
  let '(new_batch_size, sub_batches) := retry_sub_batches text_dict info in
  match sub_batches_loop (batch_index info) new_batch_size sub_batches 0 0 st with
  | inl ex => inl ex
  | inr (sub_success_count, st') =>
      if bool_decide (sub_success_count = length sub_batches)
      then
        match list_remove info (failed_batches st') with
        | None => inl (ValueError (py "list.remove(x): x not in list"))
        | Some remaining =>
            let st'' := State (completed_batches st') remaining
                              (translated_items st') (calls st') in
            match state_file_error st'' with
            | Some ex => inl ex
            | None => inr st''
            end
        end
      else inr st'
  end.

(** [retry_failed_batches()] *)
Fixpoint retry_loop (text_dict : dict pystr) (snapshot : list failed_info)
    (st : state) : exn + state :=
  match snapshot with
  | [] => inr st
  | info :: rest =>
      match retry_step text_dict info st with
      | inl ex => inl ex
      | inr st' => retry_loop text_dict rest st'
      end
  end.

Definition retry_failed_batches (text_dict : dict pystr) (st : state)
    : exn + state :=
  retry_loop text_dict (failed_batches st) st.

End Recovery.

(** The two writes on a file encoded in UTF-8, for the concrete runs. *)
Definition utf8_batch_error (batch : dict pystr) : option exn :=
  head (omap Utf8File.encode_error
          (Utf8File.str_chunks 0 (JObj ((fun kv => (kv.1, JStr kv.2)) <$> batch)))).

Definition utf8_state_error (st : state) : option exn :=
  head (omap Utf8File.encode_error
          (Utf8File.str_chunks 0
             (JObj [(py "completed_batches", JArr (JStr <$> completed_batches st));
                    (py "failed_batches",
                     JArr ((fun info =>
                              JObj [(py "batch_index", JStr (batch_index info));
                                    (py "items", JArr (JStr <$> items info));
                                    (py "error", JStr (error info));
                                    (py "batch_size",
                                     JInt (Z.of_nat (batch_size info)))])
                             <$> failed_batches st));
                    (py "translated_items", JObj (translated_items st))]))).

End BatchRecovery.

(** ** A reference decoder

    A model of [json.loads] on a [str], after the decoder of CPython 3.12
    (Lib/json/decoder.py, Modules/_json.c): values, error messages and
    error positions.  The engine above takes the decoder as a parameter;
    this one instantiates it where a concrete run is computed. *)

Module RefJson.

Inductive scan_result (A : Type) :=
  | Scanned (v : A) (rest : pystr) (pos : nat)
  | StopIteration (pos : nat)
  | DecodeFail (msg : pystr) (pos : nat)
  | Raised (ex : exn).
Arguments Scanned {A}.
Arguments StopIteration {A}.
Arguments DecodeFail {A}.
Arguments Raised {A}.

(** The white space of JSON: space, tab, line feed, carriage return. *)
Definition is_ws (c : N) : bool :=
  ((c =? 32) || (c =? 9) || (c =? 10) || (c =? 13))%N.

Fixpoint skip_ws (s : pystr) (pos : nat) : pystr * nat :=
  match s with
  | c :: s' => if is_ws c then skip_ws s' (S pos) else (s, pos)
  | [] => (s, pos)
  end.

Definition hex_value (c : N) : option N :=
  (if (48 <=? c) && (c <=? 57) then Some (c - 48)
   else if (65 <=? c) && (c <=? 70) then Some (c - 55)
   else if (97 <=? c) && (c <=? 102) then Some (c - 87)
   else None)%N.

Definition hex4 (a b c d : N) : option N :=
  match hex_value a, hex_value b, hex_value c, hex_value d with
  | Some x, Some y, Some z, Some w => Some (((x * 16 + y) * 16 + z) * 16 + w)%N
  | _, _, _, _ => None
  end.

Definition simple_escape (esc : N) : option N :=
  (if esc =? 34 then Some 34 else if esc =? 92 then Some 92
   else if esc =? 47 then Some 47 else if esc =? 98 then Some 8
   else if esc =? 102 then Some 12 else if esc =? 110 then Some 10
   else if esc =? 114 then Some 13 else if esc =? 116 then Some 9
   else None)%N.

(** [scanstring]: the text after an opening quote at [begin]; [acc] is
    the decoded text so far, reversed.  An escape [\uXXXX] needs a
    character after its four digits, and so does the second escape of a
    surrogate pair; the error of an escape is at its letter [u]. *)
Fixpoint scanstring (s : pystr) (pos begin : nat) (acc : pystr)
    : scan_result pystr :=
  match s with
  | [] => DecodeFail (py "Unterminated string starting at") begin
  | c :: s1 =>
      if (c =? 34)%N then Scanned (reverse acc) s1 (S pos)
      else if (c =? 92)%N then
        match s1 with
        | [] => DecodeFail (py "Unterminated string starting at") begin
        | esc :: s2 =>
            if (esc =? 117)%N then
              match s2 with
              | a :: b :: c' :: d :: ((_ :: _) as s6) =>
                  match hex4 a b c' d with
                  | None => DecodeFail (py "Invalid \uXXXX escape") (S pos)
                  | Some uni =>
                      let single := scanstring s6 (pos + 6) begin (uni :: acc) in
                      if ((0xD800 <=? uni) && (uni <=? 0xDBFF))%N then
                        match s6 with
                        | 92%N :: 117%N :: e :: f :: g :: h :: ((_ :: _) as s12) =>
                            match hex4 e f g h with
                            | Some uni2 =>
                                if ((0xDC00 <=? uni2) && (uni2 <=? 0xDFFF))%N
                                then scanstring s12 (pos + 12) begin
                                       ((0x10000 + (uni - 0xD800) * 1024
                                           + (uni2 - 0xDC00))%N :: acc)
                                else single
                            | None => single
                            end
                        | _ => single
                        end
                      else single
                  end
              | _ => DecodeFail (py "Invalid \uXXXX escape") (S pos)
              end
            else
              match simple_escape esc with
              | Some ch => scanstring s2 (pos + 2) begin (ch :: acc)
              | None => DecodeFail (py "Invalid \escape") pos
              end
        end
      else if (c <? 32)%N then DecodeFail (py "Invalid control character at") pos
      else scanstring s1 (S pos) begin (c :: acc)
  end.

(** A number at the current position: the literal, whether it is an
    integer, and its length. *)
Definition match_number (s : pystr) : option (pystr * bool * nat) :=
  let '(sign, s1) := match s with
                     | 45%N :: s' => ([45%N], s')
                     | _ => ([], s)
                     end in
  let int_part :=
    match s1 with
    | 48%N :: _ => [48%N]
    | _ => take_while is_digit s1
    end in
  match int_part with
  | [] => None
  | _ =>
      let s2 := drop (length int_part) s1 in
      let frac :=
        match s2 with
        | 46%N :: s' =>
            match take_while is_digit s' with
            | [] => []
            | ds => 46%N :: ds
            end
        | _ => []
        end in
      let s3 := drop (length frac) s2 in
      let expo :=
        match s3 with
        | e :: s' =>
            if ((e =? 101) || (e =? 69))%N then
              let '(sg, s'') := match s' with
                                | c :: r => if ((c =? 45) || (c =? 43))%N
                                            then ([c], r) else ([], s')
                                | [] => ([], s')
                                end in
              match take_while is_digit s'' with
              | [] => []
              | ds => e :: sg ++ ds
              end
            else []
        | [] => []
        end in
      let literal := sign ++ int_part ++ frac ++ expo in
      Some (literal, bool_decide (frac = [] /\ expo = []), length literal)
  end.

Definition digits_of_literal (lit : pystr) : pystr :=
  match lit with
  | 45%N :: ds => ds
  | ds => ds
  end.

Definition int_of_literal (lit : pystr) : Z :=
  match lit with
  | 45%N :: ds => - Z.of_nat (nat_of_digits ds)
  | ds => Z.of_nat (nat_of_digits ds)
  end.

(** [scan_once] with the object and the array loops; [fuel] bounds the
    nesting and the number of members, the length of the text is
    enough. *)
Fixpoint scan_once (fuel : nat) (s : pystr) (pos : nat) : scan_result json :=
  match fuel with
  | O => StopIteration pos
  | S f =>
      match s with
      | [] => StopIteration pos
      | c :: s1 =>
          if (c =? 34)%N then
            match scanstring s1 (S pos) pos [] with
            | Scanned v rest p => Scanned (JStr v) rest p
            | StopIteration p => StopIteration p
            | DecodeFail m p => DecodeFail m p
            | Raised ex => Raised ex
            end
          else if (c =? 123)%N then
            let '(s2, p2) := skip_ws s1 (S pos) in
            match s2 with
            | 125%N :: s3 => Scanned (JObj []) s3 (S p2)
            | _ =>
                match members f s2 p2 [] with
                | Scanned d rest p => Scanned (JObj d) rest p
                | StopIteration p => StopIteration p
                | DecodeFail m p => DecodeFail m p
                | Raised ex => Raised ex
                end
            end
          else if (c =? 91)%N then
            let '(s2, p2) := skip_ws s1 (S pos) in
            match s2 with
            | 93%N :: s3 => Scanned (JArr []) s3 (S p2)
            | _ =>
                match elements f s2 p2 [] with
                | Scanned l rest p => Scanned (JArr l) rest p
                | StopIteration p => StopIteration p
                | DecodeFail m p => DecodeFail m p
                | Raised ex => Raised ex
                end
            end
          else if startswith (py "null") s then Scanned JNull (drop 4 s) (pos + 4)
          else if startswith (py "true") s then Scanned (JBool true) (drop 4 s) (pos + 4)
          else if startswith (py "false") s then Scanned (JBool false) (drop 5 s) (pos + 5)
          else if startswith (py "NaN") s then Scanned (JFloat (py "NaN")) (drop 3 s) (pos + 3)
          else if startswith (py "Infinity") s
               then Scanned (JFloat (py "Infinity")) (drop 8 s) (pos + 8)
          else if startswith (py "-Infinity") s
               then Scanned (JFloat (py "-Infinity")) (drop 9 s) (pos + 9)
          else
            match match_number s with
            | Some (lit, true, n) =>
                match digits_limit_error (digits_of_literal lit) with
                | Some ex => Raised ex
                | None => Scanned (JInt (int_of_literal lit)) (drop n s) (pos + n)
                end
            | Some (lit, false, n) => Scanned (JFloat lit) (drop n s) (pos + n)
            | None => StopIteration pos
            end
      end
  end
with members (fuel : nat) (s : pystr) (pos : nat) (acc : dict json)
    : scan_result (dict json) :=
  match fuel with
  | O => StopIteration pos
  | S f =>
      match s with
      | 34%N :: s1 =>
          match scanstring s1 (S pos) pos [] with
          | StopIteration p => StopIteration p
          | DecodeFail m p => DecodeFail m p
          | Raised ex => Raised ex
          | Scanned key s2 p2 =>
              let '(s3, p3) := skip_ws s2 p2 in
              match s3 with
              | 58%N :: s4 =>
                  let '(s5, p5) := skip_ws s4 (S p3) in
                  match scan_once f s5 p5 with
                  | StopIteration p => StopIteration p
                  | DecodeFail m p => DecodeFail m p
                  | Raised ex => Raised ex
                  | Scanned v s6 p6 =>
                      let acc' := dict_set key v acc in
                      let '(s7, p7) := skip_ws s6 p6 in
                      match s7 with
                      | 125%N :: s8 => Scanned acc' s8 (S p7)
                      | 44%N :: s8 =>
                          let '(s9, p9) := skip_ws s8 (S p7) in
                          members f s9 p9 acc'
                      | _ => DecodeFail (py "Expecting ',' delimiter") p7
                      end
                  end
              | _ => DecodeFail (py "Expecting ':' delimiter") p3
              end
          end
      | _ => DecodeFail (py "Expecting property name enclosed in double quotes") pos
      end
  end
with elements (fuel : nat) (s : pystr) (pos : nat) (acc : list json)
    : scan_result (list json) :=
  match fuel with
  | O => StopIteration pos
  | S f =>
      match scan_once f s pos with
      | StopIteration p => StopIteration p
      | DecodeFail m p => DecodeFail m p
      | Raised ex => Raised ex
      | Scanned v s1 p1 =>
          let '(s2, p2) := skip_ws s1 p1 in
          match s2 with
          | 93%N :: s3 => Scanned (acc ++ [v]) s3 (S p2)
          | 44%N :: s3 =>
              let '(s4, p4) := skip_ws s3 (S p2) in
              elements f s4 p4 (acc ++ [v])
          | _ => DecodeFail (py "Expecting ',' delimiter") p2
          end
      end
  end.

(** [JSONDecodeError(msg, doc, pos)]: the line and the column of [pos]. *)
Definition decode_error_at (msg doc : pystr) (pos : nat) : exn :=
  let before := take pos doc in
  JSONDecodeError msg (S (count_char 10 before))
                  (S (length (take_while (fun c => negb (N.eqb c 10))
                                         (reverse before))))
                  pos.

(** [json.loads(doc)].  The limit that the interpreter puts on the nesting
    of the arrays and the objects (a [RecursionError]) depends on the stack
    of the caller and is not modelled: the texts of the concrete runs nest
    one level deep. *)
Definition json_loads (doc : pystr) : exn + json :=
  match doc with
  | 0xFEFF%N :: _ =>
      inl (decode_error_at (py "Unexpected UTF-8 BOM (decode using utf-8-sig)") doc 0)
  | _ =>
      let '(s, p) := skip_ws doc 0 in
      match scan_once (S (length doc)) s p with
      | StopIteration pos => inl (decode_error_at (py "Expecting value") doc pos)
      | DecodeFail msg pos => inl (decode_error_at msg doc pos)
      | Raised ex => inl ex
      | Scanned v rest pos =>
          match skip_ws rest pos with
          | ([], _) => inr v
          | (_, pos') => inl (decode_error_at (py "Extra data") doc pos')
          end
      end
  end.

(** A JSON object of strings, as a well-behaved backend prints it. *)
Definition escape (s : pystr) : pystr :=
  concat ((fun c => if ((c =? 34) || (c =? 92))%N then [92%N; c] else [c]) <$> s).

Definition dumps_object (d : dict pystr) : pystr :=
  [123%N]
    ++ join (py ", ")
         ((fun kv => [34%N] ++ escape kv.1 ++ [34%N; 58%N; 32%N; 34%N]
                       ++ escape kv.2 ++ [34%N]) <$> d)
    ++ [125%N].

End RefJson.

(** ** Backends and inputs for concrete runs *)

Module Stub.

(** The translation of one text: a mark and the first characters. *)
Definition tr (text : pystr) : pystr := py "T:" ++ take 4 text.

(** The answer of a backend that translates every text of the request. *)
Definition answer (payload : dict pystr) : pystr :=
  RefJson.dumps_object ((fun kv => (kv.1, tr kv.2)) <$> payload).

(** A backend that always answers, for every key. *)
Definition faithful : nat -> request -> exn + pystr :=
  fun _ rq => inr (answer (rq_payload rq)).

(** A backend that refuses the requests estimated above [limit] tokens,
    and answers the others for every key. *)
Definition size_limited (limit : Z) : nat -> request -> exn + pystr :=
  fun _ rq =>
    if Z.ltb limit (batch_tokens App13.estimate_tokens 2000 (rq_payload rq))
    then inl (APIError (py "request too large"))
    else inr (answer (rq_payload rq)).

(** A backend that refuses the requests of more than [max_items] texts
    and those that hold the text [poison]. *)
Definition picky (max_items : nat) (poison : pystr)
    : nat -> request -> exn + pystr :=
  fun _ rq =>
    if Nat.ltb max_items (length (rq_payload rq))
       || bool_decide (poison ∈ (rq_payload rq).*2)
    then inl (APIError (py "refused"))
    else inr (answer (rq_payload rq)).

(** A backend that leaves the text [skipped] out of its answers. *)
Definition omitting (skipped : pystr) : nat -> request -> exn + pystr :=
  fun _ rq => inr (answer (filter (fun kv => kv.2 <> skipped) (rq_payload rq))).

(** A backend whose first [n] calls raise, and which answers the later
    ones for every key. *)
Definition failing_first (n : nat) : nat -> request -> exn + pystr :=
  fun now rq =>
    if Nat.ltb now n then inl (APIError (py "overloaded"))
    else inr (answer (rq_payload rq)).

(** A backend that answers its first call for the first [m] keys only,
    and the later ones for every key. *)
Definition truncating_first (m : nat) : nat -> request -> exn + pystr :=
  fun now rq =>
    match now with
    | O => inr (answer (take m (rq_payload rq)))
    | S _ => inr (answer (rq_payload rq))
    end.

(** An answer that gives, for every text, the JSON escape of one half of
    a surrogate pair (an emoji cut in two): [json.loads] decodes it to a
    lone surrogate. *)
Definition broken_answer (payload : dict pystr) : pystr :=
  [123%N]
    ++ join (py ", ")
         ((fun kv => [34%N] ++ RefJson.escape kv.1 ++ [34%N; 58%N; 32%N; 34%N]
                       ++ py "\ud83d" ++ [34%N]) <$> payload)
    ++ [125%N].

(** A backend that always gives such an answer. *)
Definition broken : nat -> request -> exn + pystr :=
  fun _ rq => inr (broken_answer (rq_payload rq)).

(** A backend that leaves the text [skipped] out of its answers to the
    batches, and gives such an answer to the request for the missing
    keys. *)
Definition broken_in_sweep (skipped : pystr) : nat -> request -> exn + pystr :=
  fun _ rq =>
    if rq_final rq then inr (broken_answer (rq_payload rq))
    else inr (answer (filter (fun kv => kv.2 <> skipped) (rq_payload rq))).

(** [n] fragments [k1: t1, ..., kn: tn]. *)
Definition numbered (n : nat) : dict pystr :=
  (fun i => (py "k" ++ str_of_nat i, py "t" ++ str_of_nat i)) <$> seq 1 n.

(** Three fragments of 400000 characters each: every one fills a batch
    of its own under the ceiling of 150000 tokens. *)
Definition three_long_texts : dict pystr :=
  [(py "a", py_repeat 97 400000); (py "b", py_repeat 98 400000);
   (py "c", py_repeat 99 400000)].

End Stub.

(** ** The recovery file (src/app13.py, [save_recovery_state])

    [with open(recovery_file, 'w') as f: json.dump(recovery_state, f, ...)]
    opens the recovery file itself for writing, which empties it, and then
    writes the new text piece by piece.  There is no temporary file and no
    rename. *)

Module CheckpointFile.

Inductive file_op :=
  | Truncate
  | Write (chunk : pystr).

(** The content of the file after one operation. *)
Definition apply_op (content : pystr) (op : file_op) : pystr :=
  match op with
  | Truncate => []
  | Write chunk => content ++ chunk
  end.

Section Save.

(** The pieces that [json.dump] writes for a state, in order. *)
Variable dump : recovery_state -> list pystr.

(** The text of a checkpoint. *)
Definition text_of (st : recovery_state) : pystr := concat (dump st).

Definition save_ops (st : recovery_state) : list file_op :=
  Truncate :: (Write <$> dump st).

(** The content of the file when the process stops after [steps]
    operations of a save of [st] over [content]. *)
Definition file_after (steps : nat) (st : recovery_state) (content : pystr)
    : pystr :=
  foldl apply_op content (take steps (save_ops st)).

End Save.

End CheckpointFile.

(** ** The order of the batches *)

(** [x] may come before [y] in [items] after the sort of
    [split_dict_into_smart_batches]: the estimate of its text is not the
    smaller one. *)
Definition desc (estimate_tokens : option pystr -> Z) (x y : pystr * pystr)
    : Prop :=
  sort_key estimate_tokens y <= sort_key estimate_tokens x.

(** ** Slides: the keys of [extract_text] and the requests of
    [update_slides] (src/app13.py) *)

Module Slides.

(** [s.split(sep, 1)] for a non-empty separator: the text before the first
    occurrence of [sep] and the text after it, or [s] alone when there is
    none.  [cur] holds the text passed so far, reversed. *)
Fixpoint split_once_from (sep s : pystr) (cur : pystr) : list pystr :=
  match s with
  | [] => [reverse cur]
  | c :: s' =>
      if startswith sep s then [reverse cur; drop (length sep) s]
      else split_once_from sep s' (c :: cur)
  end.

Definition split_once (sep s : pystr) : list pystr := split_once_from sep s [].

(** The Slides API data that [extract_text] reads.  A text element has a
    [textRun] or not, and a run has a [content] or not; a shape and a table
    cell have a [text] or not, whose [textElements] default to the empty
    list. *)
Record text_run := TextRun { content : option pystr }.

Record text_element := TextElement { textRun : option text_run }.

Record shape_info := Shape { shape_text : option (list text_element) }.

Record table_cell := TableCell { cell_text : option (list text_element) }.

Record table_row := TableRow { tableCells : list table_cell }.

Record page_element := PageElement {
  objectId : pystr;
  shape : option shape_info;
  tableRows : list table_row
}.

Record slide := Slide { pageElements : list page_element }.

(** An entry of [slide_metadata]. *)
Record slide_info := SlideInfo {
  slide_number : nat;
  title : pystr;
  slide_content : list pystr
}.

(** Lines 176 and 195: the contents of the runs joined, then stripped. *)
Definition run_text (text_elements : list text_element) : pystr :=
  strip (concat (omap (fun te => match textRun te with
                                 | Some run => Some (default [] (content run))
                                 | None => None
                                 end) text_elements)).

(** Line 202: the key of a table cell. *)
Definition cell_id (object_id : pystr) (row_idx col_idx : nat) : pystr :=
  object_id ++ py "_r" ++ str_of_nat row_idx ++ py "_c" ++ str_of_nat col_idx.

(** [text_dict[key] = text] and [slide_info["content"].append(text)], for
    a text that is not empty. *)
Definition keep_text (key text : pystr) (acc : dict pystr * list pystr)
    : dict pystr * list pystr :=
  match text with
  | [] => acc
  | _ => (dict_set key text acc.1, acc.2 ++ [text])
  end.

(** Lines 189-204: the cells of one row. *)
Definition extract_row (object_id : pystr) (row_idx : nat) (row : table_row)
    (acc : dict pystr * list pystr) : dict pystr * list pystr :=
  foldl (fun acc ic =>
           match cell_text ic.2 with
           | Some text_elements =>
               keep_text (cell_id object_id row_idx ic.1)
                         (run_text text_elements) acc
           | None => acc
           end)
        acc (imap pair (tableCells row)).

(** Lines 168-204: one page element, its shape and then its table. *)
Definition extract_element (acc : dict pystr * list pystr)
    (element : page_element) : dict pystr * list pystr :=
  let acc1 :=
    match shape element with
    | Some (Shape (Some text_elements)) =>
        keep_text (objectId element) (run_text text_elements) acc
    | _ => acc
    end in
  foldl (fun acc ir => extract_row (objectId element) ir.1 ir.2 acc)
        acc1 (imap pair (tableRows element)).

(** [extract_text]: returns [(text_dict, slide_metadata)]. *)
Definition extract_slide (st : dict pystr * list slide_info)
    (islide : nat * slide) : dict pystr * list slide_info :=
  let '(text_dict, slide_content) :=
    foldl extract_element (st.1, []) (pageElements islide.2) in
  (text_dict, st.2 ++ [SlideInfo (islide.1 + 1) [] slide_content]).

Definition extract_text (slides : list slide)
    : dict pystr * list slide_info :=
  foldl extract_slide ([], []) (imap pair slides).

(** A request of [batchUpdate]; a table cell is addressed by its table
    and a [cellLocation]. *)
Record cell_location := CellLocation { rowIndex : Z; columnIndex : Z }.

Inductive slides_request :=
  | DeleteText (object_id : pystr) (cellLocation : option cell_location)
  | InsertText (object_id : pystr) (cellLocation : option cell_location)
               (text : json).

Section UpdateSlides.

(** [int(s)] of Python: the number, or the [ValueError] it raises. *)
Variable py_int : pystr -> exn + Z.

(** Lines 72-102: the two requests for one text. *)
Definition text_requests (object_id : pystr) (new_text : json)
    : exn + list slides_request :=
  if contains (py "_r") object_id && contains (py "_c") object_id then
    match split_once (py "_r") object_id with
    | [base_id; row_col] =>
        match split (py "_c") row_col with
        | [row_idx; col_idx] =>
            match py_int row_idx with
            | inl ex => inl ex
            | inr r =>
                match py_int col_idx with
                | inl ex => inl ex
                | inr c =>
                    inr [DeleteText base_id (Some (CellLocation r c));
                         InsertText base_id (Some (CellLocation r c)) new_text]
                end
            end
        | [] | [_] =>
            inl (ValueError (py "not enough values to unpack (expected 2, got 1)"))
        | _ => inl (ValueError (py "too many values to unpack (expected 2)"))
        end
    | [] | [_] =>
        inl (ValueError (py "not enough values to unpack (expected 2, got 1)"))
    | _ => inl (ValueError (py "too many values to unpack (expected 2)"))
    end
  else inr [DeleteText object_id None; InsertText object_id None new_text].

(** Lines 69-102: the list [requests]; the first exception ends the
    function. *)
Fixpoint update_requests (translated_texts : dict json)
    : exn + list slides_request :=
  match translated_texts with
  | [] => inr []
  | (object_id, new_text) :: rest =>
      match text_requests object_id new_text with
      | inl ex => inl ex
      | inr requests =>
          match update_requests rest with
          | inl ex => inl ex
          | inr more => inr (requests ++ more)
          end
      end
  end.

(** Lines 105-112: the bodies of the [batchUpdate] calls, in order.  An
    exception of a call is printed and the loop goes on. *)
Definition update_batches (translated_texts : dict json)
    : exn + list (list slides_request) :=
  match update_requests translated_texts with
  | inl ex => inl ex
  | inr requests => inr (chunks 100 requests)
  end.

End UpdateSlides.

(** [int] on the strings of ASCII decimal digits, for concrete runs.
    Python's [int] also accepts a sign, blanks around the number,
    underscores between digits and the decimal digits of other scripts. *)
Definition ascii_int (s : pystr) : exn + Z :=
  match s with
  | [] => inl (ValueError (py "invalid literal for int() with base 10"))
  | _ =>
      if forallb is_digit s then inr (Z.of_nat (nat_of_digits s))
      else inl (ValueError (py "invalid literal for int() with base 10"))
  end.

End Slides.

(** ** The block scanner of src/pptx_translator.py, [extract_json_blocks] *)

Module PptxBlocks.

(** Line 621, [re.sub] of a start anchor and [[^{]*]: the text from its
    first opening brace on. *)
Definition drop_before_brace (text : pystr) : pystr :=
  drop_while (fun c => negb (N.eqb c 123)) text.

(** Line 622, [re.sub] of [[^}]*] and an end anchor: the text up to its
    last closing brace. *)
Definition drop_after_brace (text : pystr) : pystr :=
  reverse (drop_while (fun c => negb (N.eqb c 125)) (reverse text)).

(** The state of the loop of lines 626-639; [start = -1] is [None]. *)
Record scan_state := ScanState {
  depth : Z;
  start : option nat;
  blocks : list pystr
}.

Definition block_step (text : pystr) (st : scan_state) (ic : nat * N)
    : scan_state :=
  let '(i, char) := ic in
  if N.eqb char 123 then
    ScanState (depth st + 1)
              (if Z.eqb (depth st) 0 then Some i else start st) (blocks st)
  else if N.eqb char 125 then
    let depth' := depth st - 1 in
    match start st with
    | Some s =>
        if Z.eqb depth' 0
        then ScanState depth' None
                       (blocks st ++ [take (S i - s) (drop s text)])
        else ScanState depth' (Some s) (blocks st)
    | None => ScanState depth' None (blocks st)
    end
  else st.

Definition scan_blocks (text : pystr) : scan_state :=
  foldl (block_step text) (ScanState 0 None []) (imap pair text).

(** Lines 621-639: the blocks found in the trimmed text. *)
Definition balanced_blocks (text : pystr) : list pystr :=
  blocks (scan_blocks (drop_after_brace (drop_before_brace text))).

(** Opening braces minus closing braces. *)
Definition brace_depth (s : pystr) : Z :=
  Z.of_nat (count_char 123 s) - Z.of_nat (count_char 125 s).

End PptxBlocks.


(** Each batch but the last one was closed because the item that opens
    the next batch did not fit in it. *)
Fixpoint closed_when_full (estimate_tokens : option pystr -> Z)
    (max_input_tokens prompt_tokens : Z) (bs : list (dict pystr)) : Prop :=
  match bs with
  | b :: rest =>
      match rest with
      | b' :: _ =>
          exists kv more,
            b' = kv :: more
            /\ max_input_tokens
                 < batch_tokens estimate_tokens prompt_tokens b
                   + item_tokens estimate_tokens kv
      | [] => True
      end
      /\ closed_when_full estimate_tokens max_input_tokens prompt_tokens rest
  | [] => True
  end.


(** Every item of [d] is the translation, by [F], of the text that
    [text_dict] holds under the same key. *)
Definition translations_of (F : pystr -> json) (text_dict : dict pystr)
    (d : dict json) : Prop :=
  forall k t, (k, t) ∈ d -> exists v, dict_get k text_dict = Some v /\ t = F v.

(** [d] holds nothing that [text_dict] does not hold. *)
Definition sub_dict (d text_dict : dict pystr) : Prop :=
  forall k v, dict_get k d = Some v -> dict_get k text_dict = Some v.

(** A backend that answers the requests for [payload], for every key,
    and refuses the others. *)
Definition answering_only (payload : dict pystr) : nat -> request -> exn + pystr :=
  fun _ rq =>
    if decide (rq_payload rq = payload) then inr (Stub.answer payload)
    else inl (APIError (py "refused")).


(** Where an item of the [text_dict] of [extract_text] comes from: the
    text of a shape, under the object id of its element, or the text of a
    table cell, under the key of the cell. *)
Definition shape_source (element : Slides.page_element) (key value : pystr)
    : Prop :=
  exists text_elements,
    Slides.shape element = Some (Slides.Shape (Some text_elements))
    /\ key = Slides.objectId element
    /\ value = Slides.run_text text_elements.

Definition cell_source (element : Slides.page_element) (r c : nat)
    (key value : pystr) : Prop :=
  exists row cell text_elements,
    Slides.tableRows element !! r = Some row
    /\ Slides.tableCells row !! c = Some cell
    /\ Slides.cell_text cell = Some text_elements
    /\ key = Slides.cell_id (Slides.objectId element) r c
    /\ value = Slides.run_text text_elements.

Definition text_source (slides : list Slides.slide) (key value : pystr)
    : Prop :=
  exists s element,
    s ∈ slides /\ element ∈ Slides.pageElements s
    /\ (shape_source element key value
        \/ exists r c, cell_source element r c key value).


(** A text that is one object from its first character to its last: it
    opens with a brace, closes with a brace, its braces are balanced, and
    they are not balanced at any point before its end. *)
Definition top_level_object (b : pystr) : Prop :=
  head b = Some 123%N /\ last b = Some 125%N
  /\ PptxBlocks.brace_depth b = 0
  /\ forall m, (0 < m < length b)%nat -> 0 < PptxBlocks.brace_depth (take m b).

(** The loop of the block scanner after [n] characters: the blocks found
    are top-level objects, and the characters since [start] are the
    beginning of one. *)
Definition scan_inv (text : pystr) (n : nat) (st : PptxBlocks.scan_state)
    : Prop :=
  Forall top_level_object (PptxBlocks.blocks st)
  /\ match PptxBlocks.start st with
     | Some s =>
         (s < n)%nat
         /\ head (take (n - s) (drop s text)) = Some 123%N
         /\ PptxBlocks.depth st
            = PptxBlocks.brace_depth (take (n - s) (drop s text))
         /\ (forall m, (0 < m <= n - s)%nat ->
               0 < PptxBlocks.brace_depth (take m (drop s text)))
     | None => True
     end.


(** src/app13.py, [main], once the arguments are read: the texts of the
    presentation are extracted, translated, and written to a copy of the
    presentation.  [slides] is the presentation that the Slides API
    returns to [extract_text]; [get_title] is the answer to the second
    [presentations().get] (lines 50-51), the title of the presentation or
    the exception of the call; [copy_file] is [files().copy] of the Drive
    API (lines 61-66), from the name of the copy to its id.  The result
    is the id of the copy and the list of the bodies sent to [batchUpdate]
    for it. *)
Definition main `{!recovery_file} (json_loads : pystr -> exn + json)
    (backend : nat -> request -> exn + pystr) (py_int : pystr -> exn + Z)
    (get_title : exn + pystr) (copy_file : pystr -> exn + pystr)
    (target_language : pystr)
    (slides : list Slides.slide) (resume : option recovery_state)
    (now : nat) (files : list recovery_state)
    : exn + (pystr * list (list Slides.slides_request)) :=
  let '(extracted_text, slide_metadata) := Slides.extract_text slides in
  match translate_text json_loads backend extracted_text resume now files with
  | inl ex => inl ex
  | inr (translated_texts, _) =>
      match get_title with
      | inl ex => inl ex
      | inr original_title =>
          match copy_file (original_title ++ py " - " ++ target_language) with
          | inl ex => inl ex
          | inr new_presentation_id =>
              match Slides.update_batches py_int translated_texts with
              | inl ex => inl ex
              | inr bodies => inr (new_presentation_id, bodies)
              end
          end
      end
  end.

(** A request that clears, or fills with the translation of its text, the
    shape or the table cell that a text was extracted from. *)
Definition writes_back (F : pystr -> json) (slides : list Slides.slide)
    (rq : Slides.slides_request) : Prop :=
  exists s element location k v,
    s ∈ slides /\ element ∈ Slides.pageElements s
    /\ (rq = Slides.DeleteText (Slides.objectId element) location
        \/ rq = Slides.InsertText (Slides.objectId element) location (F v))
    /\ match location with
       | None => shape_source element k v
       | Some loc =>
           exists r c,
             loc = Slides.CellLocation (Z.of_nat r) (Z.of_nat c)
             /\ cell_source element r c k v
       end.

(** The last write of the recovery file was a write of the recovery
    state of the job. *)
Definition file_in_sync (j : job) : Prop := head (disk j) = Some (rstate j).

(** * Properties *)

(** ** Dictionaries *)

Section DictFacts.
Context {V : Type}.
Implicit Types (d : dict V) (k : pystr) (v : V).

Lemma dict_get_None k d : dict_get k d = None <-> k ∉ dict_keys d.
Proof.
  unfold dict_keys. induction d as [|[k' v'] d IH]; csimpl.
  - split; [intros _; apply not_elem_of_nil | done].
  - rewrite not_elem_of_cons. destruct (decide (k = k')) as [->|Hne].
    + split; [done|]. by intros [? _].
    + rewrite IH. tauto.
Qed.

Lemma dict_get_is_Some k d : is_Some (dict_get k d) <-> k ∈ dict_keys d.
Proof.
  destruct (dict_get k d) eqn:E.
  - split; [intros _|eauto]. destruct (decide (k ∈ dict_keys d)) as [|n]; [done|].
    apply dict_get_None in n. congruence.
  - split; [intros [? ?]; done|]. intros Hin. apply dict_get_None in E. done.
Qed.

Lemma dict_in_true k d : dict_in k d = true <-> k ∈ dict_keys d.
Proof. unfold dict_in. rewrite bool_decide_eq_true. apply dict_get_is_Some. Qed.

Lemma dict_in_false k d : dict_in k d = false <-> k ∉ dict_keys d.
Proof.
  unfold dict_in. rewrite bool_decide_eq_false, dict_get_is_Some. done.
Qed.

Lemma dict_get_Some_elem k v d : dict_get k d = Some v -> (k, v) ∈ d.
Proof.
  induction d as [|[k' v'] d IH]; csimpl; [done|].
  destruct (decide (k = k')) as [->|]; intros H.
  - injection H as ->. apply list_elem_of_here.
  - apply list_elem_of_further; auto.
Qed.

Lemma dict_get_elem_NoDup k v d :
  NoDup (dict_keys d) -> (k, v) ∈ d -> dict_get k d = Some v.
Proof.
  unfold dict_keys. induction d as [|[k' v'] d IH]; csimpl; intros Hnd Hin.
  - by apply elem_of_nil in Hin.
  - apply NoDup_cons in Hnd as [Hk Hnd].
    apply elem_of_cons in Hin as [Heq|Hin].
    + injection Heq as -> ->. by rewrite decide_True.
    + destruct (decide (k = k')) as [->|]; [|auto].
      exfalso. apply Hk. apply list_elem_of_fmap. by exists (k', v).
Qed.

Lemma dict_get_set k k' v d :
  dict_get k (dict_set k' v d) = if decide (k = k') then Some v else dict_get k d.
Proof.
  induction d as [|[k0 v0] d IH]; csimpl.
  - by destruct (decide (k = k')).
  - destruct (decide (k' = k0)) as [->|]; csimpl.
    + destruct (decide (k = k0)); done.
    + rewrite IH. destruct (decide (k = k0)) as [->|]; [|done].
      by rewrite decide_False.
Qed.

Lemma dict_set_fresh k v d : k ∉ dict_keys d -> dict_set k v d = d ++ [(k, v)].
Proof.
  unfold dict_keys. induction d as [|[k0 v0] d IH]; csimpl; [done|].
  rewrite not_elem_of_cons. intros [Hne Hk].
  rewrite decide_False by done. by rewrite IH.
Qed.

Lemma dict_keys_set k v d :
  dict_keys (dict_set k v d) =
    if decide (k ∈ dict_keys d) then dict_keys d else dict_keys d ++ [k].
Proof.
  unfold dict_keys. induction d as [|[k0 v0] d IH]; csimpl; [done|].
  destruct (decide (k = k0)) as [->|Hne]; csimpl.
  - destruct (decide (k0 ∈ k0 :: _)) as [|H]; [done|].
    exfalso. apply H, list_elem_of_here.
  - rewrite IH. destruct (decide (k ∈ d.*1)) as [Hin|Hin];
      destruct (decide (k ∈ k0 :: _)) as [Hin'|Hin']; try done.
    + exfalso. by apply Hin', list_elem_of_further.
    + apply elem_of_cons in Hin' as [?|?]; done.
Qed.

Lemma dict_keys_set_elem k k' v d :
  k ∈ dict_keys (dict_set k' v d) <-> k = k' \/ k ∈ dict_keys d.
Proof.
  rewrite dict_keys_set. destruct (decide (k' ∈ dict_keys d)) as [Hin|Hin].
  - split; [tauto|]. by intros [->|?].
  - rewrite elem_of_app, list_elem_of_singleton. tauto.
Qed.

Lemma dict_set_NoDup k v d : NoDup (dict_keys d) -> NoDup (dict_keys (dict_set k v d)).
Proof.
  intros Hnd. rewrite dict_keys_set. destruct (decide (k ∈ dict_keys d)); [done|].
  apply NoDup_app. split_and!; [done| |apply NoDup_singleton].
  intros x Hx Hx'. apply list_elem_of_singleton in Hx' as ->. done.
Qed.

Lemma dict_set_nonempty k v d : dict_set k v d <> [].
Proof. destruct d as [|[k0 v0] d]; csimpl; [done|]. by destruct (decide (k = k0)). Qed.

Lemma dict_keys_update_elem k d other :
  k ∈ dict_keys (dict_update d other) <-> k ∈ dict_keys d \/ k ∈ dict_keys other.
Proof.
  unfold dict_update. revert d.
  induction other as [|[k0 v0] o IH]; intros d; csimpl.
  - rewrite elem_of_nil. tauto.
  - rewrite IH, dict_keys_set_elem.
    change (dict_keys ((k0, v0) :: o)) with (k0 :: dict_keys o).
    rewrite elem_of_cons. tauto.
Qed.

Lemma dict_update_NoDup d other :
  NoDup (dict_keys d) -> NoDup (dict_keys (dict_update d other)).
Proof.
  unfold dict_update. revert d.
  induction other as [|[k0 v0] o IH]; intros d Hnd; csimpl; [done|].
  apply IH. by apply dict_set_NoDup.
Qed.

Lemma dict_keys_update_subseteq d other :
  dict_keys d ⊆ dict_keys (dict_update d other).
Proof. intros k Hk. apply dict_keys_update_elem. by left. Qed.

Lemma dict_update_fresh d other :
  NoDup (dict_keys (d ++ other)) -> dict_update d other = d ++ other.
Proof.
  unfold dict_update, dict_keys. revert d.
  induction other as [|[k0 v0] o IH]; intros d Hnd; csimpl.
  - by rewrite app_nil_r.
  - rewrite dict_set_fresh.
    + rewrite IH; rewrite <- app_assoc; done.
    + rewrite fmap_app in Hnd. apply NoDup_app in Hnd as (_ & Hd & _).
      intros Hin. apply (Hd _ Hin). csimpl. apply list_elem_of_here.
Qed.

Lemma dict_of_items_NoDup (l : list (pystr * V)) :
  NoDup l.*1 -> dict_of_items l = l.
Proof. intros. unfold dict_of_items. by rewrite dict_update_fresh. Qed.

End DictFacts.

(** ** Token estimator *)

Lemma len_nonneg {A} (l : list A) : 0 <= len l.
Proof. unfold len. lia. Qed.

Lemma len_app {A} (l1 l2 : list A) : len (l1 ++ l2) = len l1 + len l2.
Proof. unfold len. rewrite length_app. lia. Qed.

Lemma cjk_chars_bounds (s : pystr) : 0 <= Pptx.cjk_chars s <= len s.
Proof.
  unfold Pptx.cjk_chars, len. split; [lia|].
  apply inj_le, length_filter.
Qed.

(** ** Partitioner *)

Section PartitionerFacts.

Variable est : option pystr -> Z.
Variables M P : Z.

Lemma insert_desc_perm x l : insert_desc est x l ≡ₚ x :: l.
Proof.
  induction l as [|y l IH]; csimpl; [done|].
  destruct (Z.leb _ _); [done|]. rewrite IH. apply Permutation_swap.
Qed.

Lemma sort_desc_perm l : sort_desc est l ≡ₚ l.
Proof.
  unfold sort_desc. induction l as [|x l IH]; csimpl; [done|].
  by rewrite insert_desc_perm, IH.
Qed.

Local Abbreviation within_budget := (within_budget est M P).
Local Abbreviation part_inv := (part_inv est M P).

Lemma batch_tokens_snoc b kv :
  batch_tokens est P (b ++ [kv]) = batch_tokens est P b + item_tokens est kv.
Proof.
  unfold batch_tokens. rewrite foldr_app. csimpl.
  induction b as [|x b IH]; csimpl; lia.
Qed.

Lemma part_step_spec st kv :
  part_inv st -> kv.1 ∉ dict_keys (current_batch st) ->
  let st' := part_step est M P st kv in
  part_inv st' /\ flat st' = flat st ++ [kv]
  /\ (exists b, current_batch st' = b ++ [kv] /\
        (b = [] \/ b = current_batch st)).
Proof.
  destruct kv as [k v]. intros (Hb & Hc & Hw) Hk. unfold part_step. csimpl.
  destruct (Z.ltb_spec M (current_token_count st + item_tokens est (k, v))) as [Hlt|Hle];
    destruct (decide (current_batch st = [])) as [He|Hne]; csimpl.
  - rewrite bool_decide_eq_true_2 by done. csimpl. rewrite He in *.
    unfold flat. csimpl. rewrite He. split_and!.
    + unfold part_inv. csimpl. split_and!; [done|unfold batch_tokens in *; csimpl in *; lia|].
      right. right. exists (k, v). split; [done|]. unfold batch_tokens in Hc. csimpl in Hc. lia.
    + by rewrite app_nil_r.
    + exists []. eauto.
  - rewrite bool_decide_eq_false_2 by done. csimpl.
    unfold flat. csimpl. split_and!.
    + unfold part_inv. csimpl. split_and!.
      * apply Forall_app. split; [done|]. apply Forall_singleton.
        split; [done|]. by destruct Hw.
      * unfold batch_tokens. csimpl. lia.
      * right. destruct (Z.le_gt_cases (P + item_tokens est (k, v)) M).
        -- left. unfold batch_tokens. csimpl. lia.
        -- right. exists (k, v). split; [done|lia].
    + rewrite concat_app. csimpl. by rewrite !app_nil_r, <- app_assoc.
    + exists []. eauto.
  - rewrite He in *.
    unfold flat. csimpl. rewrite He. split_and!.
    + unfold part_inv. csimpl. split_and!; [done|unfold batch_tokens in *; csimpl in *; lia|].
      right. left. unfold batch_tokens in *. csimpl in *. lia.
    + by rewrite app_nil_r.
    + exists []. eauto.
  - rewrite dict_set_fresh by done.
    unfold flat. csimpl. split_and!.
    + unfold part_inv. csimpl. rewrite batch_tokens_snoc. split_and!; [done|lia|].
      right. left. rewrite batch_tokens_snoc. lia.
    + by rewrite app_assoc.
    + eauto.
Qed.

Lemma part_loop_spec items st :
  part_inv st -> NoDup (dict_keys (current_batch st ++ items)) ->
  let st' := foldl (part_step est M P) st items in
  part_inv st' /\ flat st' = flat st ++ items.
Proof.
  revert st. induction items as [|kv items IH]; intros st Hinv Hnd; csimpl.
  - by rewrite app_nil_r.
  - unfold dict_keys in Hnd. rewrite fmap_app in Hnd. csimpl in Hnd.
    apply NoDup_app in Hnd as (Hc & Hci & Hi).
    apply NoDup_cons in Hi as [Hkv Hi].
    destruct (part_step_spec st kv Hinv) as (Hinv' & Hflat & b & Hcur & Hb).
    { intros Hin. apply (Hci _ Hin), list_elem_of_here. }
    destruct (IH (part_step est M P st kv) Hinv') as [Hinv'' Hflat''].
    { rewrite Hcur. unfold dict_keys. rewrite !fmap_app. csimpl.
      rewrite <- app_assoc. csimpl.
      apply NoDup_app. split_and!.
      - destruct Hb as [->| ->]; [apply NoDup_nil_2|done].
      - intros x Hx. destruct Hb as [->| ->]; [by apply elem_of_nil in Hx|].
        by apply Hci.
      - by apply NoDup_cons. }
    split; [done|]. rewrite Hflat'', Hflat, <- app_assoc. done.
Qed.

(** The batches are the sorted items cut into consecutive pieces, none of
    them empty, each within the budget. *)
Lemma smart_batches_spec (input_dict : dict pystr) :
  NoDup (dict_keys input_dict) ->
  let bs := smart_batches est input_dict M P in
  concat bs = sort_desc est input_dict
  /\ Forall (fun b => b <> [] /\ within_budget b) bs.
Proof.
  intros Hnd. unfold smart_batches.
  destruct (part_loop_spec (sort_desc est input_dict) (PartState [] [] P))
    as [(Hb & Hc & Hw) Hflat].
  { unfold part_inv. csimpl. split_and!; [done|unfold batch_tokens; csimpl; lia|by left]. }
  { csimpl. unfold dict_keys. by rewrite sort_desc_perm. }
  unfold flat in Hflat. csimpl in Hflat.
  set (st := foldl _ _ _) in *.
  destruct (decide (current_batch st = [])) as [He|Hne].
  - rewrite bool_decide_eq_true_2 by done. rewrite He, app_nil_r in Hflat. done.
  - rewrite bool_decide_eq_false_2 by done. split.
    + rewrite concat_app. csimpl. by rewrite app_nil_r.
    + apply Forall_app. split; [done|]. apply Forall_singleton.
      split; [done|]. by destruct Hw.
Qed.

End PartitionerFacts.

(** C8, as the code has it: the estimate is 0 for [None] and at least 1
    for every string, the empty one included.  With [narrow] and [wide] the
    numbers of characters outside and inside the CJK range, it is
    [narrow // 4 + floor(wide / 1.5) + 1], which lies within 1 of
    [narrow / 4 + wide / 1.5]; in src/app13.py every character is narrow. *)
Theorem estimate_tokens_spec (s : pystr) :
  let narrow := Pptx.ascii_chars s in
  let wide := Pptx.cjk_chars s in
  Pptx.estimate_tokens None = 0
  /\ App13.estimate_tokens None = 0
  /\ 0 <= narrow /\ 0 <= wide /\ narrow + wide = len s
  /\ Pptx.estimate_tokens (Some s) = narrow / 4 + (2 * wide) / 3 + 1
  /\ App13.estimate_tokens (Some s) = len s / 4 + 1
  /\ 1 <= Pptx.estimate_tokens (Some s)
  /\ 1 <= App13.estimate_tokens (Some s)
  /\ 12 * (Pptx.estimate_tokens (Some s) - 1) <= 3 * narrow + 8 * wide
       < 12 * (Pptx.estimate_tokens (Some s) + 1)
  /\ 4 * (App13.estimate_tokens (Some s) - 1) <= len s
       < 4 * App13.estimate_tokens (Some s).
Proof.
  intros narrow wide. subst narrow wide.
  pose proof (cjk_chars_bounds s) as Hw. pose proof (len_nonneg s) as Hl.
  unfold Pptx.estimate_tokens, App13.estimate_tokens, Pptx.ascii_chars.
  set (w := Pptx.cjk_chars s) in *. set (l := len s) in *.
  pose proof (Z.div_mod (l - w) 4 ltac:(lia)).
  pose proof (Z.mod_pos_bound (l - w) 4 ltac:(lia)).
  pose proof (Z.div_mod (2 * w) 3 ltac:(lia)).
  pose proof (Z.mod_pos_bound (2 * w) 3 ltac:(lia)).
  pose proof (Z.div_mod l 4 ltac:(lia)).
  pose proof (Z.mod_pos_bound l 4 ltac:(lia)).
  repeat split; try lia.
Qed.

(** C8 as stated fails for the empty string: both estimators return 1. *)
Lemma estimate_tokens_empty_counterexample :
  ~ (forall text : option pystr,
       text = None \/ text = Some [] ->
       App13.estimate_tokens text = 0 /\ Pptx.estimate_tokens text = 0).
Proof.
  intros H. destruct (H (Some [])) as [H1 _]; [by right|]. discriminate H1.
Qed.

Section PartitionTheorems.

Variable est : option pystr -> Z.

Lemma smart_batches_empty M P : smart_batches est [] M P = [].
Proof. reflexivity. Qed.

Lemma split_nonempty input_dict M P :
  input_dict <> [] ->
  split_dict_into_smart_batches est input_dict M P
    = inr (smart_batches est input_dict M P).
Proof.
  intros Hne. unfold split_dict_into_smart_batches.
  rewrite bool_decide_eq_false_2; [done|].
  destruct input_dict; [done|]. unfold len. csimpl. lia.
Qed.

(** The one-partition invariant on a non-empty dictionary: the function
    returns, every key is in one batch and in no other. *)
Lemma partition_exact input_dict M P :
  NoDup (dict_keys input_dict) -> input_dict <> [] ->
  exists batches,
    split_dict_into_smart_batches est input_dict M P = inr batches
    /\ concat (dict_keys <$> batches) ≡ₚ dict_keys input_dict
    /\ NoDup (concat (dict_keys <$> batches))
    /\ Forall (fun b => b <> []) batches.
Proof.
  intros Hnd Hne. exists (smart_batches est input_dict M P).
  destruct (smart_batches_spec est M P input_dict Hnd) as [Hc Hf].
  assert (concat (dict_keys <$> smart_batches est input_dict M P)
          = dict_keys (sort_desc est input_dict)) as Hk.
  { rewrite <- Hc. unfold dict_keys.
    generalize (smart_batches est input_dict M P). intros bs.
    induction bs as [|b bs IH]; csimpl; [done|]. by rewrite fmap_app, IH. }
  split_and!.
  - by apply split_nonempty.
  - rewrite Hk. unfold dict_keys. by rewrite sort_desc_perm.
  - rewrite Hk. unfold dict_keys. by rewrite sort_desc_perm.
  - eapply Forall_impl; [exact Hf|]. by intros b [? _].
Qed.

End PartitionTheorems.

(** C3, the empty dictionary: the batches built are none, and the last
    reporting line divides by [len(input_dict)], so the call raises
    [ZeroDivisionError] instead of returning them. *)
Theorem split_empty_raises (est : option pystr -> Z) (M P : Z) :
  smart_batches est [] M P = []
  /\ split_dict_into_smart_batches est [] M P = inl ZeroDivisionError.
Proof. split; reflexivity. Qed.

Lemma text_tokens_le_batch_tokens P b :
  text_tokens App13.estimate_tokens P b <= batch_tokens App13.estimate_tokens P b.
Proof.
  unfold text_tokens, batch_tokens, item_tokens, App13.estimate_tokens.
  induction b as [|[k v] b IH]; csimpl; [lia|].
  pose proof (len_nonneg k) as Hk.
  pose proof (Z.div_pos (len k) 4 Hk ltac:(lia)). lia.
Qed.

(** C4, as the code has it: on a non-empty dictionary the partitioner
    returns, and each batch either keeps its request (prompt overhead plus
    the cost of the keys, the texts and the formatting) under the ceiling,
    or holds one item whose cost plus the prompt overhead exceeds it. *)
Theorem batch_budget (input_dict : dict pystr) (M P : Z) :
  NoDup (dict_keys input_dict) -> input_dict <> [] ->
  exists batches,
    split_dict_into_smart_batches App13.estimate_tokens input_dict M P = inr batches
    /\ forall b, b ∈ batches ->
         b <> []
         /\ (text_tokens App13.estimate_tokens P b
               <= batch_tokens App13.estimate_tokens P b <= M
             \/ exists kv, b = [kv]
                  /\ M < P + item_tokens App13.estimate_tokens kv).
Proof.
  intros Hnd Hne. exists (smart_batches App13.estimate_tokens input_dict M P).
  split; [by apply split_nonempty|].
  destruct (smart_batches_spec App13.estimate_tokens M P input_dict Hnd) as [_ Hf].
  intros b Hb. rewrite Forall_forall in Hf. destruct (Hf b Hb) as [Hn [Hw|Hw]].
  - split; [done|]. left. split; [apply text_tokens_le_batch_tokens|done].
  - split; [done|]. by right.
Qed.

Lemma batch_budget_witness :
  exists batches,
    split_dict_into_smart_batches App13.estimate_tokens
      [(py "a", py "hello"); (py "b", py "hi")] 150000 2000 = inr batches
    /\ forall b, b ∈ batches ->
         b <> []
         /\ (text_tokens App13.estimate_tokens 2000 b
               <= batch_tokens App13.estimate_tokens 2000 b <= 150000
             \/ exists kv, b = [kv]
                  /\ 150000 < 2000 + item_tokens App13.estimate_tokens kv).
Proof.
  apply (batch_budget [(py "a", py "hello"); (py "b", py "hi")] 150000 2000).
  - apply (bool_decide_unpack _). vm_compute. exact I.
  - discriminate.
Defined.

Lemma smart_batches_singleton est k v M P :
  smart_batches est [(k, v)] M P = [[(k, v)]].
Proof.
  unfold smart_batches, sort_desc. csimpl. unfold part_step. csimpl.
  rewrite andb_false_r. reflexivity.
Qed.

(** C4 as stated fails with the ceiling and the overhead that
    [translate_text] passes: one text of 592000 characters costs 148012
    tokens with its key, which is under 150000, and still its batch is over
    the ceiling once the overhead of 2000 is added. *)
Lemma batch_budget_counterexample :
  ~ (forall (input_dict : dict pystr) (M P : Z) batches,
       split_dict_into_smart_batches App13.estimate_tokens input_dict M P
         = inr batches ->
       forall b, b ∈ batches ->
         text_tokens App13.estimate_tokens P b <= M
         \/ exists kv, b = [kv] /\ M < item_tokens App13.estimate_tokens kv).
Proof.
  intros H.
  assert (forall k v, 150000 < text_tokens App13.estimate_tokens 2000 [(k, v)] ->
            item_tokens App13.estimate_tokens (k, v) <= 150000 -> False) as Hgen.
  { intros k v Ht Hi.
    destruct (H [(k, v)] 150000 2000 [[(k, v)]]) with (b := [(k, v)])
      as [Hb|(kv & Hkv & Hb)].
    - rewrite split_nonempty by done. f_equal. apply smart_batches_singleton.
    - apply list_elem_of_here.
    - lia.
    - injection Hkv as <-. lia. }
  apply (Hgen (py "a") (py_repeat 97 592000)).
  - apply Z.ltb_lt. vm_compute. reflexivity.
  - apply Z.leb_le. vm_compute. reflexivity.
Qed.

(** ** Deduplicator *)

Section DedupeFacts.

Implicit Types (d : dict pystr) (k c : pystr).

Lemma keys_with_snoc c d kv :
  keys_with c (d ++ [kv]) =
    keys_with c d ++ (if decide (kv.2 = c) then [kv.1] else []).
Proof.
  unfold keys_with. rewrite filter_app, fmap_app. f_equal.
  rewrite filter_cons, filter_nil. by destruct (decide (kv.2 = c)).
Qed.

Lemma keys_with_elem k c d : k ∈ keys_with c d <-> (k, c) ∈ d.
Proof.
  unfold keys_with. rewrite list_elem_of_fmap. split.
  - intros ([k' c'] & -> & Hin). apply list_elem_of_filter in Hin as [Hc Hin].
    csimpl in *. by subst.
  - intros Hin. exists (k, c). split; [done|]. by apply list_elem_of_filter.
Qed.

(** The first loop groups the keys by text, in order. *)
Lemma content_to_keys_spec d :
  NoDup (dict_keys (content_to_keys d))
  /\ forall c, dict_get c (content_to_keys d) =
       match keys_with c d with [] => None | ks => Some ks end.
Proof.
  unfold content_to_keys. induction d as [|kv d IH] using rev_ind.
  - split; [apply NoDup_nil_2|done].
  - destruct IH as [Hnd Hget]. rewrite foldl_snoc.
    set (c2k := foldl content_to_keys_step [] d) in *.
    unfold content_to_keys_step. split.
    + destruct (dict_get kv.2 c2k); by apply dict_set_NoDup.
    + intros c. rewrite keys_with_snoc.
      pose proof (Hget kv.2) as Hkv. pose proof (Hget c) as Hc.
      destruct (dict_get kv.2 c2k) as [ks|] eqn:E; rewrite dict_get_set;
        destruct (decide (c = kv.2)) as [->|Hne].
      * rewrite decide_True by done.
        destruct (keys_with kv.2 d) eqn:E'; [done|]. by injection Hkv as ->.
      * rewrite decide_False by done. by rewrite app_nil_r.
      * rewrite decide_True by done.
        destruct (keys_with kv.2 d) eqn:E'; done.
      * rewrite decide_False by done. by rewrite app_nil_r.
Qed.

Lemma content_to_keys_elem d c ks :
  (c, ks) ∈ content_to_keys d -> ks = keys_with c d /\ ks <> [].
Proof.
  intros Hin. destruct (content_to_keys_spec d) as [Hnd Hget].
  apply dict_get_elem_NoDup in Hin; [|done]. rewrite Hget in Hin.
  destruct (keys_with c d); [done|]. by injection Hin as <-.
Qed.

Lemma content_to_keys_group d k c :
  (k, c) ∈ d -> (c, keys_with c d) ∈ content_to_keys d.
Proof.
  intros Hin. destruct (content_to_keys_spec d) as [Hnd Hget].
  apply dict_get_Some_elem. rewrite Hget.
  apply keys_with_elem in Hin. destruct (keys_with c d); [|done].
  by apply elem_of_nil in Hin.
Qed.

(** The inner loop of the second pass. *)
Lemma inner_loop_get (r : pystr) ks (dm : dict pystr) k :
  dict_get k (foldl (fun dm key => dict_set key r dm) dm ks) =
    if decide (k ∈ ks) then Some r else dict_get k dm.
Proof.
  revert dm. induction ks as [|k0 ks IH]; intros dm; csimpl.
  - destruct (decide (k ∈ [])) as [H|]; [by apply elem_of_nil in H|done].
  - rewrite IH, dict_get_set.
    destruct (decide (k ∈ ks)) as [Hin|Hin];
      destruct (decide (k ∈ k0 :: ks)) as [Hin'|Hin']; try done.
    + exfalso. apply Hin'. by apply list_elem_of_further.
    + apply elem_of_cons in Hin' as [->|?]; [|done]. by rewrite decide_True.
    + rewrite decide_False; [done|]. intros ->. apply Hin', list_elem_of_here.
Qed.

Lemma inner_loop_NoDup (r : pystr) ks (dm : dict pystr) :
  NoDup (dict_keys dm) ->
  NoDup (dict_keys (foldl (fun dm key => dict_set key r dm) dm ks)).
Proof.
  revert dm. induction ks as [|k0 ks IH]; intros dm Hnd; csimpl; [done|].
  by apply IH, dict_set_NoDup.
Qed.

(** The second loop: where the entries of the two results come from. *)
Lemma dedupe_loop_spec (groups : dict (list pystr)) (acc : dict pystr * dict pystr) :
  let res := foldl dedupe_step acc groups in
  (forall k r, dict_get k res.2 = Some r ->
     dict_get k acc.2 = Some r
     \/ exists g, g ∈ groups /\ k ∈ g.2 /\ head g.2 = Some r)
  /\ (forall k, (exists g, g ∈ groups /\ k ∈ g.2) \/ k ∈ dict_keys acc.2 ->
        k ∈ dict_keys res.2)
  /\ (forall r c, dict_get r res.1 = Some c ->
        dict_get r acc.1 = Some c
        \/ exists g, g ∈ groups /\ head g.2 = Some r /\ g.1 = c)
  /\ (forall r, (exists g, g ∈ groups /\ head g.2 = Some r) \/ r ∈ dict_keys acc.1 ->
        r ∈ dict_keys res.1)
  /\ (NoDup (dict_keys acc.1) -> NoDup (dict_keys res.1))
  /\ (NoDup (dict_keys acc.2) -> NoDup (dict_keys res.2)).
Proof.
  revert acc. induction groups as [|[c ks] groups IH]; intros acc; csimpl.
  - split_and!; try done; try (intros ? ?; by left); try (intros ? ? ?; by left).
    + intros k [(g & Hg & _)|Hk]; [by apply elem_of_nil in Hg|done].
    + intros r [(g & Hg & _)|Hr]; [by apply elem_of_nil in Hg|done].
  - destruct ks as [|r0 ks].
    + specialize (IH acc). destruct IH as (H1 & H2 & H3 & H4 & H5 & H6).
      change (foldl dedupe_step (dedupe_step acc (c, [])) groups)
        with (foldl dedupe_step acc groups).
      split_and!; try done.
      * intros k r Hk. destruct (H1 k r Hk) as [?|(g & Hg & ?)]; [by left|].
        right. exists g. split; [by apply list_elem_of_further|done].
      * intros k [(g & Hg & Hk)|Hk]; apply H2; [|by right].
        apply elem_of_cons in Hg as [->|Hg]; [by apply elem_of_nil in Hk|].
        left. eauto.
      * intros r c' Hr. destruct (H3 r c' Hr) as [?|(g & Hg & ?)]; [by left|].
        right. exists g. split; [by apply list_elem_of_further|done].
      * intros r [(g & Hg & Hr)|Hr]; apply H4; [|by right].
        apply elem_of_cons in Hg as [->|Hg]; [done|]. left. eauto.
    + set (dm' := foldl (fun dm key => dict_set key r0 dm) acc.2 (r0 :: ks)).
      specialize (IH (dict_set r0 c acc.1, dm')).
      destruct IH as (H1 & H2 & H3 & H4 & H5 & H6).
      change (foldl dedupe_step (dedupe_step acc (c, r0 :: ks)) groups)
        with (foldl dedupe_step (dict_set r0 c acc.1, dm') groups).
      cbn [fst snd] in *.
      split_and!.
      * intros k r Hk. destruct (H1 k r Hk) as [Hacc|(g & Hg & ?)].
        -- unfold dm' in Hacc. rewrite inner_loop_get in Hacc.
           destruct (decide (k ∈ r0 :: ks)); [|by left].
           right. exists (c, r0 :: ks). split_and!; [apply list_elem_of_here|done|].
           csimpl. congruence.
        -- right. exists g. split; [by apply list_elem_of_further|done].
      * intros k Hk. apply H2.
        assert (k ∈ r0 :: ks \/ (exists g, g ∈ groups /\ k ∈ g.2) \/ k ∈ dict_keys acc.2)
          as [Hin|[?|Hin]].
        { destruct Hk as [(g & Hg & Hk)|?]; [|auto].
          apply elem_of_cons in Hg as [->|Hg]; [by left|]. right. left. eauto. }
        -- right. apply dict_get_is_Some. unfold dm'.
           rewrite inner_loop_get, decide_True by done. eauto.
        -- by left.
        -- right. apply dict_get_is_Some. unfold dm'.
           rewrite inner_loop_get. destruct (decide (k ∈ r0 :: ks)); [eauto|].
           by apply dict_get_is_Some.
      * intros r c' Hr. destruct (H3 r c' Hr) as [Hacc|(g & Hg & ?)].
        -- rewrite dict_get_set in Hacc. destruct (decide (r = r0)) as [->|]; [|by left].
           right. exists (c, r0 :: ks). split_and!; [apply list_elem_of_here|done|].
           csimpl. congruence.
        -- right. exists g. split; [by apply list_elem_of_further|done].
      * intros r Hr. apply H4.
        destruct Hr as [(g & Hg & Hr)|Hr].
        -- apply elem_of_cons in Hg as [->|Hg]; [|left; eauto].
           right. csimpl in Hr. injection Hr as ->. apply dict_keys_set_elem. by left.
        -- right. apply dict_keys_set_elem. by right.
      * intros Hnd. by apply H5, dict_set_NoDup.
      * intros Hnd. apply H6. by apply inner_loop_NoDup.
Qed.

Lemma first_key_with_elem c d r :
  first_key_with c d = Some r -> (r, c) ∈ d.
Proof.
  unfold first_key_with. intros H. apply keys_with_elem.
  by apply head_Some_elem_of.
Qed.

End DedupeFacts.

(** C7: [deduplicate_content] returns [(unique_content, duplicates_map)]
    where every key is mapped to the first key of the dictionary that
    carries the same text (its representative), a representative is mapped
    to itself and carries the same text as each key mapped to it, the keys
    of [duplicates_map] are those of the input, and [unique_content] holds
    exactly the representatives, each with its text. *)
Theorem deduplicate_content_spec (input_dict : dict pystr) :
  NoDup (dict_keys input_dict) ->
  let unique := (deduplicate_content input_dict).1 in
  let dup := (deduplicate_content input_dict).2 in
  (forall k v, (k, v) ∈ input_dict ->
     exists r,
       first_key_with v input_dict = Some r
       /\ dict_get k dup = Some r
       /\ dict_get r dup = Some r
       /\ dict_get r input_dict = Some v
       /\ dict_get r unique = Some v)
  /\ (forall k, k ∈ dict_keys dup <-> k ∈ dict_keys input_dict)
  /\ (forall r, r ∈ dict_keys unique <->
                exists k, k ∈ dict_keys input_dict /\ dict_get k dup = Some r)
  /\ NoDup (dict_keys unique) /\ NoDup (dict_keys dup).
Proof.
  intros Hnd unique dup.
  destruct (dedupe_loop_spec (content_to_keys input_dict) ([], []))
    as (H1 & H2 & H3 & H4 & H5 & H6).
  fold (deduplicate_content input_dict) in H1, H2, H3, H4, H5, H6.
  fold unique in H3, H4, H5. fold dup in H1, H2, H6. cbn [fst snd] in *.
  (* a group in which a key occurs is the group of the text of the key *)
  assert (forall g k v, g ∈ content_to_keys input_dict -> k ∈ g.2 ->
            (k, v) ∈ input_dict -> g = (v, keys_with v input_dict)) as Hgroup.
  { intros [c ks] k v Hg Hk Hkv. csimpl in Hk.
    apply content_to_keys_elem in Hg as [-> _].
    apply keys_with_elem in Hk.
    apply (dict_get_elem_NoDup _ _ _ Hnd) in Hk, Hkv.
    rewrite Hk in Hkv. by injection Hkv as ->. }
  assert (forall k v, (k, v) ∈ input_dict ->
            exists r, first_key_with v input_dict = Some r
                      /\ dict_get k dup = Some r) as Hmap.
  { intros k v Hkv.
    assert (k ∈ dict_keys dup) as Hk.
    { apply H2. left. exists (v, keys_with v input_dict). split.
      - by eapply content_to_keys_group.
      - by apply keys_with_elem. }
    apply dict_get_is_Some in Hk as [r Hr]. exists r. split; [|done].
    destruct (H1 k r Hr) as [?|(g & Hg & Hkg & Hhd)]; [done|].
    by rewrite (Hgroup g k v Hg Hkg Hkv) in Hhd. }
  split_and!.
  - intros k v Hkv. destruct (Hmap k v Hkv) as (r & Hfirst & Hr).
    pose proof (first_key_with_elem _ _ _ Hfirst) as Hrv.
    exists r. split_and!; try done.
    + destruct (Hmap r v Hrv) as (r' & Hfirst' & Hr'). congruence.
    + by apply dict_get_elem_NoDup.
    + assert (r ∈ dict_keys unique) as Hin.
      { apply H4. left. exists (v, keys_with v input_dict). split; [|done].
        by eapply content_to_keys_group. }
      apply dict_get_is_Some in Hin as [c Hc]. rewrite Hc. f_equal.
      destruct (H3 r c Hc) as [?|(g & Hg & Hhd & <-)]; [done|].
      assert (r ∈ g.2) as Hrg by (by apply head_Some_elem_of).
      by rewrite (Hgroup g r v Hg Hrg Hrv).
  - intros k. split.
    + intros Hk. apply dict_get_is_Some in Hk as [r Hr].
      destruct (H1 k r Hr) as [?|([c ks] & Hg & Hkg & _)]; [done|]. csimpl in Hkg.
      apply content_to_keys_elem in Hg as [-> _]. apply keys_with_elem in Hkg.
      apply list_elem_of_fmap. by exists (k, c).
    + intros Hk. apply list_elem_of_fmap in Hk as ([k' v] & -> & Hkv).
      destruct (Hmap k' v Hkv) as (r & _ & Hr). apply dict_get_is_Some. eauto.
  - intros r. split.
    + intros Hr. apply dict_get_is_Some in Hr as [c Hc].
      destruct (H3 r c Hc) as [?|([c' ks] & Hg & Hhd & Hc')]; [done|].
      csimpl in *. subst c'.
      apply content_to_keys_elem in Hg as [-> _].
      pose proof (first_key_with_elem _ _ _ Hhd) as Hrc.
      exists r. split; [apply list_elem_of_fmap; by exists (r, c)|].
      destruct (Hmap r c Hrc) as (r' & Hfirst & Hr').
      unfold first_key_with in Hfirst. congruence.
    + intros (k & Hk & Hr).
      destruct (H1 k r Hr) as [?|(g & Hg & _ & Hhd)]; [done|].
      apply H4. left. eauto.
  - by apply H5, NoDup_nil_2.
  - by apply H6, NoDup_nil_2.
Qed.

Lemma deduplicate_content_witness :
  let input_dict := [(py "s1", py "Hello"); (py "s2", py "World"); (py "s3", py "Hello")] in
  let unique := (deduplicate_content input_dict).1 in
  let dup := (deduplicate_content input_dict).2 in
  (forall k v, (k, v) ∈ input_dict ->
     exists r,
       first_key_with v input_dict = Some r
       /\ dict_get k dup = Some r
       /\ dict_get r dup = Some r
       /\ dict_get r input_dict = Some v
       /\ dict_get r unique = Some v)
  /\ (forall k, k ∈ dict_keys dup <-> k ∈ dict_keys input_dict)
  /\ (forall r, r ∈ dict_keys unique <->
                exists k, k ∈ dict_keys input_dict /\ dict_get k dup = Some r)
  /\ NoDup (dict_keys unique) /\ NoDup (dict_keys dup).
Proof.
  apply (deduplicate_content_spec
           [(py "s1", py "Hello"); (py "s2", py "World"); (py "s3", py "Hello")]).
  apply (bool_decide_unpack _). vm_compute. exact I.
Defined.

Example deduplicate_content_example :
  deduplicate_content
    [(py "s1", py "Hello"); (py "s2", py "World"); (py "s3", py "Hello")]
  = ([(py "s1", py "Hello"); (py "s2", py "World")],
     [(py "s1", py "s1"); (py "s3", py "s1"); (py "s2", py "s2")]).
Proof. vm_compute. reflexivity. Qed.

(** The partition of the deduplicated fragments of a non-empty set: the
    partitioner returns, and the keys of the batches are the
    representatives, each of them once. *)
Lemma partition_of_unique (est : option pystr -> Z) (input_dict : dict pystr)
    (M P : Z) :
  NoDup (dict_keys input_dict) -> input_dict <> [] ->
  let unique := (deduplicate_content input_dict).1 in
  exists batches,
    split_dict_into_smart_batches est unique M P = inr batches
    /\ concat (dict_keys <$> batches) ≡ₚ dict_keys unique
    /\ NoDup (concat (dict_keys <$> batches))
    /\ Forall (fun b => b <> []) batches.
Proof.
  intros Hnd Hne unique.
  destruct (dedupe_loop_spec (content_to_keys input_dict) ([], []))
    as (_ & _ & _ & H4 & H5 & _).
  fold (deduplicate_content input_dict) in H4, H5. fold unique in H4, H5.
  apply partition_exact.
  - by apply H5, NoDup_nil_2.
  - destruct input_dict as [|[k v] rest]; [done|].
    assert ((k, v) ∈ (k, v) :: rest) as Hin by apply list_elem_of_here.
    pose proof (content_to_keys_group _ _ _ Hin) as Hg.
    apply keys_with_elem in Hin.
    destruct (keys_with v ((k, v) :: rest)) as [|r ks] eqn:E;
      [by apply elem_of_nil in Hin|].
    assert (r ∈ dict_keys unique) as Hr.
    { apply H4. left. exists (v, r :: ks). by split. }
    intros Hu. rewrite Hu in Hr. by apply elem_of_nil in Hr.
Qed.

(** ** Response repair *)

Section ResponseRepairFacts.

Variable json_loads : pystr -> exn + json.





End ResponseRepairFacts.


(** ** Orchestrator: the translated keys only grow *)

Lemma covered_by_refl st : covered_by st st.
Proof. by unfold covered_by. Qed.

Lemma covered_by_trans st1 st2 st3 :
  covered_by st1 st2 -> covered_by st2 st3 -> covered_by st1 st3.
Proof. unfold covered_by. intros H1 H2 k Hk. by apply H2, H1. Qed.

Lemma between_weaken lo written mid hi :
  between lo written mid -> covered_by mid hi -> between lo written hi.
Proof.
  destruct written as [|w older]; csimpl.
  - intros. by eapply covered_by_trans.
  - intros [? ?] ?. split; [by eapply covered_by_trans|done].
Qed.

Lemma between_app lo w1 mid w2 hi :
  between lo w1 mid -> between mid w2 hi -> between lo (w2 ++ w1) hi.
Proof.
  intros H1. revert hi. induction w2 as [|x o IH]; intros hi; csimpl.
  - by apply between_weaken.
  - intros [? ?]. split; [done|]. by apply IH.
Qed.

Lemma between_covered lo written hi : between lo written hi -> covered_by lo hi.
Proof.
  revert hi. induction written as [|w older IH]; intros hi; csimpl; [done|].
  intros [? ?]. eapply covered_by_trans; [by apply IH|done].
Qed.

(** Every state written on the way lies between the two ends. *)
Lemma between_elem lo written hi w :
  between lo written hi -> w ∈ written -> covered_by lo w /\ covered_by w hi.
Proof.
  revert hi. induction written as [|x older IH]; intros hi; csimpl.
  - intros _ H. by apply elem_of_nil in H.
  - intros [Hx Hb] Hin. apply elem_of_cons in Hin as [->|Hin].
    + split; [by eapply between_covered|done].
    + destruct (IH _ Hb Hin). split; [done|]. by eapply covered_by_trans.
Qed.

Lemma grows_refl j : grows j j.
Proof. exists []. split; [done|]. apply covered_by_refl. Qed.

Lemma grows_trans j1 j2 j3 : grows j1 j2 -> grows j2 j3 -> grows j1 j3.
Proof.
  intros (w1 & Hd1 & Hb1) (w2 & Hd2 & Hb2).
  exists (w2 ++ w1). split; [by rewrite Hd2, Hd1, app_assoc|].
  by eapply between_app.
Qed.

Lemma keeps_refl j : keeps j j.
Proof. split; [apply grows_refl|done]. Qed.

Lemma keeps_trans j1 j2 j3 : keeps j1 j2 -> keeps j2 j3 -> keeps j1 j3.
Proof.
  intros [H1 S1] [H2 S2]. split; [by eapply grows_trans|]. intros. by apply S2, S1.
Qed.

(** A step that only spends calls. *)
Lemma keeps_clock j now :
  keeps j (Job (rstate j) (unique_translated_dict j) now (disk j)).
Proof.
  split; [|done]. exists []. split; [done|]. apply covered_by_refl.
Qed.

Lemma uncaught_inr r j : uncaught r = inr j -> r.1 = None /\ j = r.2.
Proof. unfold uncaught. destruct r.1; [done|]. by intros [= <-]. Qed.

Lemma uncaught_inl r ex : uncaught r = inl ex -> r.1 = Some ex.
Proof. unfold uncaught. destruct r.1; [|done]. by intros [= <-]. Qed.

Section OrchestratorFacts.

Context {file : recovery_file}.
Variable json_loads : pystr -> exn + json.
Variable backend : nat -> request -> exn + pystr.

(** A step that writes one state with more keys. *)
Lemma grows_write j st ut now :
  covered_by (rstate j) st ->
  grows j (save_recovery_state (Job st ut now (disk j))).2.
Proof.
  intros Hc. exists [st]. split; [done|]. csimpl.
  split; [apply covered_by_refl|done].
Qed.

(** The exception of a write is the one that [dump_error] gives for the
    state written. *)
Lemma save_recovery_state_error j ex :
  (save_recovery_state j).1 = Some ex -> exists st, dump_error st = Some ex.
Proof. intros H. by exists (rstate j). Qed.

(** Batch success, lines 555-558 and 600-603. *)
Lemma record_success_keeps id result now j :
  keeps j (record_success id result now j).2.
Proof.
  unfold record_success. split.
  - apply grows_write.
    unfold covered_by. csimpl. apply dict_keys_update_subseteq.
  - unfold synced. csimpl. intros H k Hk. apply dict_keys_update_elem.
    apply dict_keys_update_elem in Hk as [Hk|Hk]; [left; by apply H|by right].
Qed.

Lemma record_failure_keeps id batch ex now j :
  keeps j (record_failure id batch ex now j).2.
Proof.
  unfold record_failure. split; [|unfold synced, save_recovery_state; by csimpl].
  apply grows_write. by unfold covered_by.
Qed.

(** The three ways through one batch of the main loop that reaches the
    next batch: the batch was completed before; the call succeeded and the
    state was written; the call or the first write failed, and the entry
    of the batch was written. *)
Lemma translating_step_inr i batch j j' :
  translating_step json_loads backend i batch j = inr j' ->
  (main_batch_id i ∈ completed_batches (rstate j) /\ j' = j)
  \/ ((main_batch_id i ∉ completed_batches (rstate j))
      /\ match translate_batch json_loads backend batch (str_of_nat (i + 1)) 2
                               (clock j) with
         | (inr r, now) =>
             let saved := record_success (main_batch_id i) r now j in
             (saved.1 = None /\ j' = saved.2)
             \/ (exists ex,
                   saved.1 = Some ex
                   /\ (record_failure (main_batch_id i) batch ex now saved.2).1 = None
                   /\ j' = (record_failure (main_batch_id i) batch ex now saved.2).2)
         | (inl ex, now) =>
             (record_failure (main_batch_id i) batch ex now j).1 = None
             /\ j' = (record_failure (main_batch_id i) batch ex now j).2
         end).
Proof.
  unfold translating_step. case_bool_decide as Hid; [intros [= <-]; by left|].
  intros H. right. split; [done|].
  destruct (translate_batch json_loads backend _ _ _ _) as [[ex|r] now].
  - apply uncaught_inr in H. exact H.
  - cbv zeta. destruct (record_success _ r now j) as [[ex|] j1] eqn:Es.
    + right. exists ex. apply uncaught_inr in H. split; [done|exact H].
    + left. by injection H as <-.
Qed.

Lemma translating_step_keeps i batch j j' :
  translating_step json_loads backend i batch j = inr j' -> keeps j j'.
Proof.
  intros H. apply translating_step_inr in H as [[_ ->]|[_ H]]; [apply keeps_refl|].
  destruct (translate_batch json_loads backend _ _ _ _) as [[ex|r] now].
  - destruct H as [_ ->]. apply record_failure_keeps.
  - destruct H as [[_ ->]|(ex & _ & _ & ->)]; [apply record_success_keeps|].
    eapply keeps_trans; [apply record_success_keeps|apply record_failure_keeps].
Qed.

Lemma translating_keeps batches i j j' :
  translating json_loads backend batches i j = inr j' -> keeps j j'.
Proof.
  revert i j. induction batches as [|b rest IH]; intros i j; csimpl.
  - intros [= <-]. apply keeps_refl.
  - destruct (translating_step json_loads backend i b j) as [ex|j1] eqn:E; [done|].
    intros H. eapply keeps_trans; [by eapply translating_step_keeps|by eapply IH].
Qed.

(** Sub-batch retry during the reconciliation. *)
Lemma sub_batch_step_keeps id i sub j : keeps j (sub_batch_step json_loads backend id i sub j).
Proof.
  unfold sub_batch_step.
  destruct (translate_batch json_loads backend _ _ _ _) as [[ex|r] now].
  - apply keeps_clock.
  - apply record_success_keeps.
Qed.

Lemma sub_batches_loop_keeps id subs i j :
  keeps j (sub_batches_loop json_loads backend id subs i j).
Proof.
  revert i j. induction subs as [|b rest IH]; intros i j; csimpl.
  - apply keeps_refl.
  - eapply keeps_trans; [apply sub_batch_step_keeps|apply IH].
Qed.

Lemma reconcile_step_keeps text_dict fb j j' :
  reconcile_step json_loads backend text_dict fb j = inr j' -> keeps j j'.
Proof.
  unfold reconcile_step.
  set (j1 := sub_batches_loop json_loads backend _ _ _ _).
  destruct (list_remove fb _) as [remaining|]; [|done].
  intros H. apply uncaught_inr in H as [_ ->].
  eapply keeps_trans; [apply sub_batches_loop_keeps|].
  fold j1. split; [|unfold synced, save_recovery_state; by csimpl].
  apply grows_write. by unfold covered_by.
Qed.

Lemma reconciling_keeps text_dict snapshot j j' :
  reconciling json_loads backend text_dict snapshot j = inr j' -> keeps j j'.
Proof.
  revert j. induction snapshot as [|fb rest IH]; intros j; csimpl.
  - intros [= <-]. apply keeps_refl.
  - destruct (reconcile_step json_loads backend text_dict fb j) as [ex|j1] eqn:E; [done|].
    intros H. eapply keeps_trans; [by eapply reconcile_step_keeps|by apply IH].
Qed.

(** The final sweep for the missing keys: the job grows, and the full
    dictionary keeps its keys and the cover of the recovery state. *)
Lemma final_sweep_grows text_dict full j :
  let res := final_sweep json_loads backend text_dict full j in
  grows j res.2
  /\ dict_keys full ⊆ dict_keys res.1
  /\ (dict_keys (translated_items (rstate j)) ⊆ dict_keys full ->
      dict_keys (translated_items (rstate res.2)) ⊆ dict_keys res.1).
Proof.
  unfold final_sweep. destruct (missing_dict text_dict full) as [|kv m].
  - csimpl. split_and!; [apply grows_refl|done|done].
  - destruct (attempt json_loads backend _ _) as [ex|final_batch]; csimpl.
    + split_and!; [apply keeps_clock|done|done].
    + split_and!.
      * apply grows_write.
        unfold covered_by. csimpl. apply dict_keys_update_subseteq.
      * apply dict_keys_update_subseteq.
      * intros H k Hk. apply dict_keys_update_elem.
        apply dict_keys_update_elem in Hk as [Hk|Hk]; [left; by apply H|by right].
Qed.

Lemma reconstruct_keys ut duplicates :
  dict_keys ut ⊆ dict_keys (reconstruct ut duplicates).
Proof.
  unfold reconstruct.
  assert (dict_keys ut ⊆ dict_keys (dict_update [] ut)) as H0.
  { intros k Hk. apply dict_keys_update_elem. by right. }
  revert H0. generalize (dict_update [] ut). intros full Hfull.
  revert full Hfull. induction duplicates as [|[k r] dm IH]; intros full Hfull; csimpl.
  - done.
  - apply IH. destruct (dict_get r ut); [|done].
    case_bool_decide; [|done]. intros x Hx. apply dict_keys_set_elem. right. by apply Hfull.
Qed.

(** What [prepare] returns on a new job and on a resumed one. *)
Lemma prepare_inr text_dict j0 unique duplicates j1 :
  prepare text_dict j0 = inr (unique, duplicates, j1) ->
  translated_items (rstate j0) = []
  /\ (unique, duplicates) = deduplicate_content text_dict
  /\ dump_error (RecoveryState (completed_batches (rstate j0))
                   (failed_batches (rstate j0)) [] (Some duplicates)) = None
  /\ j1 = Job (RecoveryState (completed_batches (rstate j0))
                 (failed_batches (rstate j0)) [] (Some duplicates))
              (unique_translated_dict j0) (clock j0)
              (RecoveryState (completed_batches (rstate j0))
                 (failed_batches (rstate j0)) [] (Some duplicates) :: disk j0)
  \/ translated_items (rstate j0) <> []
     /\ duplicates_map (rstate j0) = Some duplicates
     /\ unique = filter (fun kv => kv.1 ∉ duplicates.*2) text_dict
     /\ j1 = j0.
Proof.
  unfold prepare. destruct (translated_items (rstate j0)) eqn:E.
  - destruct (deduplicate_content text_dict) as [u d].
    destruct (uncaught _) as [ex|j] eqn:Eu; [done|].
    intros [= <- <- <-]. apply uncaught_inr in Eu as [Hd ->]. left. by split_and!.
  - destruct (duplicates_map (rstate j0)); [|done]. intros [= <- <- <-].
    right. by split_and!.
Qed.

Lemma prepare_keeps text_dict j0 unique duplicates j1 :
  prepare text_dict j0 = inr (unique, duplicates, j1) -> keeps j0 j1.
Proof.
  intros H. apply prepare_inr in H as [(E & _ & _ & ->)|(_ & _ & _ & ->)];
    [|apply keeps_refl].
  split.
  - exists [RecoveryState (completed_batches (rstate j0))
              (failed_batches (rstate j0)) [] (Some duplicates)].
    split; [done|]. csimpl. split; [apply covered_by_refl|].
    unfold covered_by. csimpl. by rewrite E.
  - unfold synced. csimpl. by rewrite E.
Qed.

Lemma run_batches_grows text_dict duplicates batches j full j' :
  run_batches json_loads backend text_dict duplicates batches j = inr (full, j') ->
  grows j j'
  /\ dict_keys (translated_items (rstate j')) ⊆ dict_keys full.
Proof.
  unfold run_batches.
  set (j1 := Job (rstate j) (translated_items (rstate j)) (clock j) (disk j)).
  destruct (translating json_loads backend batches 0 j1) as [ex|j2] eqn:E2; [done|].
  destruct (reconciling json_loads backend text_dict (failed_batches (rstate j2)) j2)
    as [ex|j3] eqn:E;
    [done|].
  intros [= <- <-].
  assert (keeps j1 j3) as [Hg Hs].
  { eapply keeps_trans; [by eapply translating_keeps|by eapply reconciling_keeps]. }
  split; [exact Hg|].
  etransitivity; [|apply reconstruct_keys]. apply Hs. unfold synced, j1. by csimpl.
Qed.

(** The job that [setup_recovery_system] returns. *)
Lemma setup_recovery_system_inr resume now files j0 :
  setup_recovery_system resume now files = inr j0 ->
  match resume with
  | Some st => j0 = Job st [] now files
  | None =>
      dump_error (RecoveryState [] [] [] None) = None
      /\ j0 = Job (RecoveryState [] [] [] None) [] now
                  (RecoveryState [] [] [] None :: files)
  end.
Proof.
  destruct resume as [st|]; csimpl; [by intros [= <-]|].
  intros H. by apply uncaught_inr in H as [? ->].
Qed.

(** The keys grow through a run that returns. *)
Lemma translate_text_grows text_dict resume now files result j :
  translate_text json_loads backend text_dict resume now files = inr (result, j) ->
  exists written,
    disk j = written ++ files
    /\ between (start_state resume) written (rstate j)
    /\ dict_keys (translated_items (rstate j)) ⊆ dict_keys result.
Proof.
  intros Hrun. unfold translate_text in Hrun.
  destruct (setup_recovery_system resume now files) as [ex|j0] eqn:E0; [done|].
  assert (exists w0, disk j0 = w0 ++ files
                     /\ between (start_state resume) w0 (rstate j0)) as (w0 & Hd0 & Hb0).
  { apply setup_recovery_system_inr in E0. destruct resume as [st|].
    - subst j0. exists []. split; [done|]. apply covered_by_refl.
    - destruct E0 as [_ ->]. exists [RecoveryState [] [] [] None]. split; [done|].
      csimpl. split; apply covered_by_refl. }
  destruct (prepare text_dict j0) as [ex|[[unique duplicates] j1]] eqn:Ep; [done|].
  apply prepare_keeps in Ep as [(w1 & Hd1 & Hb1) _].
  set (remaining := filter _ unique) in Hrun.
  assert (forall full j4,
            grows j1 j4 ->
            dict_keys (translated_items (rstate j4)) ⊆ dict_keys full ->
            inr (final_sweep json_loads backend text_dict full j4)
              = inr (B := dict json * job) (A := exn) (result, j) ->
            exists written,
              disk j = written ++ files
              /\ between (start_state resume) written (rstate j)
              /\ dict_keys (translated_items (rstate j)) ⊆ dict_keys result) as Hfin.
  { intros full j4 (w4 & Hd4 & Hb4) Hfull Heq.
    destruct (final_sweep_grows text_dict full j4)
      as ((w5 & Hd5 & Hb5) & _ & Hcov).
    injection Heq as Heq. rewrite Heq in *. csimpl in *.
    exists (w5 ++ w4 ++ w1 ++ w0). split_and!.
    - rewrite Hd5, Hd4, Hd1, Hd0. by rewrite !app_assoc.
    - eapply between_app; [|exact Hb5].
      eapply between_app; [|exact Hb4].
      eapply between_app; [exact Hb0|exact Hb1].
    - by apply Hcov. }
  destruct remaining as [|kv rem].
  - eapply Hfin; [apply grows_refl|done|exact Hrun].
  - destruct (split_dict_into_smart_batches _ _ _ _) as [ex|batches]; [done|].
    destruct (run_batches json_loads backend text_dict duplicates batches j1)
      as [ex|[full j4]] eqn:Er; [done|].
    apply run_batches_grows in Er as [Hg Hfull].
    eapply Hfin; [exact Hg|exact Hfull|exact Hrun].
Qed.

(** C10, as the code has it: in a run of [translate_text] that returns,
    the recovery states handed to the writes of the recovery file, from the
    state the run started with to the state it ends with, cover one another
    in the order of writing; a key that has a translation in one of them
    has one in every later one, in the final state and in the dictionary
    returned.  The file holds such a state after each write that was
    completed: every checkpoint that could be read back from the file
    during the run is covered by the final state and by the result. *)
Theorem translated_keys_monotone (text_dict : dict pystr)
    (resume : option recovery_state) (now : nat) (files : list recovery_state)
    (result : dict json) (j : job) :
  translate_text json_loads backend text_dict resume now files = inr (result, j) ->
  exists written,
    disk j = written ++ files
    /\ between (start_state resume) written (rstate j)
    /\ dict_keys (translated_items (rstate j)) ⊆ dict_keys result
    /\ (forall w, w ∈ written ->
          dict_keys (translated_items (start_state resume))
            ⊆ dict_keys (translated_items w)
          /\ dict_keys (translated_items w) ⊆ dict_keys (translated_items (rstate j))
          /\ dict_keys (translated_items w) ⊆ dict_keys result)
    /\ (forall i st, (i < length written)%nat ->
          checkpoint (drop i (disk j)) = Some st ->
          dump_error st = None
          /\ dict_keys (translated_items (start_state resume))
               ⊆ dict_keys (translated_items st)
          /\ dict_keys (translated_items st) ⊆ dict_keys (translated_items (rstate j))
          /\ dict_keys (translated_items st) ⊆ dict_keys result).
Proof.
  intros Hrun.
  destruct (translate_text_grows _ _ _ _ _ _ Hrun) as (written & Hd & Hb & Hres).
  assert (forall w, w ∈ written ->
            dict_keys (translated_items (start_state resume))
              ⊆ dict_keys (translated_items w)
            /\ dict_keys (translated_items w) ⊆ dict_keys (translated_items (rstate j))
            /\ dict_keys (translated_items w) ⊆ dict_keys result) as Hall.
  { intros w Hw. destruct (between_elem _ _ _ _ Hb Hw) as [H1 H2].
    split_and!; [exact H1|exact H2|]. etransitivity; [exact H2|exact Hres]. }
  exists written. split_and!; try done.
  intros i st Hi Hc. unfold checkpoint in Hc.
  destruct (drop i (disk j)) as [|w older] eqn:Edrop; [done|].
  destruct (dump_error w) eqn:Ew; [done|]. injection Hc as <-.
  split; [done|]. apply Hall.
  assert (disk j !! i = Some w) as Hl.
  { rewrite <- (Nat.add_0_r i), <- lookup_drop, Edrop. done. }
  rewrite Hd, lookup_app_l in Hl by done. by eapply list_elem_of_lookup_2.
Qed.

End OrchestratorFacts.

(** ** Orchestrator: failures *)

(** The chunks of a list are its items, in order: the fuel of [chunks] is
    enough for every chunk size above 0. *)
Lemma chunks_fuel_concat {A} (fuel n : nat) (items : list A) :
  (0 < n)%nat -> (length items <= fuel)%nat ->
  concat (chunks_fuel fuel n items) = items
  /\ Forall (fun c => c <> [] /\ (length c <= n)%nat) (chunks_fuel fuel n items).
Proof.
  intros Hn. revert items. induction fuel as [|f IH]; intros items Hlen.
  - destruct items; [done|]. csimpl in Hlen. lia.
  - destruct items as [|x rest]; [done|].
    cbn [chunks_fuel]. set (l := x :: rest) in *.
    destruct (IH (drop n l)) as [Hc Hf].
    { rewrite length_drop. unfold l in *. csimpl in *. lia. }
    split.
    + csimpl. rewrite Hc. apply take_drop.
    + apply Forall_cons. split; [|done]. split.
      * destruct n; [lia|]. done.
      * rewrite length_take. lia.
Qed.

Lemma chunks_concat {A} (n : nat) (items : list A) :
  (0 < n)%nat -> concat (chunks n items) = items.
Proof. intros Hn. by apply chunks_fuel_concat. Qed.

Section FailureFacts.

Context {file : recovery_file}.
Variable json_loads : pystr -> exn + json.
Variable backend : nat -> request -> exn + pystr.

(** A call that fails has used every pass, each of them failed, and the
    exception is the one of the last pass. *)
Lemma attempts_raises rq n now ex now' :
  attempts json_loads backend rq n now = (inl ex, now') ->
  now' = (now + S n)%nat
  /\ attempt json_loads backend rq (now + n)%nat = inl ex
  /\ forall i, (i <= n)%nat -> raises (attempt json_loads backend rq (now + i)%nat).
Proof.
  revert now. induction n as [|n IH]; intros now; csimpl.
  - destruct (attempt json_loads backend rq now) as [e|r] eqn:E; [|done].
    intros [= <- <-]. rewrite Nat.add_0_r. split_and!; [lia|done|].
    intros i Hi. replace i with 0%nat by lia. rewrite Nat.add_0_r. by rewrite E.
  - destruct (attempt json_loads backend rq now) as [e|r] eqn:E; [|done].
    intros H. destruct (IH _ H) as (-> & Hlast & Hall). split_and!.
    + lia.
    + by replace (now + S n)%nat with (S now + n)%nat by lia.
    + intros i Hi. destruct i as [|i].
      * rewrite Nat.add_0_r. by rewrite E.
      * replace (now + S i)%nat with (S now + i)%nat by lia. apply Hall. lia.
Qed.

(** A call that succeeds returns the result of its first pass that does. *)
Lemma attempts_returns rq n now r now' :
  attempts json_loads backend rq n now = (inr r, now') ->
  exists i, (i <= n)%nat /\ attempt json_loads backend rq (now + i)%nat = inr r
            /\ now' = (now + S i)%nat
            /\ forall k, (k < i)%nat -> raises (attempt json_loads backend rq (now + k)%nat).
Proof.
  revert now. induction n as [|n IH]; intros now; csimpl.
  - destruct (attempt json_loads backend rq now) as [e|r0] eqn:E; [done|].
    intros [= <- <-]. exists 0%nat. rewrite Nat.add_0_r. split_and!; [lia|done|lia|lia].
  - destruct (attempt json_loads backend rq now) as [e|r0] eqn:E.
    + intros H. destruct (IH _ H) as (i & Hi & Hr & -> & Hall).
      exists (S i). split_and!; [lia| |lia|].
      * by replace (now + S i)%nat with (S now + i)%nat by lia.
      * intros k Hk. destruct k as [|k].
        -- rewrite Nat.add_0_r. by rewrite E.
        -- replace (now + S k)%nat with (S now + k)%nat by lia. apply Hall. lia.
    + intros [= <- <-]. exists 0%nat. rewrite Nat.add_0_r. split_and!; [lia|done|lia|lia].
Qed.

Lemma translating_app l1 l2 i j :
  translating json_loads backend (l1 ++ l2) i j
    = match translating json_loads backend l1 i j with
      | inl ex => inl ex
      | inr j' => translating json_loads backend l2 (i + length l1) j'
      end.
Proof.
  revert i j. induction l1 as [|b l1 IH]; intros i j; csimpl.
  - by rewrite Nat.add_0_r.
  - destruct (translating_step json_loads backend i b j) as [ex|j1]; [done|].
    rewrite IH. destruct (translating json_loads backend l1 (S i) j1); [done|].
    f_equal. lia.
Qed.

(** The entries of [failed_batches] and of [completed_batches] stay
    through the main loop. *)
Lemma translating_step_records i batch j j' :
  translating_step json_loads backend i batch j = inr j' ->
  failed_batches (rstate j) ⊆ failed_batches (rstate j')
  /\ completed_batches (rstate j) ⊆ completed_batches (rstate j').
Proof.
  intros H. apply translating_step_inr in H as [[_ ->]|[_ H]]; [done|].
  destruct (translate_batch json_loads backend _ _ _ _) as [[ex|r] now''].
  - destruct H as [_ ->]. csimpl. split; [|done].
    intros x Hx. apply elem_of_app. by left.
  - destruct H as [[_ ->]|(ex & _ & _ & ->)]; csimpl.
    + split; [done|]. intros x Hx. apply elem_of_app. by left.
    + split; intros x Hx; apply elem_of_app; by left.
Qed.

Lemma translating_records batches i j j' :
  translating json_loads backend batches i j = inr j' ->
  failed_batches (rstate j) ⊆ failed_batches (rstate j')
  /\ completed_batches (rstate j) ⊆ completed_batches (rstate j').
Proof.
  revert i j. induction batches as [|b rest IH]; intros i j; csimpl;
    [by intros [= <-]|].
  destruct (translating_step json_loads backend i b j) as [ex|j1] eqn:E; [done|].
  intros H. destruct (translating_step_records _ _ _ _ E) as [H1 H2].
  destruct (IH _ _ H) as [H3 H4].
  split; etransitivity; done.
Qed.

(** The exception that ends the main loop is the one of a write. *)
Lemma translating_step_inl i batch j ex :
  translating_step json_loads backend i batch j = inl ex ->
  exists st, dump_error st = Some ex.
Proof.
  unfold translating_step. case_bool_decide; [done|].
  destruct (translate_batch json_loads backend _ _ _ _) as [[e|r] now].
  - intros Hu. apply uncaught_inl in Hu. by eapply save_recovery_state_error.
  - destruct (record_success _ r now j) as [[e|] j1]; [|done].
    intros Hu. apply uncaught_inl in Hu. by eapply save_recovery_state_error.
Qed.

Lemma translating_inl batches i j ex :
  translating json_loads backend batches i j = inl ex ->
  exists st, dump_error st = Some ex.
Proof.
  revert i j. induction batches as [|b rest IH]; intros i j; csimpl; [done|].
  destruct (translating_step json_loads backend i b j) as [e|j1] eqn:E.
  - intros [= <-]. by eapply translating_step_inl.
  - apply IH.
Qed.

(** The sub-batches leave [failed_batches] alone: a sub-batch that fails
    is not recorded. *)
Lemma sub_batches_loop_failed id subs i j :
  failed_batches (rstate (sub_batches_loop json_loads backend id subs i j))
    = failed_batches (rstate j).
Proof.
  revert i j. induction subs as [|b rest IH]; intros i j; csimpl; [done|].
  rewrite IH. unfold sub_batch_step.
  by destruct (translate_batch json_loads backend _ _ _ _) as [[ex|r] now''].
Qed.

Lemma list_remove_head `{EqDecision A} (x : A) l : list_remove x (x :: l) = Some l.
Proof. csimpl. by rewrite decide_True. Qed.

(** The reconciliation never fails to find the entry that it removes:
    it leaves no entry in [failed_batches], whatever the sub-batches did,
    unless a write of the recovery file raises, which ends the run. *)
Lemma reconciling_empties text_dict snapshot j :
  failed_batches (rstate j) = snapshot ->
  match reconciling json_loads backend text_dict snapshot j with
  | inr j' => failed_batches (rstate j') = []
  | inl ex => exists st, dump_error st = Some ex
  end.
Proof.
  revert j. induction snapshot as [|fb rest IH]; intros j Hj; csimpl; [done|].
  unfold reconcile_step.
  rewrite sub_batches_loop_failed, Hj, list_remove_head.
  destruct (uncaught _) as [ex|j1] eqn:E.
  - apply uncaught_inl in E. by eapply save_recovery_state_error.
  - apply uncaught_inr in E as [_ ->]. by apply IH.
Qed.

Lemma run_batches_outcome text_dict duplicates batches j :
  match run_batches json_loads backend text_dict duplicates batches j with
  | inr (full, j') => failed_batches (rstate j') = []
  | inl ex => exists st, dump_error st = Some ex
  end.
Proof.
  unfold run_batches.
  destruct (translating json_loads backend batches 0 _) as [ex|j2] eqn:E;
    [by eapply translating_inl|].
  pose proof (reconciling_empties text_dict (failed_batches (rstate j2)) j2 eq_refl) as H.
  by destruct (reconciling json_loads backend text_dict _ j2).
Qed.

(** The exceptions that [translate_text] lets out: the one of a write of
    the recovery file and, on a resumed run, the [KeyError] of [prepare]
    for a recovery state that has translations and no duplicates map. *)
Lemma translate_text_raises text_dict resume now files ex :
  translate_text json_loads backend text_dict resume now files = inl ex ->
  (exists st, dump_error st = Some ex)
  \/ (ex = KeyError (py "duplicates_map")
      /\ exists st, resume = Some st /\ translated_items st <> []
                    /\ duplicates_map st = None).
Proof.
  unfold translate_text.
  destruct (setup_recovery_system resume now files) as [e|j0] eqn:E0.
  { intros [= <-]. left. destruct resume; [done|].
    apply uncaught_inl in E0. by eapply save_recovery_state_error. }
  apply setup_recovery_system_inr in E0.
  destruct (prepare text_dict j0) as [e|[[unique duplicates] j1]] eqn:Ep.
  { intros [= <-]. unfold prepare in Ep.
    destruct (translated_items (rstate j0)) eqn:Et.
    - destruct (deduplicate_content text_dict) as [u d].
      destruct (uncaught _) as [e'|j1] eqn:Eu; [|done]. injection Ep as <-.
      left. apply uncaught_inl in Eu. by eapply save_recovery_state_error.
    - destruct (duplicates_map (rstate j0)) eqn:Ed; [done|]. injection Ep as <-.
      right. split; [done|]. destruct resume as [st|].
      + subst j0. exists st. csimpl in *. by rewrite Et.
      + destruct E0 as [_ ->]. done. }
  cbv zeta. set (remaining := filter _ unique).
  destruct remaining as [|kv rem] eqn:Er; [done|].
  rewrite split_nonempty by done.
  pose proof (run_batches_outcome text_dict duplicates
                (smart_batches App13.estimate_tokens (kv :: rem) 150000 2000) j1) as H.
  destruct (run_batches json_loads backend _ _ _ j1) as [e|[full j4]]; [|done].
  intros [= <-]. by left.
Qed.

Lemma grows_covered j j' : grows j j' -> covered_by (rstate j) (rstate j').
Proof. intros (w & _ & Hb). by eapply between_covered. Qed.

Lemma translating_split batches n batch i j jn :
  batches !! n = Some batch ->
  translating json_loads backend (take n batches) i j = inr jn ->
  translating json_loads backend batches i j
    = match translating_step json_loads backend (i + n) batch jn with
      | inl ex => inl ex
      | inr j' => translating json_loads backend (drop (S n) batches) (i + S n) j'
      end.
Proof.
  intros Hn Hjn. rewrite <- (take_drop_middle batches n batch Hn) at 1.
  rewrite translating_app, Hjn. csimpl.
  assert (length (take n batches) = n) as ->.
  { rewrite length_take. apply lookup_lt_Some in Hn. lia. }
  destruct (translating_step json_loads backend (i + n) batch jn); [done|].
  f_equal. lia.
Qed.

(** C5, as the code has it.  The exception of a batch never ends the
    job: a new job ends with a result, unless a write of the recovery file
    raises, and then with the exception of that write.  In the main loop,
    a batch whose call fails on the three passes is recorded in
    [failed_batches] with its keys and the exception of the last pass, and
    the state is written; when that write succeeds the loop goes on with
    the batches that follow, and the entry is there when the loop ends.
    The keys of every batch that succeeded are in the dictionary that the
    job returns. *)
Theorem failed_batch_recorded_job_continues :
  (forall text_dict now files ex,
     translate_text json_loads backend text_dict None now files = inl ex ->
     exists st, dump_error st = Some ex)
  /\ (forall text_dict duplicates batches j0 n batch jn,
        batches !! n = Some batch ->
        let j0' := Job (rstate j0) (translated_items (rstate j0)) (clock j0) (disk j0) in
        translating json_loads backend (take n batches) 0 j0' = inr jn ->
        main_batch_id n ∉ completed_batches (rstate jn) ->
        translating json_loads backend batches 0 j0'
          = match translating_step json_loads backend n batch jn with
            | inl ex => inl ex
            | inr j' => translating json_loads backend (drop (S n) batches) (S n) j'
            end
        /\ match translate_batch json_loads backend batch (str_of_nat (n + 1)) 2
                                 (clock jn) with
           | (inl ex, now') =>
               let recorded := record_failure (main_batch_id n) batch ex now' jn in
               now' = (clock jn + 3)%nat
               /\ attempt json_loads backend
                    (Request false (str_of_nat (n + 1)) batch) (clock jn + 2)%nat
                  = inl ex
               /\ FailedBatch (main_batch_id n) (dict_keys batch) (str_of_exn ex)
                    ∈ failed_batches (rstate recorded.2)
               /\ head (disk recorded.2) = Some (rstate recorded.2)
               /\ translating_step json_loads backend n batch jn = uncaught recorded
               /\ (forall jend,
                     translating json_loads backend batches 0 j0' = inr jend ->
                     recorded.1 = None
                     /\ FailedBatch (main_batch_id n) (dict_keys batch) (str_of_exn ex)
                          ∈ failed_batches (rstate jend))
           | (inr r, now') =>
               (forall jend,
                  translating json_loads backend batches 0 j0' = inr jend ->
                  main_batch_id n ∈ completed_batches (rstate jend))
               /\ (forall full j3,
                     run_batches json_loads backend text_dict duplicates batches j0
                       = inr (full, j3) ->
                     dict_keys r
                       ⊆ dict_keys (final_sweep json_loads backend text_dict full j3).1)
           end).
Proof.
  split.
  - intros text_dict now files ex H.
    apply translate_text_raises in H as [H|(_ & st & H & _)]; done.
  - intros text_dict duplicates batches j0 n batch jn Hn j0' Hjn Hid.
    pose proof (translating_split batches n batch 0 j0' jn Hn Hjn) as Hsplit.
    csimpl in Hsplit. split; [done|].
    assert (forall jend,
              translating json_loads backend batches 0 j0' = inr jend ->
              exists j',
                translating_step json_loads backend n batch jn = inr j'
                /\ failed_batches (rstate j') ⊆ failed_batches (rstate jend)
                /\ completed_batches (rstate j') ⊆ completed_batches (rstate jend)
                /\ covered_by (rstate j') (rstate jend)) as Hend.
    { intros jend Hjend. rewrite Hsplit in Hjend.
      destruct (translating_step json_loads backend n batch jn) as [e|j'] eqn:Es; [done|].
      exists j'. destruct (translating_records _ _ _ _ Hjend) as [Hf Hc].
      split_and!; [done|done|done|].
      apply grows_covered. by eapply translating_keeps. }
    assert (forall j', translating_step json_loads backend n batch jn = inr j' ->
              match translate_batch json_loads backend batch (str_of_nat (n + 1)) 2
                                    (clock jn) with
              | (inr r, now) =>
                  main_batch_id n ∈ completed_batches (rstate j')
                  /\ dict_keys r ⊆ dict_keys (translated_items (rstate j'))
              | (inl ex, now) => True
              end) as Hstep.
    { intros j' Hs. apply translating_step_inr in Hs as [[? _]|[_ Hs]]; [done|].
      destruct (translate_batch json_loads backend _ _ _ _) as [[ex|r] now]; [done|].
      destruct Hs as [[_ ->]|(ex & _ & _ & ->)]; csimpl.
      - split; [apply elem_of_app; right; apply list_elem_of_here|].
        intros k Hk. apply dict_keys_update_elem. by right.
      - split; [apply elem_of_app; right; apply list_elem_of_here|].
        intros k Hk. apply dict_keys_update_elem. by right. }
    destruct (translate_batch json_loads backend batch (str_of_nat (n + 1)) 2 (clock jn))
      as [[ex|r] now'] eqn:Et.
    + assert (translating_step json_loads backend n batch jn
              = uncaught (record_failure (main_batch_id n) batch ex now' jn)) as Hs.
      { unfold translating_step. rewrite bool_decide_eq_false_2 by done.
        by rewrite Et. }
      apply attempts_raises in Et as (-> & Hlast & _). cbv zeta.
      split_and!; [lia|done| |done|done|].
      * csimpl. apply elem_of_app. right. apply list_elem_of_here.
      * intros jend Hjend. destruct (Hend jend Hjend) as (j' & Hj' & Hf & _).
        rewrite Hs in Hj'. apply uncaught_inr in Hj' as [Hw ->].
        split; [done|]. apply Hf. csimpl. apply elem_of_app. right.
        apply list_elem_of_here.
    + split.
      * intros jend Hjend. destruct (Hend jend Hjend) as (j' & Hj' & _ & Hc & _).
        apply Hc. by destruct (Hstep j' Hj').
      * intros full j3 Hrun. unfold run_batches in Hrun. fold j0' in Hrun.
        destruct (translating json_loads backend batches 0 j0') as [e|jend] eqn:Ee;
          [done|].
        destruct (reconciling json_loads backend text_dict
                    (failed_batches (rstate jend)) jend) as [e|j3'] eqn:Er; [done|].
        injection Hrun as <- <-.
        destruct (Hend jend eq_refl) as (j' & Hj' & _ & _ & Hg).
        destruct (Hstep j' Hj') as [_ Hr].
        apply reconciling_keeps in Er as [Hg3 Hs3].
        apply grows_covered in Hg3.
        assert (synced jend) as Hsync.
        { apply (translating_keeps json_loads backend batches 0 j0' jend Ee).
          unfold synced, j0'. by csimpl. }
        destruct (final_sweep_grows json_loads backend text_dict
                    (reconstruct (unique_translated_dict j3') duplicates) j3')
          as (_ & Hfull & _).
        intros k Hk. apply Hfull, reconstruct_keys, Hs3; [done|].
        by apply Hg3, Hg, Hr.
Qed.

End FailureFacts.

(** ** The recovery file *)

Section CheckpointFacts.

Import CheckpointFile.
Variable dump : recovery_state -> list pystr.

Lemma foldl_writes content chunks :
  foldl apply_op content (Write <$> chunks) = content ++ concat chunks.
Proof.
  revert content. induction chunks as [|c chunks IH]; intros content; csimpl.
  - by rewrite app_nil_r.
  - by rewrite IH, app_assoc.
Qed.

End CheckpointFacts.

(** C9, as the code has it: the save rewrites the recovery file in place.
    Before the first operation the file holds the previous checkpoint;
    after the opening it is empty, and after each further write it holds
    the pieces of the new checkpoint written so far; a save that completes
    leaves the new checkpoint. *)
Theorem save_rewrites_in_place (dump : recovery_state -> list pystr)
    (previous : pystr) (st : recovery_state) (n : nat) :
  CheckpointFile.file_after dump 0 st previous = previous
  /\ CheckpointFile.file_after dump (S n) st previous = concat (take n (dump st))
  /\ CheckpointFile.file_after dump (length (CheckpointFile.save_ops dump st)) st previous
     = CheckpointFile.text_of dump st.
Proof.
  unfold CheckpointFile.file_after, CheckpointFile.save_ops, CheckpointFile.text_of.
  split_and!.
  - done.
  - csimpl. rewrite <- fmap_take, foldl_writes. done.
  - rewrite firstn_all. csimpl. by rewrite foldl_writes.
Qed.

(** C9 as stated fails: a crash right after the file is opened leaves it
    empty, and the previous checkpoint is lost. *)
Lemma crash_loses_previous_checkpoint :
  ~ (forall (dump : recovery_state -> list pystr) (previous st : recovery_state)
            (steps : nat),
       (steps < length (CheckpointFile.save_ops dump st))%nat ->
       CheckpointFile.file_after dump steps st (CheckpointFile.text_of dump previous)
         = CheckpointFile.text_of dump previous).
Proof.
  intros H.
  specialize (H (fun st => [py "{"; str_of_nat (length (completed_batches st)); py "}"])
                (RecoveryState [] [] [] None) (RecoveryState [py "batch_1"] [] [] None)
                1%nat).
  discriminate H. csimpl. lia.
Qed.

(** ** Concrete runs *)



(** An answer that the strict decoding refuses with another exception
    than a decoding error: an array with an integer of 4301 digits, and
    an object after it.  The [ValueError] is raised at once, although the
    salvage finds the pair of the object and the block extraction decodes
    it. *)
Example strict_error_skips_repairs :
  let jc := [91%N] ++ replicate 4301 49%N ++ pyq "] {'a': 'x'}" in
  (exists msg, parse_response RefJson.json_loads jc = inl (ValueError msg))
  /\ regex_salvage jc = inr [(py "a", JStr (py "x"))]
  /\ extract_json_blocks RefJson.json_loads jc
     = inr (Some [(py "a", JStr (py "x"))]).
Proof.
  split_and!; [eexists|..]; vm_compute; reflexivity.
Qed.

(** C1 on the scenario of the specification: 20 fragments in one batch
    that fails; the four sub-batches of five are retried, three succeed and
    the one with [t17] fails again.  The entry of the batch is removed from
    [failed_batches] all the same, and the five keys of the sub-batch that
    failed are neither in the final recovery state nor in the result. *)
Theorem reconciliation_forgets_partial_failure :
  exists result j,
    translate_text RefJson.json_loads (Stub.picky 5 (py "t17")) (Stub.numbered 20)
                   None 0 [] = inr (result, j)
    /\ (exists w err, w ∈ disk j
          /\ failed_batches w
             = [FailedBatch (py "batch_1") (dict_keys (Stub.numbered 20)) err])
    /\ completed_batches (rstate j)
       = [py "batch_1_sub_1"; py "batch_1_sub_2"; py "batch_1_sub_3"]
    /\ failed_batches (rstate j) = []
    /\ dict_keys result = dict_keys (Stub.numbered 15)
    /\ dict_keys (translated_items (rstate j)) = dict_keys (Stub.numbered 15).
Proof.
  eexists _, _. split; [vm_compute; reflexivity|].
  split_and!; try (vm_compute; reflexivity).
  eexists _, _. split.
  - apply list_elem_of_further, list_elem_of_here.
  - vm_compute. reflexivity.
Qed.

(** X25: What a resumed run does when every key of the document is a
    representative in the saved duplicates map (so it is for a document
    without repeated text): the filter of line 523 keeps the keys that are
    not representatives, no batch is built, and the run is the final sweep
    over the saved translations. *)
Lemma resume_translates_no_batch {file : recovery_file}
    (json_loads : pystr -> exn + json)
    (backend : nat -> request -> exn + pystr) (text_dict : dict pystr)
    (st : recovery_state) (duplicates : dict pystr) (now : nat)
    (files : list recovery_state) :
  translated_items st <> [] ->
  duplicates_map st = Some duplicates ->
  dict_keys text_dict ⊆ duplicates.*2 ->
  translate_text json_loads backend text_dict (Some st) now files
    = inr (final_sweep json_loads backend text_dict (translated_items st)
             (Job st [] now files)).
Proof.
  intros Hti Hdm Hall. unfold translate_text, prepare. csimpl.
  destruct (translated_items st) as [|kv ti] eqn:E; [done|]. rewrite Hdm.
  assert (filter (fun kv : pystr * pystr => kv.1 ∉ duplicates.*2) text_dict = []) as ->.
  { clear E. induction text_dict as [|[k v] rest IH]; [done|].
    rewrite filter_cons_False.
    - apply IH. intros x Hx. apply Hall. by apply list_elem_of_further.
    - csimpl. intros Hk. apply Hk, Hall, list_elem_of_here. }
  csimpl. by rewrite E.
Qed.

(** C2 on three fragments that fill one batch each, with a backend that
    refuses the requests estimated above 150000 tokens.  The whole run
    translates the three.  The run resumed from the state written after
    the first batch finds no batch to translate and asks for the two
    missing texts in one request, which the backend refuses: it returns one
    translation. *)
Theorem resume_differs_from_whole_run :
  exists full j checkpoint resumed j',
    translate_text RefJson.json_loads (Stub.size_limited 150000)
                   Stub.three_long_texts None 0 [] = inr (full, j)
    /\ disk j !! 2%nat = Some checkpoint
    /\ completed_batches checkpoint = [py "batch_1"]
    /\ dict_keys (translated_items checkpoint) = [py "a"]
    /\ translate_text RefJson.json_loads (Stub.size_limited 150000)
                      Stub.three_long_texts (Some checkpoint) 0 [] = inr (resumed, j')
    /\ dict_keys full = [py "a"; py "b"; py "c"]
    /\ dict_keys resumed = [py "a"]
    /\ ~ dict_eq full resumed.
Proof.
  eexists _, _, _, _, _. split; [vm_compute; reflexivity|].
  split; [vm_compute; reflexivity|].
  split; [vm_compute; reflexivity|].
  split; [vm_compute; reflexivity|].
  split; [vm_compute; reflexivity|].
  split; [vm_compute; reflexivity|].
  split; [vm_compute; reflexivity|].
  intros H. specialize (H (py "b")). vm_compute in H. discriminate H.
Qed.

(** C5 as stated fails when the backend leaves a text out of its answers:
    no batch fails, and the key of that text is not in the result. *)
Lemma result_coverage_counterexample :
  ~ (forall (json_loads : pystr -> exn + json)
            (backend : nat -> request -> exn + pystr)
            (text_dict : dict pystr) result j,
       translate_text json_loads backend text_dict None 0 [] = inr (result, j) ->
       forall k, k ∈ dict_keys text_dict ->
         (forall w fb, w ∈ disk j -> fb ∈ failed_batches w -> k ∉ fb_keys fb) ->
         k ∈ dict_keys result).
Proof.
  intros H.
  assert (exists result j,
            translate_text RefJson.json_loads (Stub.omitting (py "World"))
              [(py "a", py "Hello"); (py "b", py "World")] None 0 [] = inr (result, j)
            /\ dict_keys result = [py "a"]
            /\ Forall (fun w => failed_batches w = []) (disk j))
    as (result & j & Hrun & Hkeys & Hnf).
  { eexists _, _. split_and!; [vm_compute; reflexivity|vm_compute; reflexivity|].
    vm_compute. repeat constructor. }
  specialize (H _ _ _ _ _ Hrun (py "b")). rewrite Hkeys in H.
  assert (py "b" ∈ [py "a"]) as Hin.
  { apply H.
    - vm_compute. apply list_elem_of_further, list_elem_of_here.
    - intros w fb Hw Hfb. rewrite Forall_forall in Hnf. rewrite (Hnf w Hw) in Hfb.
      by apply elem_of_nil in Hfb. }
  apply list_elem_of_singleton in Hin. vm_compute in Hin. discriminate Hin.
Qed.

Lemma translated_keys_monotone_witness :
  exists result j,
    translate_text RefJson.json_loads (Stub.picky 5 (py "t17")) (Stub.numbered 20)
                   None 0 [] = inr (result, j)
    /\ exists written,
         disk j = written ++ []
         /\ between (start_state None) written (rstate j)
         /\ dict_keys (translated_items (rstate j)) ⊆ dict_keys result
         /\ (forall w, w ∈ written ->
               dict_keys (translated_items (start_state None))
                 ⊆ dict_keys (translated_items w)
               /\ dict_keys (translated_items w)
                    ⊆ dict_keys (translated_items (rstate j))
               /\ dict_keys (translated_items w) ⊆ dict_keys result)
         /\ (forall i st, (i < length written)%nat ->
               checkpoint (drop i (disk j)) = Some st ->
               dump_error st = None
               /\ dict_keys (translated_items (start_state None))
                    ⊆ dict_keys (translated_items st)
               /\ dict_keys (translated_items st)
                    ⊆ dict_keys (translated_items (rstate j))
               /\ dict_keys (translated_items st) ⊆ dict_keys result).
Proof.
  eexists _, _. split; [vm_compute; reflexivity|].
  apply (translated_keys_monotone RefJson.json_loads (Stub.picky 5 (py "t17"))
           (Stub.numbered 20) None 0 []).
  vm_compute. reflexivity.
Defined.

(** C10 as stated fails when a write of the recovery file raises in the
    final sweep.  Two fragments; the backend translates the first in its
    batch and leaves the second out, and answers the request for the
    missing key with the escape of a lone surrogate.  The state written
    after the batch holds the translation of the first fragment; the state
    of the final sweep holds a string that UTF-8 cannot encode, its write
    raises, the exception is dropped and the run returns: the file, opened
    for writing, is left truncated, and no checkpoint can be read back
    from it. *)
Lemma checkpoint_lost_counterexample :
  ~ (forall (json_loads : pystr -> exn + json)
            (backend : nat -> request -> exn + pystr)
            (text_dict : dict pystr) result j,
       translate_text json_loads backend text_dict None 0 [] = inr (result, j) ->
       forall i earlier k,
         checkpoint (drop i (disk j)) = Some earlier ->
         k ∈ dict_keys (translated_items earlier) ->
         exists st, checkpoint (disk j) = Some st
                    /\ k ∈ dict_keys (translated_items st)).
Proof.
  intros H.
  assert (exists result j earlier,
            translate_text RefJson.json_loads (Stub.broken_in_sweep (py "World"))
              [(py "a", py "Hello"); (py "b", py "World")] None 0 [] = inr (result, j)
            /\ dict_keys result = [py "a"; py "b"]
            /\ dict_keys (translated_items (rstate j)) = [py "a"; py "b"]
            /\ checkpoint (drop 1 (disk j)) = Some earlier
            /\ dict_keys (translated_items earlier) = [py "a"]
            /\ checkpoint (disk j) = None)
    as (result & j & earlier & Hrun & _ & _ & Hearlier & Hkeys & Hlost).
  { eexists _, _, _. split_and!; vm_compute; reflexivity. }
  destruct (H _ _ _ _ _ Hrun 1%nat earlier (py "a") Hearlier) as (st & Hst & _).
  - rewrite Hkeys. apply list_elem_of_here.
  - rewrite Hlost in Hst. discriminate Hst.
Qed.

(** A write that raises outside the final sweep ends the run.  The
    backend answers the only batch with the escape of a lone surrogate:
    the write of line 558 raises [UnicodeEncodeError], the handler records
    the batch as failed with that error, and the write of line 567 raises
    it again. *)
Example failing_write_aborts :
  exists ex,
    translate_text RefJson.json_loads Stub.broken [(py "a", py "Hello")] None 0 []
      = inl ex
    /\ ex = UnicodeEncodeError (py "utf-8") [34%N; 0xD83D%N; 34%N] 1 2
              (py "surrogates not allowed")
    /\ str_of_exn ex
       = py "'utf-8' codec can't encode character '\ud83d' in position 1: surrogates not allowed".
Proof. eexists. split_and!; vm_compute; reflexivity. Qed.

(** ** Scenarios of the specification *)

(** Three fragments, two of them with the same text: two texts are sent
    and the three keys are resolved. *)
Example duplicates_scenario :
  exists result j,
    translate_text RefJson.json_loads Stub.faithful
      [(py "s1", py "Hello"); (py "s2", py "World"); (py "s3", py "Hello")]
      None 0 [] = inr (result, j)
    /\ clock j = 1%nat
    /\ dict_keys (translated_items (rstate j)) = [py "s1"; py "s2"]
    /\ result = [(py "s1", JStr (py "T:Hell")); (py "s2", JStr (py "T:Worl"));
                 (py "s3", JStr (py "T:Hell"))].
Proof. eexists _, _. split_and!; vm_compute; reflexivity. Qed.

(** A call that raises twice and succeeds on the third pass: the batch is
    completed and not failed. *)
Example third_pass_scenario :
  exists result j,
    translate_text RefJson.json_loads (Stub.failing_first 2) (Stub.numbered 3)
      None 0 [] = inr (result, j)
    /\ clock j = 3%nat
    /\ completed_batches (rstate j) = [py "batch_1"]
    /\ Forall (fun w => failed_batches w = []) (disk j)
    /\ dict_keys result = dict_keys (Stub.numbered 3).
Proof.
  eexists _, _. split_and!; try (vm_compute; reflexivity).
  vm_compute. repeat constructor.
Qed.

(** An answer with 8 of the 10 keys of the batch: the final sweep asks for
    the two missing keys in one call and resolves them. *)
Example final_sweep_scenario :
  exists result j,
    translate_text RefJson.json_loads (Stub.truncating_first 8) (Stub.numbered 10)
      None 0 [] = inr (result, j)
    /\ clock j = 2%nat
    /\ (exists w, disk j !! 1%nat = Some w
          /\ dict_keys (translated_items w) = dict_keys (Stub.numbered 8))
    /\ dict_keys result = dict_keys (Stub.numbered 10).
Proof.
  eexists _, _. split_and!; try (vm_compute; reflexivity).
  eexists. split; vm_compute; reflexivity.
Qed.

(** The input of [resume_differs_from_whole_run] with a backend that
    answers every request: the resumed run returns what the whole run
    returns, through the final sweep. *)
Example resume_with_faithful_backend :
  exists full j checkpoint resumed j',
    translate_text RefJson.json_loads Stub.faithful Stub.three_long_texts None 0 []
      = inr (full, j)
    /\ disk j !! 2%nat = Some checkpoint
    /\ completed_batches checkpoint = [py "batch_1"]
    /\ translate_text RefJson.json_loads Stub.faithful Stub.three_long_texts
         (Some checkpoint) 0 [] = inr (resumed, j')
    /\ clock j' = 1%nat
    /\ completed_batches (rstate j') = [py "batch_1"]
    /\ resumed = full.
Proof.
  eexists _, _, _, _, _. split; [vm_compute; reflexivity|].
  split; [vm_compute; reflexivity|].
  split; [vm_compute; reflexivity|].
  split; [vm_compute; reflexivity|].
  split; [vm_compute; reflexivity|].
  split; vm_compute; reflexivity.
Qed.

(** ** The recovery helper of src/batch-recovery.py *)

Section BatchRecoveryFacts.

Import BatchRecovery.
Variable translate_hook : nat -> dict pystr -> exn + dict json.
Variable batch_file_error : dict pystr -> option exn.
Variable state_file_error : state -> option exn.

(** What a call of [process_batch] that returns has done: one call of
    the translation code, and either the batch is completed, or it is
    recorded as failed with its size. *)
Lemma process_batch_inr batch index size st ok result st' :
  process_batch translate_hook batch_file_error state_file_error batch index size st
    = inr ((ok, result), st') ->
  calls st' = S (calls st)
  /\ dict_keys (BatchRecovery.translated_items st)
       ⊆ dict_keys (BatchRecovery.translated_items st')
  /\ BatchRecovery.completed_batches st ⊆ BatchRecovery.completed_batches st'
  /\ ((ok = true /\ BatchRecovery.failed_batches st' = BatchRecovery.failed_batches st)
      \/ (ok = false
          /\ exists err,
               BatchRecovery.failed_batches st'
               = BatchRecovery.failed_batches st
                   ++ [FailedInfo index (dict_keys batch) err size])).
Proof.
  unfold process_batch. destruct (batch_file_error batch); [done|].
  destruct (translate_hook (calls st) batch) as [ex|batch_result].
  - unfold record_failed. destruct (state_file_error _); [done|].
    intros [= <- <- <-]. csimpl. split_and!; [done|done|done|]. right. eauto.
  - destruct (state_file_error _) as [ex|].
    + unfold record_failed. destruct (state_file_error _); [done|].
      intros [= <- <- <-]. csimpl. split_and!; [done| | |right; eauto].
      * apply dict_keys_update_subseteq.
      * intros x Hx. apply elem_of_app. by left.
    + intros [= <- <- <-]. csimpl. split_and!; [done| | |by left].
      * apply dict_keys_update_subseteq.
      * intros x Hx. apply elem_of_app. by left.
Qed.

Lemma process_batch_inl batch index size st ex :
  process_batch translate_hook batch_file_error state_file_error batch index size st
    = inl ex ->
  (exists b, batch_file_error b = Some ex)
  \/ (exists s, state_file_error s = Some ex).
Proof.
  unfold process_batch, record_failed.
  destruct (batch_file_error batch) eqn:Eb; [intros [= <-]; left; eauto|].
  destruct (translate_hook (calls st) batch) as [e|batch_result].
  - destruct (state_file_error _) eqn:Es; [|done]. intros [= <-]. right. eauto.
  - destruct (state_file_error _) as [e|]; [|done].
    destruct (state_file_error _) eqn:Es; [|done]. intros [= <-]. right. eauto.
Qed.

Lemma process_batch_failed batch index size st r st' :
  process_batch translate_hook batch_file_error state_file_error batch index size st
    = inr (r, st') ->
  BatchRecovery.failed_batches st ⊆ BatchRecovery.failed_batches st'.
Proof.
  destruct r as [ok result]. intros H.
  apply process_batch_inr in H as (_ & _ & _ & [[_ ->]|(_ & err & ->)]); [done|].
  intros x Hx. apply elem_of_app. by left.
Qed.

Lemma recovery_sub_batches_failed index size subs i count st out :
  BatchRecovery.sub_batches_loop translate_hook batch_file_error state_file_error
    index size subs i count st = inr out ->
  BatchRecovery.failed_batches st ⊆ BatchRecovery.failed_batches out.2.
Proof.
  revert i count st. induction subs as [|b rest IH]; intros i count st;
    cbn [BatchRecovery.sub_batches_loop]; [by intros [= <-]|].
  destruct (process_batch _ _ _ b _ size st) as [ex|[[[] result] st']] eqn:Ep; [done|..].
  - destruct (state_file_error _); [done|]. intros H.
    etransitivity; [exact (process_batch_failed _ _ _ _ _ _ Ep)|].
    apply IH in H. exact H.
  - intros H. etransitivity; [exact (process_batch_failed _ _ _ _ _ _ Ep)|].
    by apply IH in H.
Qed.

(** The sibling of the reconciliation: the entry of a failed batch is
    kept unless every sub-batch succeeded. *)
Lemma retry_step_keeps_partial_failure text_dict info st looped :
  info ∈ BatchRecovery.failed_batches st ->
  let subs := (BatchRecovery.retry_sub_batches text_dict info).2 in
  let size := (BatchRecovery.retry_sub_batches text_dict info).1 in
  BatchRecovery.sub_batches_loop translate_hook batch_file_error state_file_error
    (batch_index info) size subs 0 0 st = inr looped ->
  looped.1 <> length subs ->
  retry_step translate_hook batch_file_error state_file_error text_dict info st
    = inr looped.2
  /\ info ∈ BatchRecovery.failed_batches looped.2.
Proof.
  intros Hin subs size El Hne. unfold retry_step.
  destruct (BatchRecovery.retry_sub_batches text_dict info) as [sz sb] eqn:E.
  subst subs size. csimpl in *. rewrite El.
  pose proof (recovery_sub_batches_failed _ _ _ _ _ _ _ El) as Hs.
  destruct looped as [count st']. csimpl in *.
  rewrite bool_decide_eq_false_2 by done.
  split; [done|]. by apply Hs.
Qed.

Lemma list_remove_elem `{EqDecision A} (x : A) l :
  x ∈ l -> exists r, list_remove x l = Some r /\ length l = S (length r).
Proof.
  induction l as [|y l IH]; csimpl.
  - intros H. by apply elem_of_nil in H.
  - intros H. destruct (decide (x = y)) as [->|Hne]; [eauto|].
    apply elem_of_cons in H as [?|H]; [done|].
    destruct (IH H) as (r & -> & Hl). exists (y :: r). csimpl. split; [done|lia].
Qed.

(** When every sub-batch succeeds, the entry of the batch is removed,
    and the state is written. *)
Lemma retry_step_removes_recovered text_dict info st looped :
  info ∈ BatchRecovery.failed_batches st ->
  let subs := (BatchRecovery.retry_sub_batches text_dict info).2 in
  let size := (BatchRecovery.retry_sub_batches text_dict info).1 in
  BatchRecovery.sub_batches_loop translate_hook batch_file_error state_file_error
    (batch_index info) size subs 0 0 st = inr looped ->
  looped.1 = length subs ->
  exists remaining,
    list_remove info (BatchRecovery.failed_batches looped.2) = Some remaining
    /\ length (BatchRecovery.failed_batches looped.2) = S (length remaining)
    /\ let st' := State (BatchRecovery.completed_batches looped.2) remaining
                        (BatchRecovery.translated_items looped.2) (calls looped.2) in
       retry_step translate_hook batch_file_error state_file_error text_dict info st
       = match state_file_error st' with
         | Some ex => inl ex
         | None => inr st'
         end.
Proof.
  intros Hin subs size El Heq. unfold retry_step.
  destruct (BatchRecovery.retry_sub_batches text_dict info) as [sz sb] eqn:E.
  subst subs size. csimpl in *. rewrite El.
  pose proof (recovery_sub_batches_failed _ _ _ _ _ _ _ El) as Hs.
  destruct looped as [count st1]. csimpl in *.
  rewrite bool_decide_eq_true_2 by done.
  destruct (list_remove_elem info (BatchRecovery.failed_batches st1)) as (r & Hr & Hl);
    [by apply Hs|].
  rewrite Hr. exists r. by split_and!.
Qed.

End BatchRecoveryFacts.


(** * Further properties of the code *)

(** ** The order and the filling of the batches *)

Section PartitionOrder.

Variable est : option pystr -> Z.
Variables M P : Z.

Lemma insert_desc_elem x y l : y ∈ insert_desc est x l <-> y = x \/ y ∈ l.
Proof. rewrite (insert_desc_perm est x l). apply elem_of_cons. Qed.

Lemma insert_desc_sorted x l :
  StronglySorted (desc est) l -> StronglySorted (desc est) (insert_desc est x l).
Proof.
  induction 1 as [|y l Hs IH Hy]; csimpl.
  - by repeat constructor.
  - destruct (Z.leb_spec (sort_key est y) (sort_key est x)) as [Hle|Hlt].
    + constructor; [by constructor|]. constructor; [done|].
      eapply Forall_impl; [exact Hy|]. unfold desc. intros z Hz. lia.
    + constructor; [done|]. apply Forall_forall. intros z Hz.
      apply insert_desc_elem in Hz as [->|Hz].
      * unfold desc. lia.
      * rewrite Forall_forall in Hy. by apply Hy.
Qed.

Lemma sort_desc_sorted l : StronglySorted (desc est) (sort_desc est l).
Proof.
  unfold sort_desc. induction l as [|x l IH]; csimpl; [constructor|].
  by apply insert_desc_sorted.
Qed.

Lemma insert_desc_stable e x l :
  filter (fun kv => sort_key est kv = e) (insert_desc est x l)
  = filter (fun kv => sort_key est kv = e) (x :: l).
Proof.
  induction l as [|y l IH]; csimpl; [done|].
  destruct (Z.leb_spec (sort_key est y) (sort_key est x)) as [Hle|Hlt]; [done|].
  rewrite filter_cons, IH, !filter_cons.
  destruct (decide (sort_key est y = e)), (decide (sort_key est x = e)); try done.
  lia.
Qed.

Lemma sort_desc_stable e l :
  filter (fun kv => sort_key est kv = e) (sort_desc est l)
  = filter (fun kv => sort_key est kv = e) l.
Proof.
  unfold sort_desc. induction l as [|x l IH]; csimpl; [done|].
  rewrite insert_desc_stable, !filter_cons, IH. done.
Qed.

(** X1: The batches, one after the other, list the items by descending
    estimate of their text, the items of equal estimate in the order of
    the dictionary; there are at most as many batches as items. *)
Theorem batches_in_sorted_order (input_dict : dict pystr) :
  NoDup (dict_keys input_dict) -> input_dict <> [] ->
  exists batches,
    split_dict_into_smart_batches est input_dict M P = inr batches
    /\ concat batches ≡ₚ input_dict
    /\ StronglySorted (desc est) (concat batches)
    /\ (forall e, filter (fun kv => sort_key est kv = e) (concat batches)
                  = filter (fun kv => sort_key est kv = e) input_dict)
    /\ (0 < length batches <= length input_dict)%nat.
Proof.
  intros Hnd Hne. exists (smart_batches est input_dict M P).
  destruct (smart_batches_spec est M P input_dict Hnd) as [Hc Hf].
  split_and!.
  - by apply split_nonempty.
  - rewrite Hc. apply sort_desc_perm.
  - rewrite Hc. apply sort_desc_sorted.
  - intros e. rewrite Hc. apply sort_desc_stable.
  - destruct (smart_batches est input_dict M P) as [|b bs]; [|csimpl; lia].
    csimpl in Hc. symmetry in Hc.
    apply (f_equal length) in Hc. rewrite (sort_desc_perm est input_dict) in Hc.
    destruct input_dict; [done|]. done.
  - assert (length input_dict = length (concat (smart_batches est input_dict M P)))
      as ->.
    { rewrite Hc. symmetry. apply Permutation_length, sort_desc_perm. }
    clear Hc. induction Hf as [|b bs [Hb _] _ IH]; csimpl; [lia|].
    rewrite length_app. destruct b; [done|]. csimpl. lia.
Qed.

Lemma closed_when_full_flush l b kv :
  closed_when_full est M P (l ++ [b]) ->
  M < batch_tokens est P b + item_tokens est kv ->
  closed_when_full est M P ((l ++ [b]) ++ [[kv]]).
Proof.
  intros Hc Hlt. induction l as [|a l IH]; csimpl.
  - split; [eauto|done].
  - csimpl in Hc. destruct Hc as [Ha Hc]. split; [|by apply IH].
    destruct l; csimpl in *; done.
Qed.

Lemma closed_when_full_grow l kv0 more kv :
  closed_when_full est M P (l ++ [kv0 :: more]) ->
  closed_when_full est M P (l ++ [(kv0 :: more) ++ [kv]]).
Proof.
  intros Hc. induction l as [|a l IH]; csimpl; [done|].
  csimpl in Hc. destruct Hc as [Ha Hc]. split; [|by apply IH].
  destruct l; csimpl in *; [|done].
  destruct Ha as (kv1 & more1 & [= <- <-] & Hlt). eauto.
Qed.

Lemma part_step_closed st kv :
  part_inv est M P st -> kv.1 ∉ dict_keys (current_batch st) ->
  closed_when_full est M P (batches st ++ [current_batch st]) ->
  (current_batch st = [] -> batches st = []) ->
  let st' := part_step est M P st kv in
  closed_when_full est M P (batches st' ++ [current_batch st'])
  /\ current_batch st' <> [].
Proof.
  destruct kv as [k v]. intros (Hb & Hcount & Hw) Hk Hc He. unfold part_step. csimpl.
  destruct (Z.ltb_spec M (current_token_count st + item_tokens est (k, v))) as [Hlt|Hle];
    destruct (decide (current_batch st = [])) as [Hcur|Hcur]; csimpl.
  - rewrite bool_decide_eq_true_2 by done. csimpl. rewrite Hcur, (He Hcur). done.
  - rewrite bool_decide_eq_false_2 by done. csimpl. split; [|done].
    apply closed_when_full_flush; [done|]. by rewrite <- Hcount.
  - rewrite Hcur, (He Hcur). done.
  - rewrite dict_set_fresh by done. split.
    + destruct (current_batch st) as [|kv0 more] eqn:E; [done|].
      by apply closed_when_full_grow.
    + by destruct (current_batch st).
Qed.

Lemma part_loop_closed items st :
  part_inv est M P st -> NoDup (dict_keys (current_batch st ++ items)) ->
  closed_when_full est M P (batches st ++ [current_batch st]) ->
  (current_batch st = [] -> batches st = []) ->
  let st' := foldl (part_step est M P) st items in
  closed_when_full est M P (batches st' ++ [current_batch st'])
  /\ (current_batch st' = [] -> batches st' = []).
Proof.
  revert st. induction items as [|kv items IH]; intros st Hinv Hnd Hc He; csimpl.
  - done.
  - unfold dict_keys in Hnd. rewrite fmap_app in Hnd. csimpl in Hnd.
    apply NoDup_app in Hnd as (Hcn & Hci & Hi).
    apply NoDup_cons in Hi as [Hkv Hi].
    assert (kv.1 ∉ dict_keys (current_batch st)) as Hfresh.
    { intros Hin. apply (Hci _ Hin), list_elem_of_here. }
    destruct (part_step_spec est M P st kv Hinv Hfresh) as (Hinv' & _ & b & Hcur & Hb).
    destruct (part_step_closed st kv Hinv Hfresh Hc He) as [Hc' Hne'].
    apply IH; try done.
    rewrite Hcur. unfold dict_keys. rewrite !fmap_app. csimpl.
    rewrite <- app_assoc. csimpl.
    apply NoDup_app. split_and!.
    + destruct Hb as [->| ->]; [apply NoDup_nil_2|done].
    + intros x Hx. destruct Hb as [->| ->]; [by apply elem_of_nil in Hx|].
      by apply Hci.
    + by apply NoDup_cons.
Qed.

Lemma smart_batches_closed (input_dict : dict pystr) :
  NoDup (dict_keys input_dict) ->
  closed_when_full est M P (smart_batches est input_dict M P).
Proof.
  intros Hnd. unfold smart_batches.
  destruct (part_loop_closed (sort_desc est input_dict) (PartState [] [] P))
    as [Hc He]; csimpl; try done.
  { unfold part_inv. csimpl. split_and!; [done|unfold batch_tokens; csimpl; lia|by left]. }
  { unfold dict_keys. by rewrite sort_desc_perm. }
  set (st := foldl _ _ _) in *.
  destruct (decide (current_batch st = [])) as [Hcur|Hcur].
  - rewrite bool_decide_eq_true_2 by done. by rewrite (He Hcur).
  - rewrite bool_decide_eq_false_2 by done. done.
Qed.

Lemma closed_when_full_lookup bs i b b' :
  closed_when_full est M P bs ->
  bs !! i = Some b -> bs !! S i = Some b' ->
  exists kv more, b' = kv :: more
    /\ M < batch_tokens est P b + item_tokens est kv.
Proof.
  revert i. induction bs as [|a bs IH]; intros i Hc Hi Hi'; [done|].
  csimpl in Hc. destruct Hc as [Ha Hc]. destruct i as [|i].
  - csimpl in Hi. csimpl in Hi'. injection Hi as ->. destruct bs as [|c bs]; [done|].
    csimpl in Hi'. by injection Hi' as ->.
  - csimpl in Hi. by apply (IH i).
Qed.

(** X2: The filling is greedy: a batch is closed only when the next item, the
    one that opens the batch after it, would take its request over the
    ceiling. *)
Theorem batch_closed_when_next_does_not_fit (input_dict : dict pystr)
    (i : nat) (b b' : dict pystr) :
  NoDup (dict_keys input_dict) ->
  smart_batches est input_dict M P !! i = Some b ->
  smart_batches est input_dict M P !! S i = Some b' ->
  exists kv more,
    b' = kv :: more
    /\ M < batch_tokens est P b + item_tokens est kv.
Proof.
  intros Hnd. apply closed_when_full_lookup. by apply smart_batches_closed.
Qed.

Lemma items_sum_app (l1 l2 : dict pystr) :
  foldr (fun kv acc => item_tokens est kv + acc) 0 (l1 ++ l2)
  = foldr (fun kv acc => item_tokens est kv + acc) 0 l1
    + foldr (fun kv acc => item_tokens est kv + acc) 0 l2.
Proof. induction l1 as [|x l1 IH]; csimpl; lia. Qed.

Lemma items_sum_perm (l1 l2 : dict pystr) :
  l1 ≡ₚ l2 ->
  foldr (fun kv acc => item_tokens est kv + acc) 0 l1
  = foldr (fun kv acc => item_tokens est kv + acc) 0 l2.
Proof. induction 1; csimpl; lia. Qed.

Lemma items_sum_nonneg (l : dict pystr) :
  (forall s, 0 <= est (Some s)) ->
  0 <= foldr (fun kv acc => item_tokens est kv + acc) 0 l.
Proof.
  intros Hpos. induction l as [|[k v] l IH]; cbn [foldr]; [lia|].
  assert (0 <= item_tokens est (k, v)); [|lia].
  unfold item_tokens. cbn [fst snd]. pose proof (Hpos k). pose proof (Hpos v). lia.
Qed.

(** X3: A dictionary whose request fits under the ceiling goes in one batch:
    all its items, in the sorted order. *)
Theorem small_input_one_batch (input_dict : dict pystr) :
  (forall s, 0 <= est (Some s)) ->
  NoDup (dict_keys input_dict) -> input_dict <> [] ->
  batch_tokens est P input_dict <= M ->
  split_dict_into_smart_batches est input_dict M P
    = inr [sort_desc est input_dict].
Proof.
  intros Hpos Hnd Hne Hfit. rewrite split_nonempty by done. f_equal.
  destruct (smart_batches_spec est M P input_dict Hnd) as [Hc Hf].
  pose proof (smart_batches_closed input_dict Hnd) as Hcl.
  destruct (smart_batches est input_dict M P) as [|b [|b' bs]].
  - csimpl in Hc. symmetry in Hc. apply (f_equal length) in Hc.
    rewrite (sort_desc_perm est input_dict) in Hc. by destruct input_dict.
  - csimpl in Hc. rewrite app_nil_r in Hc. by rewrite Hc.
  - exfalso. csimpl in Hcl. destruct Hcl as [(kv & more & -> & Hlt) _].
    unfold batch_tokens in Hfit, Hlt.
    rewrite <- (items_sum_perm _ _ (sort_desc_perm est input_dict)), <- Hc in Hfit.
    csimpl in Hfit. rewrite items_sum_app in Hfit. csimpl in Hfit.
    rewrite items_sum_app in Hfit.
    pose proof (items_sum_nonneg more Hpos). pose proof (items_sum_nonneg (concat bs) Hpos).
    lia.
Qed.

End PartitionOrder.

Lemma app13_estimate_nonneg (s : pystr) : 0 <= App13.estimate_tokens (Some s).
Proof.
  unfold App13.estimate_tokens. pose proof (len_nonneg s) as Hs.
  pose proof (Z.div_pos (len s) 4 Hs ltac:(lia)). lia.
Qed.

Lemma batches_in_sorted_order_witness :
  exists batches,
    split_dict_into_smart_batches App13.estimate_tokens
      [(py "a", py "hi"); (py "b", py "hello"); (py "c", py "yo")] 30 2
      = inr batches
    /\ concat batches ≡ₚ [(py "a", py "hi"); (py "b", py "hello"); (py "c", py "yo")]
    /\ StronglySorted (desc App13.estimate_tokens) (concat batches)
    /\ (forall e, filter (fun kv => sort_key App13.estimate_tokens kv = e)
                         (concat batches)
                  = filter (fun kv => sort_key App13.estimate_tokens kv = e)
                      [(py "a", py "hi"); (py "b", py "hello"); (py "c", py "yo")])
    /\ (0 < length batches <= 3)%nat.
Proof.
  apply (batches_in_sorted_order App13.estimate_tokens 30 2
           [(py "a", py "hi"); (py "b", py "hello"); (py "c", py "yo")]).
  - apply (bool_decide_unpack _). vm_compute. exact I.
  - discriminate.
Defined.

Lemma batch_closed_when_next_does_not_fit_witness :
  exists kv more,
    [(py "c", py "yo")] = kv :: more
    /\ 30 < batch_tokens App13.estimate_tokens 2
              [(py "b", py "hello"); (py "a", py "hi")]
            + item_tokens App13.estimate_tokens kv.
Proof.
  apply (batch_closed_when_next_does_not_fit App13.estimate_tokens 30 2
           [(py "a", py "hi"); (py "b", py "hello"); (py "c", py "yo")] 0).
  - apply (bool_decide_unpack _). vm_compute. exact I.
  - vm_compute. reflexivity.
  - vm_compute. reflexivity.
Defined.

Lemma small_input_one_batch_witness :
  split_dict_into_smart_batches App13.estimate_tokens
    [(py "a", py "hi"); (py "b", py "hello"); (py "c", py "yo")] 150000 2000
  = inr [sort_desc App13.estimate_tokens
           [(py "a", py "hi"); (py "b", py "hello"); (py "c", py "yo")]].
Proof.
  apply (small_input_one_batch App13.estimate_tokens 150000 2000
           [(py "a", py "hi"); (py "b", py "hello"); (py "c", py "yo")]).
  - apply app13_estimate_nonneg.
  - apply (bool_decide_unpack _). vm_compute. exact I.
  - discriminate.
  - apply Z.leb_le. vm_compute. reflexivity.
Defined.


(** ** Duplicates: one request per text, and the expansion of the result *)

Section DedupeMore.

Implicit Types (d : dict pystr) (k c : pystr).

(** Where the entries of the two results of [deduplicate_content] come
    from. *)
Lemma dedupe_facts (input_dict : dict pystr) :
  NoDup (dict_keys input_dict) ->
  let unique := (deduplicate_content input_dict).1 in
  let dup := (deduplicate_content input_dict).2 in
  (forall k v, (k, v) ∈ input_dict ->
     exists r, first_key_with v input_dict = Some r
               /\ dict_get k dup = Some r /\ dict_get r unique = Some v)
  /\ (forall k r, dict_get k dup = Some r ->
        exists v, (k, v) ∈ input_dict /\ first_key_with v input_dict = Some r)
  /\ (forall r v, dict_get r unique = Some v ->
        (r, v) ∈ input_dict /\ first_key_with v input_dict = Some r)
  /\ NoDup (dict_keys unique) /\ NoDup (dict_keys dup).
Proof.
  intros Hnd unique dup.
  destruct (dedupe_loop_spec (content_to_keys input_dict) ([], []))
    as (H1 & H2 & H3 & H4 & H5 & H6).
  fold (deduplicate_content input_dict) in H1, H2, H3, H4, H5, H6.
  fold unique in H3, H4, H5. fold dup in H1, H2, H6. cbn [fst snd] in *.
  assert (forall g k v, g ∈ content_to_keys input_dict -> k ∈ g.2 ->
            (k, v) ∈ input_dict -> g = (v, keys_with v input_dict)) as Hgroup.
  { intros [c ks] k v Hg Hk Hkv. csimpl in Hk.
    apply content_to_keys_elem in Hg as [-> _].
    apply keys_with_elem in Hk.
    apply (dict_get_elem_NoDup _ _ _ Hnd) in Hk, Hkv.
    rewrite Hk in Hkv. by injection Hkv as ->. }
  split_and!.
  - intros k v Hkv.
    assert (k ∈ dict_keys dup) as Hk.
    { apply H2. left. exists (v, keys_with v input_dict). split.
      - by eapply content_to_keys_group.
      - by apply keys_with_elem. }
    apply dict_get_is_Some in Hk as [r Hr]. exists r.
    destruct (H1 k r Hr) as [?|(g & Hg & Hkg & Hhd)]; [done|].
    rewrite (Hgroup g k v Hg Hkg Hkv) in Hhd. csimpl in Hhd.
    split_and!; [done|done|].
    pose proof (first_key_with_elem _ _ _ Hhd) as Hrv.
    assert (r ∈ dict_keys unique) as Hin.
    { apply H4. left. exists (v, keys_with v input_dict). split; [|done].
      by eapply content_to_keys_group. }
    apply dict_get_is_Some in Hin as [c Hc]. rewrite Hc. f_equal.
    destruct (H3 r c Hc) as [?|(g' & Hg' & Hhd' & <-)]; [done|].
    assert (r ∈ g'.2) as Hrg by (by apply head_Some_elem_of).
    by rewrite (Hgroup g' r v Hg' Hrg Hrv).
  - intros k r Hr.
    destruct (H1 k r Hr) as [?|([c ks] & Hg & Hkg & Hhd)]; [done|]. csimpl in *.
    apply content_to_keys_elem in Hg as [-> _]. apply keys_with_elem in Hkg.
    exists c. done.
  - intros r v Hr.
    destruct (H3 r v Hr) as [?|([c ks] & Hg & Hhd & Hc)]; [done|]. csimpl in *.
    subst c. apply content_to_keys_elem in Hg as [-> _].
    split; [|done]. by apply first_key_with_elem.
  - by apply H5, NoDup_nil_2.
  - by apply H6, NoDup_nil_2.
Qed.

Lemma NoDup_values {V} (l : dict V) :
  NoDup l.*1 ->
  (forall a b v, (a, v) ∈ l -> (b, v) ∈ l -> a = b) ->
  NoDup l.*2.
Proof.
  induction l as [|[k v] l IH]; csimpl; intros Hnd Hinj; [apply NoDup_nil_2|].
  apply NoDup_cons in Hnd as [Hk Hnd]. apply NoDup_cons. split.
  - intros Hv. apply list_elem_of_fmap in Hv as ([k' v'] & Hv' & Hin).
    csimpl in Hv'. subst v'. apply Hk.
    rewrite (Hinj k k' v); [|apply list_elem_of_here|by apply list_elem_of_further].
    apply list_elem_of_fmap. by exists (k', v).
  - apply IH; [done|]. intros a b w Ha Hb.
    apply (Hinj a b w); by apply list_elem_of_further.
Qed.

(** X4: The deduplicated dictionary holds every text of the input once: no
    text is sent for translation twice, and none is left out. *)
Theorem unique_texts_distinct (input_dict : dict pystr) :
  NoDup (dict_keys input_dict) ->
  let unique := (deduplicate_content input_dict).1 in
  NoDup unique.*2
  /\ (forall v, v ∈ unique.*2 <-> v ∈ input_dict.*2)
  /\ (length unique <= length input_dict)%nat.
Proof.
  intros Hnd unique.
  destruct (dedupe_facts input_dict Hnd) as (Ha & _ & Hc & Hu & _).
  fold unique in Ha, Hc, Hu.
  assert (NoDup unique.*2) as Hv.
  { apply NoDup_values; [done|]. intros a b v Hav Hbv.
    apply (dict_get_elem_NoDup _ _ _ Hu) in Hav, Hbv.
    apply Hc in Hav as [_ Hav]. apply Hc in Hbv as [_ Hbv]. congruence. }
  assert (forall v, v ∈ unique.*2 <-> v ∈ input_dict.*2) as Hsame.
  { intros v. rewrite !list_elem_of_fmap. split.
    - intros ([r v'] & -> & Hin). csimpl.
      apply (dict_get_elem_NoDup _ _ _ Hu), Hc in Hin as [Hin _].
      by exists (r, v').
    - intros ([k v'] & -> & Hin). csimpl.
      destruct (Ha k v' Hin) as (r & _ & _ & Hr).
      exists (r, v'). split; [done|]. by apply dict_get_Some_elem. }
  split_and!; [done|done|].
  rewrite <- (length_fmap snd unique), <- (length_fmap snd input_dict).
  apply submseteq_length, NoDup_submseteq; [done|]. intros v. apply Hsame.
Qed.

(** The loop of [reconstruct], from any dictionary [acc]. *)
Lemma reconstruct_loop (ut acc : dict json) (dup : dict pystr) k :
  NoDup (dict_keys dup) ->
  let full :=
    foldl (fun full kr =>
             match dict_get kr.2 ut with
             | Some v => if bool_decide (kr.1 <> kr.2) then dict_set kr.1 v full
                         else full
             | None => full
             end) acc dup in
  dict_get k full =
    match dict_get k dup with
    | Some r =>
        match dict_get r ut with
        | Some t => if decide (k = r) then dict_get k acc else Some t
        | None => dict_get k acc
        end
    | None => dict_get k acc
    end.
Proof.
  unfold dict_keys. revert acc.
  induction dup as [|[k0 r0] dup IH]; intros acc Hnd; csimpl; [done|].
  apply NoDup_cons in Hnd as [Hk0 Hnd]. rewrite (IH _ Hnd). clear IH.
  destruct (decide (k = k0)) as [->|Hne].
  - assert (dict_get k0 dup = None) as -> by (by apply dict_get_None).
    destruct (dict_get r0 ut) as [t|]; [|done].
    destruct (decide (k0 = r0)) as [->|Hkr].
    + by rewrite bool_decide_eq_false_2 by (intros H; by apply H).
    + rewrite bool_decide_eq_true_2 by done. rewrite dict_get_set.
      by rewrite decide_True.
  - assert (dict_get k
              match dict_get r0 ut with
              | Some v => if bool_decide (k0 <> r0) then dict_set k0 v acc else acc
              | None => acc
              end = dict_get k acc) as ->; [|done].
    destruct (dict_get r0 ut) as [t|]; [|done].
    case_bool_decide; [|done]. rewrite dict_get_set. by rewrite decide_False.
Qed.

(** X5: The full dictionary gives every fragment the translation of its
    representative, the first key that carries the same text; when every
    representative has a translation, every key of the input has one. *)
Theorem reconstruct_fans_out (input_dict : dict pystr)
    (unique_translated : dict json) :
  NoDup (dict_keys input_dict) -> NoDup (dict_keys unique_translated) ->
  let unique := (deduplicate_content input_dict).1 in
  let dup := (deduplicate_content input_dict).2 in
  let full := reconstruct unique_translated dup in
  (forall k v r t,
     (k, v) ∈ input_dict -> first_key_with v input_dict = Some r ->
     dict_get r unique_translated = Some t -> dict_get k full = Some t)
  /\ (forall k, k ∉ dict_keys input_dict ->
        dict_get k full = dict_get k unique_translated)
  /\ (dict_keys unique ⊆ dict_keys unique_translated ->
      dict_keys input_dict ⊆ dict_keys full).
Proof.
  intros Hnd Hut unique dup full.
  destruct (dedupe_facts input_dict Hnd) as (Ha & Hb & Hc & Hu & Hd).
  fold unique in Ha, Hc, Hu. fold dup in Ha, Hb, Hd.
  assert (forall k, dict_get k full =
            match dict_get k dup with
            | Some r =>
                match dict_get r unique_translated with
                | Some t => if decide (k = r) then dict_get k unique_translated
                            else Some t
                | None => dict_get k unique_translated
                end
            | None => dict_get k unique_translated
            end) as Hfull.
  { intros k. unfold full, reconstruct. rewrite reconstruct_loop by done.
    unfold dict_update at 1 2 3. fold (dict_update [] unique_translated).
    fold (dict_of_items unique_translated). by rewrite dict_of_items_NoDup. }
  assert (forall k v r t,
     (k, v) ∈ input_dict -> first_key_with v input_dict = Some r ->
     dict_get r unique_translated = Some t -> dict_get k full = Some t) as Hfan.
  { intros k v r t Hkv Hr Ht. rewrite Hfull.
    destruct (Ha k v Hkv) as (r' & Hr' & -> & _).
    assert (r' = r) as -> by congruence. rewrite Ht.
    destruct (decide (k = r)) as [->|]; done. }
  split_and!; [done| |].
  - intros k Hk. rewrite Hfull.
    destruct (dict_get k dup) as [r|] eqn:E; [|done].
    destruct (Hb k r E) as (v & Hkv & _). exfalso. apply Hk.
    apply list_elem_of_fmap. by exists (k, v).
  - intros Hall k Hk. apply list_elem_of_fmap in Hk as ([k' v] & -> & Hkv).
    csimpl. destruct (Ha k' v Hkv) as (r & Hfirst & _ & Hr).
    assert (r ∈ dict_keys unique_translated) as Hin.
    { apply Hall. apply dict_get_is_Some. eauto. }
    apply dict_get_is_Some in Hin as [t Ht].
    apply dict_get_is_Some. exists t. by apply (Hfan k' v r t).
Qed.

End DedupeMore.

Lemma unique_texts_distinct_witness :
  let input_dict := [(py "s1", py "Hello"); (py "s2", py "World"); (py "s3", py "Hello")] in
  let unique := (deduplicate_content input_dict).1 in
  NoDup unique.*2
  /\ (forall v, v ∈ unique.*2 <-> v ∈ input_dict.*2)
  /\ (length unique <= length input_dict)%nat.
Proof.
  apply (unique_texts_distinct
           [(py "s1", py "Hello"); (py "s2", py "World"); (py "s3", py "Hello")]).
  apply (bool_decide_unpack _). vm_compute. exact I.
Defined.

Lemma reconstruct_fans_out_witness :
  let input_dict := [(py "s1", py "Hello"); (py "s2", py "World"); (py "s3", py "Hello")] in
  let unique_translated := [(py "s1", JStr (py "Bonjour")); (py "s2", JStr (py "Monde"))] in
  let unique := (deduplicate_content input_dict).1 in
  let dup := (deduplicate_content input_dict).2 in
  let full := reconstruct unique_translated dup in
  (forall k v r t,
     (k, v) ∈ input_dict -> first_key_with v input_dict = Some r ->
     dict_get r unique_translated = Some t -> dict_get k full = Some t)
  /\ (forall k, k ∉ dict_keys input_dict ->
        dict_get k full = dict_get k unique_translated)
  /\ (dict_keys unique ⊆ dict_keys unique_translated ->
      dict_keys input_dict ⊆ dict_keys full).
Proof.
  apply (reconstruct_fans_out
           [(py "s1", py "Hello"); (py "s2", py "World"); (py "s3", py "Hello")]
           [(py "s1", JStr (py "Bonjour")); (py "s2", JStr (py "Monde"))]).
  - apply (bool_decide_unpack _). vm_compute. exact I.
  - apply (bool_decide_unpack _). vm_compute. exact I.
Defined.


(** ** The passes of [translate_batch] and the exceptions of [translate_text] *)

Section RunFacts.

Context {file : recovery_file}.
Variable json_loads : pystr -> exn + json.
Variable backend : nat -> request -> exn + pystr.

(** X6: [translate_batch] makes at most [max_retries + 1] calls, stops at the
    first pass that gives a result and returns it; it raises only after
    the last pass, with the exception of that pass. *)
Theorem translate_batch_passes (batch : dict pystr) (batch_index : pystr)
    (max_retries now : nat) :
  let rq := Request false batch_index batch in
  let res := translate_batch json_loads backend batch batch_index max_retries now in
  exists i,
    (i <= max_retries)%nat
    /\ res.2 = (now + S i)%nat
    /\ res.1 = attempt json_loads backend rq (now + i)%nat
    /\ (forall k, (k < i)%nat -> raises (attempt json_loads backend rq (now + k)%nat))
    /\ (raises res.1 -> i = max_retries).
Proof.
  intros rq res. unfold res, translate_batch. fold rq.
  destruct (attempts json_loads backend rq max_retries now) as [[ex|r] now'] eqn:E.
  - destruct (attempts_raises json_loads backend _ _ _ _ _ E) as (-> & Hlast & Hall).
    exists max_retries. csimpl. split_and!; [lia|done|done| |done].
    intros k Hk. apply Hall. lia.
  - destruct (attempts_returns json_loads backend _ _ _ _ _ E) as (i & Hi & Hr & -> & Hall).
    exists i. csimpl. split_and!; [done|done|done|done|]. intros [].
Qed.

(** X7: Once the recovery file to resume from is read (the model starts
    from the state that [json.load] returned), [translate_text] lets out
    two kinds of exception only: the exception of a write of the recovery
    file, and the [KeyError] of the duplicates map for a recovery state
    that holds translations and no such map; the latter is raised before
    any call and any write. *)
Theorem translate_text_raises_iff (text_dict : dict pystr)
    (resume : option recovery_state) (now : nat) (files : list recovery_state) :
  (forall st, resume = Some st -> translated_items st <> [] ->
     duplicates_map st = None ->
     translate_text json_loads backend text_dict resume now files
       = inl (KeyError (py "duplicates_map")))
  /\ (forall ex,
        translate_text json_loads backend text_dict resume now files = inl ex ->
        (exists st, dump_error st = Some ex)
        \/ (ex = KeyError (py "duplicates_map")
            /\ exists st, resume = Some st /\ translated_items st <> []
                          /\ duplicates_map st = None)).
Proof.
  split.
  - intros st -> Hti Hdm. unfold translate_text, prepare. csimpl.
    destruct (translated_items st); [done|]. by rewrite Hdm.
  - intros ex. apply translate_text_raises.
Qed.

End RunFacts.

(** ** The number of calls of a new job *)

Section DictMore.
Context {V : Type}.
Implicit Types (d : dict V) (k : pystr) (v : V).

Lemma dict_set_elem_inv x k v d : x ∈ dict_set k v d -> x = (k, v) \/ x ∈ d.
Proof.
  induction d as [|[k0 v0] d IH]; csimpl.
  - intros H. apply list_elem_of_singleton in H. by left.
  - destruct (decide (k = k0)) as [->|Hne]; intros H.
    + apply elem_of_cons in H as [->|H]; [by left|].
      right. by apply list_elem_of_further.
    + apply elem_of_cons in H as [->|H]; [right; apply list_elem_of_here|].
      destruct (IH H) as [?|?]; [by left|]. right. by apply list_elem_of_further.
Qed.

Lemma dict_update_elem_inv x d other :
  x ∈ dict_update d other -> x ∈ d \/ x ∈ other.
Proof.
  unfold dict_update. revert d.
  induction other as [|[k0 v0] o IH]; intros d; csimpl; [by left|].
  intros H. destruct (IH _ H) as [H'|H'].
  - apply dict_set_elem_inv in H' as [->|H']; [|by left].
    right. apply list_elem_of_here.
  - right. by apply list_elem_of_further.
Qed.

Lemma length_dict_set k v d : (length (dict_set k v d) <= S (length d))%nat.
Proof.
  induction d as [|[k0 v0] d IH]; csimpl; [lia|].
  destruct (decide (k = k0)); csimpl; lia.
Qed.

Lemma length_dict_update d other :
  (length (dict_update d other) <= length d + length other)%nat.
Proof.
  unfold dict_update. revert d.
  induction other as [|[k0 v0] o IH]; intros d; csimpl; [lia|].
  etransitivity; [apply IH|]. pose proof (length_dict_set k0 v0 d). lia.
Qed.

Lemma dict_of_items_filter (P : pystr * V -> Prop) `{!forall x, Decision (P x)}
    (l : dict V) :
  NoDup (dict_keys l) -> dict_of_items (filter P l) = filter P l.
Proof.
  intros Hnd. apply dict_of_items_NoDup.
  apply (sublist_NoDup _ (dict_keys l)); [exact Hnd|].
  unfold dict_keys. apply fmap_sublist, sublist_filter.
Qed.

End DictMore.

Lemma elem_of_concat {A} (x : A) (ls : list (list A)) :
  x ∈ concat ls <-> exists l, l ∈ ls /\ x ∈ l.
Proof.
  induction ls as [|l ls IH]; csimpl.
  - split; [intros H; by apply elem_of_nil in H|].
    intros (l & H & _). by apply elem_of_nil in H.
  - rewrite elem_of_app, IH. split.
    + intros [H|(l' & H1 & H2)].
      * exists l. split; [apply list_elem_of_here|done].
      * exists l'. split; [by apply list_elem_of_further|done].
    + intros (l' & H1 & H2). apply elem_of_cons in H1 as [->|H1]; [by left|].
      right. eauto.
Qed.

Lemma length_chunks_fuel {A} (fuel n : nat) (items : list A) :
  (length (chunks_fuel fuel n items) <= fuel)%nat.
Proof.
  revert items. induction fuel as [|f IH]; intros items; csimpl; [lia|].
  destruct items; csimpl; [lia|]. pose proof (IH (drop n (a :: items))). lia.
Qed.

Lemma unique_length_le (input_dict : dict pystr) :
  NoDup (dict_keys input_dict) ->
  (length (deduplicate_content input_dict).1 <= length input_dict)%nat.
Proof.
  intros Hnd. destruct (dedupe_facts input_dict Hnd) as (_ & _ & Hc & Hu & _).
  rewrite <- (length_fmap fst (deduplicate_content input_dict).1),
          <- (length_fmap fst input_dict).
  apply submseteq_length, NoDup_submseteq; [done|]. intros r Hr.
  apply dict_get_is_Some in Hr as [v Hv]. apply Hc in Hv as [Hv _].
  apply list_elem_of_fmap. by exists (r, v).
Qed.

Section CallBudget.

Context {file : recovery_file}.
Variable json_loads : pystr -> exn + json.
Variable backend : nat -> request -> exn + pystr.

Lemma attempts_clock rq n now :
  (now < (attempts json_loads backend rq n now).2 <= now + S n)%nat.
Proof.
  revert now. induction n as [|n IH]; intros now; csimpl.
  - destruct (attempt json_loads backend rq now); csimpl; lia.
  - destruct (attempt json_loads backend rq now); csimpl; [|lia].
    pose proof (IH (S now)). lia.
Qed.

(** The keys held by the entries of [failed_batches]. *)
Local Abbreviation failed_keys j :=
  (sum_list_with (fun fb => length (fb_keys fb)) (failed_batches (rstate j))).

Lemma translating_step_clock i batch j j' :
  translating_step json_loads backend i batch j = inr j' ->
  (clock j <= clock j' <= clock j + 3)%nat
  /\ (failed_keys j' <= failed_keys j + length batch)%nat.
Proof.
  intros H. apply translating_step_inr in H as [[_ ->]|[_ H]]; [lia|].
  unfold translate_batch in H.
  pose proof (attempts_clock (Request false (str_of_nat (i + 1)) batch) 2 (clock j)) as Hc.
  destruct (attempts json_loads backend _ _ _) as [[ex|r] now']; csimpl in *.
  - destruct H as [_ ->]. csimpl.
    rewrite sum_list_with_app. csimpl. unfold dict_keys. rewrite length_fmap. lia.
  - destruct H as [[_ ->]|(ex & _ & _ & ->)]; csimpl; [lia|].
    rewrite sum_list_with_app. csimpl. unfold dict_keys. rewrite length_fmap. lia.
Qed.

Lemma translating_clock batches i j j' :
  translating json_loads backend batches i j = inr j' ->
  (clock j <= clock j' <= clock j + 3 * length batches)%nat
  /\ (failed_keys j' <= failed_keys j + sum_list_with length batches)%nat.
Proof.
  revert i j. induction batches as [|b rest IH]; intros i j; csimpl;
    [intros [= <-]; lia|].
  destruct (translating_step json_loads backend i b j) as [ex|j1] eqn:E; [done|].
  intros H. destruct (translating_step_clock _ _ _ _ E) as [H1 H2].
  destruct (IH _ _ H) as [H3 H4].
  lia.
Qed.

Lemma sub_batches_loop_clock id subs i j :
  let j' := sub_batches_loop json_loads backend id subs i j in
  (clock j <= clock j' <= clock j + 4 * length subs)%nat.
Proof.
  cbv zeta. revert i j. induction subs as [|b rest IH]; intros i j; csimpl; [lia|].
  pose proof (IH (S i) (sub_batch_step json_loads backend id i b j)) as H.
  assert (clock j <= clock (sub_batch_step json_loads backend id i b j)
          <= clock j + 4)%nat; [|lia].
  unfold sub_batch_step, translate_batch.
  pose proof (attempts_clock (Request false (id ++ py "." ++ str_of_nat (i + 1)) b)
                3 (clock j)) as Hc.
  destruct (attempts json_loads backend _ _ _) as [[ex|r] now']; csimpl in *; lia.
Qed.

Lemma length_retry_sub_batches text_dict keys :
  (length (retry_sub_batches text_dict keys) <= length keys)%nat.
Proof.
  unfold retry_sub_batches. rewrite length_fmap. unfold chunks.
  etransitivity; [apply length_chunks_fuel|].
  unfold dict_of_items. etransitivity; [apply length_dict_update|]. csimpl.
  induction keys as [|k keys IH]; csimpl; [lia|].
  destruct (dict_get k text_dict); csimpl; lia.
Qed.

Lemma reconciling_clock text_dict snapshot j j' :
  reconciling json_loads backend text_dict snapshot j = inr j' ->
  (clock j <= clock j'
   <= clock j + 4 * sum_list_with (fun fb => length (fb_keys fb)) snapshot)%nat.
Proof.
  revert j. induction snapshot as [|fb rest IH]; intros j; csimpl.
  - intros [= <-]. lia.
  - unfold reconcile_step.
    pose proof (sub_batches_loop_clock (fb_batch_id fb)
                  (retry_sub_batches text_dict (fb_keys fb)) 0 j) as Hc.
    pose proof (length_retry_sub_batches text_dict (fb_keys fb)) as Hl.
    cbv zeta in Hc.
    destruct (list_remove fb _); [|done].
    destruct (uncaught _) as [ex|j1] eqn:Eu; [done|].
    apply uncaught_inr in Eu as [_ ->].
    intros H. apply IH in H. csimpl in H. lia.
Qed.

Lemma final_sweep_clock text_dict full j :
  let j' := (final_sweep json_loads backend text_dict full j).2 in
  (clock j <= clock j' <= S (clock j))%nat.
Proof.
  cbv zeta. unfold final_sweep. destruct (missing_dict text_dict full); csimpl; [lia|].
  destruct (attempt json_loads backend _ _); csimpl; lia.
Qed.

(** The run of a new job that gets as far as its batches. *)
Lemma new_job_inr text_dict now files result j :
  translate_text json_loads backend text_dict None now files = inr (result, j) ->
  let unique := (deduplicate_content text_dict).1 in
  let duplicates := (deduplicate_content text_dict).2 in
  let j1 := Job (RecoveryState [] [] [] (Some duplicates)) [] now
                [RecoveryState [] [] [] (Some duplicates);
                 RecoveryState [] [] [] None] in
  let j1 := Job (rstate j1) (unique_translated_dict j1) (clock j1)
                (disk j1 ++ files) in
  dump_error (RecoveryState [] [] [] None) = None
  /\ dump_error (RecoveryState [] [] [] (Some duplicates)) = None
  /\ match unique with
     | [] => (result, j) = final_sweep json_loads backend text_dict [] j1
     | _ =>
         exists full j4,
           run_batches json_loads backend text_dict duplicates
             (smart_batches App13.estimate_tokens unique 150000 2000) j1
           = inr (full, j4)
           /\ (result, j) = final_sweep json_loads backend text_dict full j4
     end.
Proof.
  intros Hrun. cbv zeta. unfold translate_text in Hrun.
  destruct (setup_recovery_system None now files) as [e|j0] eqn:E0; [done|].
  apply setup_recovery_system_inr in E0 as [Hd0 ->].
  destruct (prepare text_dict _) as [e|[[unique duplicates] j1]] eqn:Ep; [done|].
  apply prepare_inr in Ep as [(_ & Hdd & Hd1 & ->)|(Hne & _)]; [|done].
  csimpl in *. rewrite <- Hdd. csimpl. split_and!; [done|done|].
  revert Hrun.
  assert (filter (fun kv : pystr * pystr => dict_in kv.1 ([] : dict json) = false) unique
          = unique) as ->.
  { clear. induction unique as [|kv u IH]; [done|]. rewrite filter_cons_True by done.
    by rewrite IH. }
  destruct unique as [|kv rest] eqn:Eu; [by intros [= <-]|].
  rewrite split_nonempty by done.
  destruct (run_batches json_loads backend text_dict duplicates _ _)
    as [e|[full j4]]; [done|].
  intros [= <-]. eauto.
Qed.

(** X8: A new job that returns has made at most seven calls for each
    distinct text (three passes for its batch, four for its sub-batch when
    the batch failed), and one more for the missing keys. *)
Theorem new_job_call_budget (text_dict : dict pystr) (now : nat)
    (files : list recovery_state) (result : dict json) (j : job) :
  NoDup (dict_keys text_dict) ->
  translate_text json_loads backend text_dict None now files = inr (result, j) ->
  let distinct := length (deduplicate_content text_dict).1 in
  (now <= clock j <= now + 7 * distinct + 1)%nat
  /\ (distinct <= length text_dict)%nat.
Proof.
  intros Hnd Hrun distinct.
  pose proof (unique_length_le text_dict Hnd) as Hlen. fold distinct in Hlen.
  split; [|done].
  destruct (dedupe_facts text_dict Hnd) as (_ & _ & _ & Hu & _).
  apply new_job_inr in Hrun as (_ & _ & Hrun). cbv zeta in Hrun.
  unfold distinct in *. clear distinct.
  destruct (deduplicate_content text_dict) as [unique duplicates]. csimpl in *.
  destruct unique as [|kv rest] eqn:Eu.
  { pose proof (final_sweep_clock text_dict []
                  (Job (RecoveryState [] [] [] (Some duplicates)) [] now
                     (RecoveryState [] [] [] (Some duplicates)
                        :: RecoveryState [] [] [] None :: files))) as Hc.
    cbv zeta in Hc. rewrite <- Hrun in Hc. csimpl in Hc. lia. }
  rewrite <- Eu in *. destruct Hrun as (full & j4 & Hrb & Hrun).
  destruct (smart_batches_spec App13.estimate_tokens 150000 2000 unique Hu) as [Hc Hf].
  set (bs := smart_batches App13.estimate_tokens unique 150000 2000) in *.
  assert (sum_list_with length bs = length unique) as Hsum.
  { rewrite <- (Permutation_length (sort_desc_perm App13.estimate_tokens unique)), <- Hc.
    clear. induction bs as [|b bs IH]; csimpl; [done|]. rewrite length_app. lia. }
  assert (length bs <= length unique)%nat as Hbs.
  { rewrite <- Hsum. clear -Hf. induction Hf as [|b bs [Hb _] _ IH]; csimpl; [lia|].
    destruct b; [done|]. csimpl. lia. }
  unfold run_batches in Hrb. csimpl in Hrb.
  destruct (translating json_loads backend bs 0 _) as [e|j2] eqn:E2; [done|].
  destruct (translating_clock _ _ _ _ E2) as [Hc1 Hw1]. csimpl in Hc1. csimpl in Hw1.
  destruct (reconciling json_loads backend text_dict (failed_batches (rstate j2)) j2)
    as [e|j3] eqn:E3; [done|].
  injection Hrb as <- <-.
  pose proof (reconciling_clock _ _ _ _ E3) as Hc3.
  pose proof (final_sweep_clock text_dict
                (reconstruct (unique_translated_dict j3) duplicates) j3) as Hc4.
  cbv zeta in Hc4. rewrite <- Hrun in Hc4. csimpl in Hc4. lia.
Qed.

End CallBudget.

Lemma new_job_call_budget_witness :
  let text_dict := [(py "s1", py "Hello"); (py "s2", py "World"); (py "s3", py "Hello")] in
  let distinct := length (deduplicate_content text_dict).1 in
  exists result j,
    translate_text RefJson.json_loads Stub.faithful text_dict None 0 [] = inr (result, j)
    /\ (0 <= clock j <= 0 + 7 * distinct + 1)%nat
    /\ (distinct <= length text_dict)%nat.
Proof.
  eexists _, _. split; [vm_compute; reflexivity|].
  eapply (new_job_call_budget RefJson.json_loads Stub.faithful
            [(py "s1", py "Hello"); (py "s2", py "World"); (py "s3", py "Hello")] 0 []).
  - apply (bool_decide_unpack _). vm_compute. exact I.
  - vm_compute. reflexivity.
Defined.

(** ** What a new job returns when the backend translates *)

Section Soundness.

Context {file : recovery_file}.
Variable json_loads : pystr -> exn + json.
Variable backend : nat -> request -> exn + pystr.

(** The translation of a text. *)
Variable F : pystr -> json.

Implicit Types (text_dict : dict pystr) (j : job).

Lemma translations_of_nil text_dict : translations_of F text_dict [].
Proof. intros k t H. by apply elem_of_nil in H. Qed.

Lemma translations_of_update text_dict d other :
  translations_of F text_dict d -> translations_of F text_dict other ->
  translations_of F text_dict (dict_update d other).
Proof.
  intros Hd Ho k t H. apply dict_update_elem_inv in H as [H|H]; auto.
Qed.

Lemma translations_of_sub text_dict payload r :
  sub_dict payload text_dict -> translations_of F payload r ->
  translations_of F text_dict r.
Proof.
  intros Hs Hr k t H. destruct (Hr k t H) as (v & Hv & ->). exists v. auto.
Qed.

(** The answers of the backend, once decoded, hold translations of the
    texts of the request, under their keys. *)
Hypothesis answers_translate :
  forall rq now r,
    attempt json_loads backend rq now = inr r ->
    translations_of F (rq_payload rq) r.

Lemma translate_batch_sound text_dict batch idx n now r now' :
  sub_dict batch text_dict ->
  translate_batch json_loads backend batch idx n now = (inr r, now') ->
  translations_of F text_dict r.
Proof.
  intros Hs H. unfold translate_batch in H.
  apply attempts_returns in H as (i & _ & H & _).
  apply answers_translate in H. by apply (translations_of_sub _ batch).
Qed.

Lemma translating_sound text_dict batches i j j' :
  Forall (fun b => sub_dict b text_dict) batches ->
  translating json_loads backend batches i j = inr j' ->
  translations_of F text_dict (unique_translated_dict j) ->
  translations_of F text_dict (unique_translated_dict j').
Proof.
  intros Hb. revert i j. induction Hb as [|b rest Hb _ IH]; intros i j; csimpl;
    [by intros [= <-]|].
  destruct (translating_step json_loads backend i b j) as [e|j1] eqn:Es; [done|].
  intros H Hj. apply (IH _ _ H).
  apply translating_step_inr in Es as [[_ ->]|[_ Es]]; [done|].
  destruct (translate_batch json_loads backend _ _ _ _) as [[ex|r] now'] eqn:E.
  - destruct Es as [_ ->]. done.
  - assert (translations_of F text_dict (dict_update (unique_translated_dict j) r)).
    { apply translations_of_update; [done|]. by eapply translate_batch_sound. }
    by destruct Es as [[_ ->]|(ex & _ & _ & ->)].
Qed.

Lemma sub_batches_loop_sound text_dict id subs i j :
  Forall (fun b => sub_dict b text_dict) subs ->
  translations_of F text_dict (unique_translated_dict j) ->
  translations_of F text_dict
    (unique_translated_dict (sub_batches_loop json_loads backend id subs i j)).
Proof.
  intros Hb. revert i j. induction Hb as [|b rest Hb _ IH]; intros i j Hj; csimpl; [done|].
  apply IH. unfold sub_batch_step.
  destruct (translate_batch json_loads backend _ _ _ _) as [[ex|r] now'] eqn:E; csimpl; [done|].
  apply translations_of_update; [done|]. by eapply translate_batch_sound.
Qed.

Lemma retry_sub_batches_sub text_dict keys :
  Forall (fun b => sub_dict b text_dict) (retry_sub_batches text_dict keys).
Proof.
  unfold retry_sub_batches. set (retry_batch := dict_of_items _).
  assert (forall k v, (k, v) ∈ retry_batch -> dict_get k text_dict = Some v) as Hr.
  { intros k v H. unfold retry_batch, dict_of_items in H.
    apply dict_update_elem_inv in H as [H|H]; [by apply elem_of_nil in H|].
    apply list_elem_of_omap in H as (k' & _ & H).
    destruct (dict_get k' text_dict) eqn:E; [|done]. by injection H as -> ->. }
  apply Forall_fmap, Forall_forall. intros c Hc k v Hkv. csimpl in Hkv.
  apply dict_get_Some_elem in Hkv. unfold dict_of_items in Hkv.
  apply dict_update_elem_inv in Hkv as [H|H]; [by apply elem_of_nil in H|].
  apply Hr. rewrite <- (chunks_concat (Nat.max 5 (length retry_batch / 4)) retry_batch) by lia.
  apply elem_of_concat. eauto.
Qed.

Lemma reconciling_sound text_dict snapshot j j' :
  reconciling json_loads backend text_dict snapshot j = inr j' ->
  translations_of F text_dict (unique_translated_dict j) ->
  translations_of F text_dict (unique_translated_dict j').
Proof.
  revert j. induction snapshot as [|fb rest IH]; intros j; csimpl.
  - by intros [= <-].
  - unfold reconcile_step. destruct (list_remove fb _); [|done].
    destruct (uncaught _) as [ex|j1] eqn:Eu; [done|].
    apply uncaught_inr in Eu as [_ ->].
    intros H Hj. apply (IH _ H). csimpl.
    apply sub_batches_loop_sound; [apply retry_sub_batches_sub|done].
Qed.

Lemma reconstruct_sound text_dict ut :
  NoDup (dict_keys text_dict) ->
  translations_of F text_dict ut ->
  translations_of F text_dict
    (reconstruct ut (deduplicate_content text_dict).2).
Proof.
  intros Hnd Hut.
  destruct (dedupe_facts text_dict Hnd) as (_ & Hb & _ & _ & Hd).
  unfold reconstruct.
  set (dup := (deduplicate_content text_dict).2) in *.
  assert (forall k r, (k, r) ∈ dup -> exists v,
            dict_get k text_dict = Some v /\ dict_get r text_dict = Some v) as Hdup.
  { intros k r H. apply (dict_get_elem_NoDup _ _ _ Hd), Hb in H as (v & Hkv & Hr).
    exists v. split; apply dict_get_elem_NoDup; try done.
    by apply first_key_with_elem. }
  clearbody dup. clear Hb Hd.
  assert (translations_of F text_dict (dict_update [] ut)) as Hacc.
  { apply translations_of_update; [apply translations_of_nil|done]. }
  revert Hacc. generalize (dict_update [] ut). 
  induction dup as [|[k r] dup IH]; intros acc Hacc; csimpl; [done|].
  apply IH.
  - intros k' r' H. apply Hdup. by apply list_elem_of_further.
  - destruct (dict_get r ut) as [t|] eqn:E; [|done].
    case_bool_decide; [|done]. intros k' t' Hin.
    apply dict_set_elem_inv in Hin as [[= -> ->]|Hin]; [|by apply Hacc].
    destruct (Hdup k r) as (v & Hk & Hr); [apply list_elem_of_here|].
    apply dict_get_Some_elem, Hut in E as (v' & Hv' & ->).
    exists v. split; [done|]. congruence.
Qed.

Lemma missing_dict_sub text_dict full :
  NoDup (dict_keys text_dict) -> sub_dict (missing_dict text_dict full) text_dict.
Proof.
  intros Hnd k v H. unfold missing_dict in H.
  rewrite dict_of_items_filter in H by done.
  apply dict_get_Some_elem, list_elem_of_filter in H as [_ H].
  by apply dict_get_elem_NoDup.
Qed.

Lemma final_sweep_sound text_dict full j :
  NoDup (dict_keys text_dict) ->
  translations_of F text_dict full ->
  translations_of F text_dict (final_sweep json_loads backend text_dict full j).1.
Proof.
  intros Hnd Hfull. unfold final_sweep.
  pose proof (missing_dict_sub text_dict full Hnd) as Hs.
  destruct (missing_dict text_dict full) as [|kv rest] eqn:Em; [done|].
  destruct (attempt json_loads backend _ _) as [ex|r] eqn:E; csimpl; [done|].
  apply translations_of_update; [done|].
  apply answers_translate in E. by apply (translations_of_sub _ (kv :: rest)).
Qed.

Lemma new_job_sound (text_dict : dict pystr) (now : nat)
    (files : list recovery_state) (result : dict json) (j : job) :
  NoDup (dict_keys text_dict) ->
  translate_text json_loads backend text_dict None now files = inr (result, j) ->
  forall k t, (k, t) ∈ result ->
    exists v, dict_get k text_dict = Some v /\ t = F v.
Proof.
  intros Hnd Hrun.
  destruct (dedupe_facts text_dict Hnd) as (_ & _ & Hc & Hu & _).
  pose proof (reconstruct_sound text_dict) as Hrec.
  apply new_job_inr in Hrun as (_ & _ & Hrun). cbv zeta in Hrun.
  destruct (deduplicate_content text_dict) as [unique duplicates]. csimpl in *.
  destruct unique as [|kv rest] eqn:Eu.
  { pose proof (final_sweep_sound text_dict []
                  (Job (RecoveryState [] [] [] (Some duplicates)) [] now
                     (RecoveryState [] [] [] (Some duplicates)
                        :: RecoveryState [] [] [] None :: files))
                  Hnd (translations_of_nil _)) as Hs.
    by rewrite <- Hrun in Hs. }
  rewrite <- Eu in *. destruct Hrun as (full & j4 & Hrb & Hrun).
  destruct (smart_batches_spec App13.estimate_tokens 150000 2000 unique Hu) as [Hcat _].
  set (bs := smart_batches App13.estimate_tokens unique 150000 2000) in *.
  assert (Forall (fun b => sub_dict b text_dict) bs) as Hbs.
  { apply Forall_forall. intros b Hb k v Hkv. apply dict_get_Some_elem in Hkv.
    assert ((k, v) ∈ unique) as Hin.
    { rewrite <- (sort_desc_perm App13.estimate_tokens unique), <- Hcat.
      apply elem_of_concat. eauto. }
    apply (dict_get_elem_NoDup _ _ _ Hu), Hc in Hin as [Hin _].
    by apply dict_get_elem_NoDup. }
  unfold run_batches in Hrb. csimpl in Hrb.
  destruct (translating json_loads backend bs 0 _) as [e|j2] eqn:E2; [done|].
  pose proof (translating_sound text_dict bs 0 _ _ Hbs E2 (translations_of_nil _)) as H2.
  destruct (reconciling json_loads backend text_dict (failed_batches (rstate j2)) j2)
    as [e|j3] eqn:E3; [done|].
  injection Hrb as <- <-.
  pose proof (reconciling_sound _ _ _ _ E3 H2) as H3.
  pose proof (final_sweep_sound text_dict _ j3 Hnd (Hrec _ Hnd H3)) as H4.
  by rewrite <- Hrun in H4.
Qed.

(** X9: A new job that returns, returns only translations: whatever failed
    on the way, every value of the result is the translation of the text
    that [text_dict] holds under the same key, also for the keys that were
    never sent because another key carries the same text. *)
Theorem new_job_returns_translations (text_dict : dict pystr) (now : nat)
    (files : list recovery_state) (result : dict json) (j : job) :
  NoDup (dict_keys text_dict) ->
  translate_text json_loads backend text_dict None now files = inr (result, j) ->
  forall k t, (k, t) ∈ result ->
    exists v, dict_get k text_dict = Some v /\ t = F v.
Proof. apply new_job_sound. Qed.

End Soundness.

Lemma new_job_returns_translations_witness :
  let text_dict := [(py "s1", py "Hello"); (py "s2", py "World"); (py "s3", py "Hello")] in
  exists result j,
    translate_text RefJson.json_loads
      (answering_only [(py "s1", py "Hello"); (py "s2", py "World")])
      text_dict None 0 [] = inr (result, j)
    /\ forall k t, (k, t) ∈ result ->
         exists v, dict_get k text_dict = Some v /\ t = JStr (Stub.tr v).
Proof.
  assert (forall rq now r,
            attempt RefJson.json_loads
              (answering_only [(py "s1", py "Hello"); (py "s2", py "World")]) rq now
              = inr r ->
            translations_of (fun v => JStr (Stub.tr v)) (rq_payload rq) r) as Hans.
  { intros [final idx payload] now r. unfold attempt, answering_only. csimpl.
    destruct (decide (payload = [(py "s1", py "Hello"); (py "s2", py "World")]))
      as [->|Hne]; [|done].
    vm_compute. intros [= <-] k t Hin.
    apply elem_of_cons in Hin as [[= -> ->]|Hin];
      [eexists; split; vm_compute; reflexivity|].
    apply elem_of_cons in Hin as [[= -> ->]|Hin];
      [eexists; split; vm_compute; reflexivity|].
    by apply elem_of_nil in Hin. }
  eexists _, _. split; [vm_compute; reflexivity|].
  eapply (new_job_returns_translations RefJson.json_loads
            (answering_only [(py "s1", py "Hello"); (py "s2", py "World")])
            (fun v => JStr (Stub.tr v)) Hans
            [(py "s1", py "Hello"); (py "s2", py "World"); (py "s3", py "Hello")]
            0 []).
  - apply (bool_decide_unpack _). vm_compute. exact I.
  - vm_compute. reflexivity.
Defined.


(** ** Decimal numbers *)

Lemma nat_of_digits_acc (d : Decimal.uint) (acc : nat) :
  foldl (fun acc c => (10 * acc + N.to_nat (c - 48))%nat) acc (uint_digits d)
  = Nat.of_uint_acc d acc.
Proof.
  revert acc. induction d; intros acc; cbn [uint_digits foldl Nat.of_uint_acc];
    [done|rewrite IHd, Nat.tail_mul_spec; f_equal; csimpl; lia..].
Qed.

(** [int(str(n)) == n] *)
Lemma nat_of_digits_str (n : nat) : nat_of_digits (str_of_nat n) = n.
Proof.
  unfold nat_of_digits, str_of_nat. rewrite nat_of_digits_acc.
  apply DecimalNat.Unsigned.of_to.
Qed.

Lemma str_of_nat_inj (n m : nat) : str_of_nat n = str_of_nat m -> n = m.
Proof.
  intros H. apply (f_equal nat_of_digits) in H. by rewrite !nat_of_digits_str in H.
Qed.

(** ** The last call, for the missing keys *)

Section Sweep.

Context {file : recovery_file}.
Variable json_loads : pystr -> exn + json.
Variable backend : nat -> request -> exn + pystr.

Lemma missing_dict_get text_dict (full : dict json) k v :
  NoDup (dict_keys text_dict) ->
  dict_get k (missing_dict text_dict full) = Some v
  <-> dict_get k text_dict = Some v /\ k ∉ dict_keys full.
Proof.
  intros Hnd. unfold missing_dict. rewrite dict_of_items_filter by done.
  assert (NoDup (dict_keys (filter (fun kv : pystr * pystr => dict_in kv.1 full = false)
                              text_dict))) as Hf.
  { apply (sublist_NoDup _ (dict_keys text_dict)); [done|].
    unfold dict_keys. apply fmap_sublist, sublist_filter. }
  split.
  - intros H. apply dict_get_Some_elem, list_elem_of_filter in H as [Hk H].
    csimpl in Hk. apply dict_in_false in Hk. split; [|done].
    by apply dict_get_elem_NoDup.
  - intros [H Hk]. apply dict_get_elem_NoDup; [done|].
    apply list_elem_of_filter. split; [by apply dict_in_false|].
    by apply dict_get_Some_elem.
Qed.

Lemma missing_dict_nil text_dict (full : dict json) :
  missing_dict text_dict full = [] <-> dict_keys text_dict ⊆ dict_keys full.
Proof.
  unfold missing_dict, dict_of_items. split.
  - intros H k Hk. apply list_elem_of_fmap in Hk as ([k' v] & -> & Hin). csimpl.
    destruct (decide (k' ∈ dict_keys full)) as [|Hn]; [done|]. exfalso.
    assert ((k', v) ∈ filter (fun kv : pystr * pystr => dict_in kv.1 full = false)
                        text_dict) as Hf.
    { apply list_elem_of_filter. split; [by apply dict_in_false|done]. }
    destruct (filter _ text_dict) as [|[k0 v0] rest]; [by apply elem_of_nil in Hf|].
    unfold dict_update in H. csimpl in H.
    assert (k0 ∈ dict_keys (foldl (fun acc kv => dict_set kv.1 kv.2 acc)
                              [(k0, v0)] rest)) as Hk0.
    { apply (dict_keys_update_subseteq [(k0, v0)] rest). apply list_elem_of_here. }
    rewrite H in Hk0. by apply elem_of_nil in Hk0.
  - intros Hall.
    assert (filter (fun kv : pystr * pystr => dict_in kv.1 full = false) text_dict = [])
      as ->; [|done].
    induction text_dict as [|[k v] rest IH]; [done|].
    rewrite filter_cons_False.
    + apply IH. intros x Hx. apply Hall. by apply list_elem_of_further.
    + csimpl. intros Hk. apply dict_in_false in Hk. apply Hk, Hall, list_elem_of_here.
Qed.

(** X10: The last call asks for the fragments of [text_dict] that have no
    translation yet, with their texts, and for nothing else; there is no
    call when nothing is missing.  An answer that holds every key asked
    completes the result; an exception is dropped and the result is
    returned as it was. *)
Theorem final_sweep_spec (text_dict : dict pystr) (full : dict json) (j : job) :
  NoDup (dict_keys text_dict) ->
  let missing := missing_dict text_dict full in
  let rq := Request true [] missing in
  let out := final_sweep json_loads backend text_dict full j in
  (forall k v, dict_get k missing = Some v
               <-> dict_get k text_dict = Some v /\ k ∉ dict_keys full)
  /\ (dict_keys text_dict ⊆ dict_keys full -> out = (full, j))
  /\ (~ dict_keys text_dict ⊆ dict_keys full ->
      clock out.2 = S (clock j)
      /\ (forall final_batch,
            attempt json_loads backend rq (clock j) = inr final_batch ->
            out.1 = dict_update full final_batch
            /\ (dict_keys missing ⊆ dict_keys final_batch ->
                dict_keys text_dict ⊆ dict_keys out.1))
      /\ (raises (attempt json_loads backend rq (clock j)) -> out.1 = full)).
Proof.
  intros Hnd missing rq out. split_and!.
  - intros k v. by apply missing_dict_get.
  - intros Hall. apply missing_dict_nil in Hall. unfold out, final_sweep.
    by rewrite Hall.
  - intros Hn. rewrite <- missing_dict_nil in Hn. fold missing in Hn.
    unfold out, final_sweep. fold missing.
    destruct missing as [|kv rest] eqn:Em; [done|]. fold rq.
    destruct (attempt json_loads backend rq (clock j)) as [ex|r]; csimpl.
    + split_and!; [done|done|done].
    + split_and!; [done| |intros []].
      intros fb [= <-]. split; [done|]. intros Hcov k Hk.
      apply dict_keys_update_elem.
      destruct (decide (k ∈ dict_keys full)) as [|Hkf]; [by left|]. right.
      apply Hcov. change (k ∈ dict_keys (kv :: rest)). apply dict_get_is_Some.
      apply dict_get_is_Some in Hk as [v Hv]. exists v.
      rewrite <- Em. apply missing_dict_get; done.
Qed.

End Sweep.

Lemma final_sweep_spec_witness :
  let text_dict := [(py "s1", py "Hello"); (py "s2", py "World")] in
  let full := [(py "s1", JStr (py "Bonjour"))] in
  let j := Job (RecoveryState [] [] [] None) [] 0 [] in
  let missing := missing_dict text_dict full in
  let rq := Request true [] missing in
  let out := final_sweep RefJson.json_loads Stub.faithful text_dict full j in
  (forall k v, dict_get k missing = Some v
               <-> dict_get k text_dict = Some v /\ k ∉ dict_keys full)
  /\ (dict_keys text_dict ⊆ dict_keys full -> out = (full, j))
  /\ (~ dict_keys text_dict ⊆ dict_keys full ->
      clock out.2 = S (clock j)
      /\ (forall final_batch,
            attempt RefJson.json_loads Stub.faithful rq (clock j) = inr final_batch ->
            out.1 = dict_update full final_batch
            /\ (dict_keys missing ⊆ dict_keys final_batch ->
                dict_keys text_dict ⊆ dict_keys out.1))
      /\ (raises (attempt RefJson.json_loads Stub.faithful rq (clock j)) -> out.1 = full)).
Proof.
  apply (final_sweep_spec RefJson.json_loads Stub.faithful
           [(py "s1", py "Hello"); (py "s2", py "World")]
           [(py "s1", JStr (py "Bonjour"))]
           (Job (RecoveryState [] [] [] None) [] 0 [])).
  apply (bool_decide_unpack _). vm_compute. exact I.
Defined.

(** ** A run in which every batch is answered *)

Section HappyPath.

Context {file : recovery_file}.
Variable json_loads : pystr -> exn + json.
Variable backend : nat -> request -> exn + pystr.

Lemma main_batch_id_inj (n m : nat) : main_batch_id n = main_batch_id m -> n = m.
Proof.
  unfold main_batch_id. intros H. apply app_inv_head, str_of_nat_inj in H. lia.
Qed.

Lemma reconstruct_covers (input_dict : dict pystr) (ut : dict json) :
  NoDup (dict_keys input_dict) -> NoDup (dict_keys ut) ->
  dict_keys (deduplicate_content input_dict).1 ⊆ dict_keys ut ->
  dict_keys input_dict
    ⊆ dict_keys (reconstruct ut (deduplicate_content input_dict).2).
Proof.
  intros Hnd Hut Hall k Hk.
  destruct (dedupe_facts input_dict Hnd) as (Ha & _ & _ & _ & Hd).
  apply list_elem_of_fmap in Hk as ([k' v] & -> & Hkv). csimpl.
  destruct (Ha k' v Hkv) as (r & _ & Hdup & Hr).
  assert (r ∈ dict_keys ut) as Hin.
  { apply Hall. apply dict_get_is_Some. eauto. }
  apply dict_get_is_Some in Hin as [t Ht].
  apply dict_get_is_Some. unfold reconstruct.
  rewrite reconstruct_loop by done. rewrite Hdup, Ht.
  fold (dict_of_items ut). rewrite dict_of_items_NoDup by done.
  destruct (decide (k' = r)) as [->|]; eauto.
Qed.

Lemma translating_all_answered batches i0 j j' written :
  (forall i b, batches !! i = Some b ->
     exists r, attempt json_loads backend
                 (Request false (str_of_nat (i0 + i + 1)) b) (clock j + i)%nat = inr r
               /\ dict_keys b ⊆ dict_keys r) ->
  (forall i, main_batch_id (i0 + i) ∉ completed_batches (rstate j)) ->
  NoDup (dict_keys (unique_translated_dict j)) ->
  translating json_loads backend batches i0 j = inr j' ->
  disk j' = written ++ disk j ->
  Forall (fun w => dump_error w = None) written ->
  clock j' = (clock j + length batches)%nat
  /\ completed_batches (rstate j')
     = completed_batches (rstate j) ++ (main_batch_id <$> seq i0 (length batches))
  /\ failed_batches (rstate j') = failed_batches (rstate j)
  /\ Forall (fun b => dict_keys b ⊆ dict_keys (unique_translated_dict j')) batches
  /\ dict_keys (unique_translated_dict j) ⊆ dict_keys (unique_translated_dict j')
  /\ NoDup (dict_keys (unique_translated_dict j'))
  /\ length written = length batches.
Proof.
  revert i0 j written.
  induction batches as [|b rest IH]; intros i0 j written Hans Hfresh Hnd; csimpl.
  - intros [= <-] Hd _. rewrite app_nil_r.
    assert (written = []) as ->.
    { apply (f_equal length) in Hd. rewrite length_app in Hd.
      destruct written; [done|]. csimpl in Hd. lia. }
    split_and!; try done; lia.
  - destruct (translating_step json_loads backend i0 b j) as [e|j1] eqn:Es; [done|].
    intros Hrest Hd Hok.
    destruct (Hans 0%nat b eq_refl) as (r & Hr & Hcov).
    rewrite !Nat.add_0_r in Hr.
    apply translating_step_inr in Es as [[Hc _]|[_ Es]].
    { exfalso. apply (Hfresh 0%nat). by rewrite Nat.add_0_r. }
    unfold translate_batch in Es. cbn [attempts] in Es. rewrite Hr in Es.
    cbv zeta in Es.
    destruct (translating_keeps _ _ _ _ _ _ Hrest) as [(w' & Hd' & _) _].
    destruct Es as [[Hw ->]|(ex & Hw & _ & ->)].
    + set (j1 := (record_success (main_batch_id i0) r (S (clock j)) j).2) in *.
      assert (written = w' ++ [rstate j1]) as ->.
      { apply (app_inv_tail (disk j)). rewrite <- Hd, Hd', <- app_assoc. done. }
      apply Forall_app in Hok as [Hok' _].
      destruct (IH (S i0) j1 w') as (H1 & H2 & H3 & H4 & H5 & H6 & H7); try done.
      * intros i b' Hb'. destruct (Hans (S i) b' Hb') as (r' & Hr' & Hcov').
        exists r'. split; [|done]. csimpl.
        by replace (S (i0 + i + 1)) with (i0 + S i + 1)%nat by lia;
           replace (S (clock j + i)) with (clock j + S i)%nat by lia.
      * intros i. csimpl. rewrite elem_of_app, list_elem_of_singleton.
        intros [Hin|Heq].
        -- apply (Hfresh (S i)). by replace (i0 + S i)%nat with (S (i0 + i)) by lia.
        -- apply main_batch_id_inj in Heq. lia.
      * csimpl. by apply dict_update_NoDup.
      * csimpl in *. split_and!.
        -- rewrite H1. lia.
        -- rewrite H2. by rewrite <- app_assoc.
        -- done.
        -- apply Forall_cons. split; [|done].
           intros k Hk. apply H5, dict_keys_update_elem. right. by apply Hcov.
        -- intros k Hk. apply H5, dict_keys_update_elem. by left.
        -- done.
        -- rewrite length_app. csimpl. lia.
    + exfalso. csimpl in Hd'. csimpl in Hw.
      set (st1 := RecoveryState _ _ (dict_update _ r) _) in *.
      set (st2 := RecoveryState _ (_ ++ [_]) _ _) in *.
      assert (written = w' ++ [st2; st1]) as ->.
      { apply (app_inv_tail (disk j)). rewrite <- Hd, Hd', <- app_assoc. done. }
      apply Forall_app in Hok as [_ Hok]. apply Forall_cons in Hok as [_ Hok].
      apply Forall_cons in Hok as [Hok _]. rewrite Hok in Hw. done.
Qed.

(** X11: When every batch is answered at its first pass for every key and
    every write of the recovery file succeeds, a new job that returns has
    made one call for each batch and no other, has recorded every batch as
    completed and none as failed, has written the recovery file twice
    before the batches and once for each batch, and returns a translation
    for every key of [text_dict]. *)
Theorem every_batch_answered (text_dict : dict pystr) (now : nat)
    (files : list recovery_state) (result : dict json) (j : job)
    (written : list recovery_state) :
  NoDup (dict_keys text_dict) ->
  let batches :=
    smart_batches App13.estimate_tokens (deduplicate_content text_dict).1
                  150000 2000 in
  (forall i b, batches !! i = Some b ->
     exists r, attempt json_loads backend
                 (Request false (str_of_nat (i + 1)) b) (now + i)%nat = inr r
               /\ dict_keys b ⊆ dict_keys r) ->
  translate_text json_loads backend text_dict None now files = inr (result, j) ->
  disk j = written ++ files ->
  Forall (fun w => dump_error w = None) written ->
  clock j = (now + length batches)%nat
  /\ completed_batches (rstate j) = main_batch_id <$> seq 0 (length batches)
  /\ failed_batches (rstate j) = []
  /\ dict_keys text_dict ⊆ dict_keys result
  /\ length written = (length batches + 2)%nat.
Proof.
  intros Hnd batches Hans Hrun Hd Hok.
  destruct (dedupe_facts text_dict Hnd) as (Ha & _ & _ & Hu & _).
  pose proof (reconstruct_covers text_dict) as Hrec.
  apply new_job_inr in Hrun as (_ & _ & Hrun). cbv zeta in Hrun.
  unfold batches in *. clear batches.
  destruct (deduplicate_content text_dict) as [unique duplicates]. csimpl in *.
  destruct unique as [|kv rest] eqn:Eu.
  { destruct text_dict as [|[k v] more].
    - csimpl in Hrun. injection Hrun as -> ->. csimpl in *.
      assert (written = [RecoveryState [] [] [] (Some duplicates);
                         RecoveryState [] [] [] None]) as ->.
      { apply (app_inv_tail files). by rewrite <- Hd. }
      split_and!; try done; lia.
    - destruct (Ha k v) as (r & _ & _ & Hr); [apply list_elem_of_here|]. done. }
  rewrite <- Eu in *. destruct Hrun as (full & j4 & Hrb & Hrun).
  destruct (smart_batches_spec App13.estimate_tokens 150000 2000 unique Hu) as [Hcat _].
  set (bs := smart_batches App13.estimate_tokens unique 150000 2000) in *.
  unfold run_batches in Hrb. csimpl in Hrb.
  set (j1 := Job _ _ _ _) in Hrb.
  destruct (translating json_loads backend bs 0 j1) as [e|j2] eqn:E2; [done|].
  destruct (reconciling json_loads backend text_dict (failed_batches (rstate j2)) j2)
    as [e|j3] eqn:E3; [done|].
  injection Hrb as <- <-.
  destruct (translating_keeps _ _ _ _ _ _ E2) as [(w2 & Hd2 & _) _].
  destruct (reconciling_keeps _ _ _ _ _ _ E3) as [(w3 & Hd3 & _) _].
  destruct (final_sweep_grows json_loads backend text_dict
              (reconstruct (unique_translated_dict j3) duplicates) j3)
    as ((w4 & Hd4 & _) & _).
  rewrite <- Hrun in Hd4. csimpl in Hd4.
  assert (written = w4 ++ w3 ++ w2 ++ [RecoveryState [] [] [] (Some duplicates);
                                        RecoveryState [] [] [] None]) as Hw.
  { apply (app_inv_tail files). rewrite <- Hd, Hd4, Hd3, Hd2. unfold j1. csimpl.
    by rewrite <- !app_assoc. }
  assert (Forall (fun w => dump_error w = None) w2) as Hok2.
  { rewrite Hw in Hok. apply Forall_app in Hok as [_ Hok].
    apply Forall_app in Hok as [_ Hok]. by apply Forall_app in Hok as [Hok _]. }
  destruct (translating_all_answered bs 0 j1 j2 w2)
    as (H1 & H2 & H3 & H4 & _ & H6 & H7); try done.
  { intros i. csimpl. apply not_elem_of_nil. }
  { csimpl. apply NoDup_nil_2. }
  csimpl in H1. csimpl in H2. csimpl in H3. rewrite H3 in E3. csimpl in E3.
  injection E3 as <-.
  assert (w3 = []) as ->.
  { apply (f_equal length) in Hd3. rewrite length_app in Hd3.
    destruct w3; [done|]. csimpl in Hd3. lia. }
  assert (dict_keys unique ⊆ dict_keys (unique_translated_dict j2)) as Hall.
  { intros k Hk. apply list_elem_of_fmap in Hk as (kv' & -> & Hin).
    rewrite <- (sort_desc_perm App13.estimate_tokens unique), <- Hcat in Hin.
    apply elem_of_concat in Hin as (b & Hb & Hin).
    rewrite Forall_forall in H4. apply (H4 b Hb).
    apply list_elem_of_fmap. by exists kv'. }
  pose proof (Hrec _ Hnd H6 Hall) as Hfull.
  apply missing_dict_nil in Hfull. unfold final_sweep in Hrun. rewrite Hfull in Hrun.
  injection Hrun as -> ->.
  assert (w4 = []) as ->.
  { apply (f_equal length) in Hd4. rewrite length_app in Hd4.
    destruct w4; [done|]. csimpl in Hd4. lia. }
  split_and!; [done|done|done|by apply missing_dict_nil|].
  rewrite Hw. csimpl. rewrite length_app. csimpl. lia.
Qed.

End HappyPath.

Lemma every_batch_answered_witness :
  let text_dict := [(py "s1", py "Hello"); (py "s2", py "World"); (py "s3", py "Hello")] in
  let batches :=
    smart_batches App13.estimate_tokens (deduplicate_content text_dict).1
                  150000 2000 in
  exists result j written,
    translate_text RefJson.json_loads Stub.faithful text_dict None 0 []
      = inr (result, j)
    /\ disk j = written ++ []
    /\ Forall (fun w => dump_error w = None) written
    /\ clock j = (0 + length batches)%nat
    /\ completed_batches (rstate j) = main_batch_id <$> seq 0 (length batches)
    /\ failed_batches (rstate j) = []
    /\ dict_keys text_dict ⊆ dict_keys result
    /\ length written = (length batches + 2)%nat.
Proof.
  intros text_dict batches.
  assert (exists result j written,
            translate_text RefJson.json_loads Stub.faithful text_dict None 0 []
              = inr (result, j)
            /\ disk j = written ++ []
            /\ Forall (fun w => dump_error w = None) written)
    as (result & j & written & Hrun & Hd & Hok).
  { eexists _, _, _. split_and!; [vm_compute; reflexivity|by rewrite app_nil_r|].
    vm_compute. repeat constructor. }
  exists result, j, written.
  split; [exact Hrun|]. split; [exact Hd|]. split; [exact Hok|].
  apply (every_batch_answered RefJson.json_loads Stub.faithful text_dict 0 []
           result j written).
  - apply (bool_decide_unpack _). vm_compute. exact I.
  - intros i b Hb. destruct i as [|i]; [|destruct i; discriminate Hb].
    vm_compute in Hb. injection Hb as <-.
    eexists. split; [vm_compute; reflexivity|].
    apply (bool_decide_unpack _). vm_compute. exact I.
  - exact Hrun.
  - exact Hd.
  - exact Hok.
Defined.

(** ** Strings *)

Lemma startswith_app (p s y : pystr) :
  startswith p s = true -> startswith p (s ++ y) = true.
Proof.
  revert s. induction p as [|a p IH]; intros s; [done|].
  destruct s as [|b s]; csimpl; [done|].
  rewrite !andb_true_iff. intros [? ?]. split; [done|]. by apply IH.
Qed.

Lemma startswith_self (p y : pystr) : startswith p (p ++ y) = true.
Proof.
  induction p as [|a p IH]; [done|]. csimpl. rewrite IH.
  by rewrite bool_decide_eq_true_2.
Qed.

Lemma startswith_contains (p s : pystr) :
  startswith p s = true -> contains p s = true.
Proof. destruct s; cbn [contains]; by intros ->. Qed.

Lemma contains_app_r (p x y : pystr) : contains p (x ++ p ++ y) = true.
Proof.
  induction x as [|c x IH]; cbn [app].
  - apply startswith_contains, startswith_self.
  - cbn [contains]. rewrite IH. apply orb_true_r.
Qed.

Lemma contains_cons (p : pystr) c s :
  contains p (c :: s) = startswith p (c :: s) || contains p s.
Proof. done. Qed.

Lemma drop_while_head (f : N -> bool) s c t :
  drop_while f s = c :: t -> f c = false.
Proof.
  induction s as [|a s IH]; csimpl; [done|].
  destruct (f a) eqn:E; [done|]. by intros [= <- <-].
Qed.

Lemma drop_while_idemp (f : N -> bool) s :
  drop_while f (drop_while f s) = drop_while f s.
Proof.
  destruct (drop_while f s) as [|c t] eqn:E; [done|].
  csimpl. by rewrite (drop_while_head f s c t E).
Qed.

Lemma drop_while_suffix (f : N -> bool) s :
  exists dropped, s = dropped ++ drop_while f s.
Proof.
  induction s as [|a s [d IH]]; csimpl; [by exists []|].
  destruct (f a); [|by exists []]. exists (a :: d). csimpl. by rewrite <- IH.
Qed.

(** [s.strip().strip() == s.strip()] *)
Lemma strip_idemp (s : pystr) : strip (strip s) = strip s.
Proof.
  unfold strip, rstrip, lstrip.
  set (t := drop_while is_space s).
  destruct (drop_while_suffix is_space (reverse t)) as [sp Hsp].
  set (u := reverse (drop_while is_space (reverse t))).
  assert (t = u ++ reverse sp) as Ht.
  { rewrite <- (reverse_involutive t), Hsp, reverse_app. done. }
  assert (drop_while is_space u = u) as Hu.
  { destruct u as [|c u'] eqn:Eu; [done|].
    rewrite Ht in *. csimpl. unfold t in Ht.
    by rewrite (drop_while_head is_space s c _ Ht). }
  rewrite Hu. unfold u. rewrite reverse_involutive, drop_while_idemp. done.
Qed.

Lemma str_of_nat_nonempty (n : nat) : str_of_nat n <> [].
Proof.
  unfold str_of_nat. intros H.
  assert (Nat.to_uint n = Decimal.Nil) as Hn.
  { destruct (Nat.to_uint n); done. }
  pose proof (DecimalNat.Unsigned.of_to n) as Hof. rewrite Hn in Hof.
  csimpl in Hof. subst n. done.
Qed.

Lemma str_of_nat_digits (n : nat) : forallb is_digit (str_of_nat n) = true.
Proof.
  unfold str_of_nat. generalize (Nat.to_uint n). intros d.
  induction d; csimpl; done.
Qed.

Lemma digits_no_char (a : N) (s : pystr) :
  is_digit a = false -> forallb is_digit s = true -> a ∉ s.
Proof.
  intros Ha Hs Hin. rewrite forallb_forall in Hs.
  apply list_elem_of_In, Hs in Hin. congruence.
Qed.

(** ** Slides: the keys of the table cells *)

Section SlidesKeys.

Import Slides.

(** The first occurrence of a two-character marker [a b] after a text
    that holds none. *)
Lemma split_once_marker (a b : N) (x y cur : pystr) :
  a <> b -> contains [a; b] x = false ->
  split_once_from [a; b] (x ++ a :: b :: y) cur = [reverse cur ++ x; y].
Proof.
  intros Hab. revert cur. induction x as [|c x IH]; intros cur Hx.
  - cbn [app split_once_from].
    assert (startswith [a; b] (a :: b :: y) = true) as ->
      by apply (startswith_self [a; b] y).
    by rewrite app_nil_r.
  - rewrite contains_cons in Hx. apply orb_false_iff in Hx as [Hs Hx].
    cbn [app split_once_from].
    assert (startswith [a; b] (c :: x ++ a :: b :: y) = false) as ->.
    { destruct x as [|d x]; csimpl in *.
      - destruct (decide (a = c)) as [->|]; [|by rewrite bool_decide_eq_false_2].
        rewrite bool_decide_eq_true_2 by done. csimpl.
        rewrite bool_decide_eq_false_2; [done|]. congruence.
      - done. }
    rewrite (IH (c :: cur) Hx). rewrite reverse_cons, <- app_assoc. done.
Qed.

(** The text before the first marker is shorter than a text that holds
    the marker. *)
Lemma split_once_inside (sep x y cur : pystr) :
  sep <> [] -> contains sep x = true ->
  exists before after,
    split_once_from sep (x ++ y) cur = [reverse cur ++ before; after]
    /\ (length before < length x)%nat.
Proof.
  intros Hsep. revert cur. induction x as [|c x IH]; intros cur Hx.
  - destruct sep; [done|]. discriminate Hx.
  - cbn [app split_once_from].
    destruct (startswith sep (c :: x ++ y)) eqn:Es.
    + exists [], (drop (length sep) (c :: x ++ y)). rewrite app_nil_r. csimpl.
      split; [done|lia].
    + rewrite contains_cons in Hx. apply orb_true_iff in Hx as [Hx|Hx].
      * apply (startswith_app _ _ y) in Hx. csimpl in Hx. congruence.
      * destruct (IH (c :: cur) Hx) as (before & after & -> & Hlen).
        exists (c :: before), after. rewrite reverse_cons, <- app_assoc. csimpl.
        split; [done|lia].
Qed.

Lemma split_from_none (a : N) (sep y cur : pystr) :
  a ∉ y -> split_from (a :: sep) y 0 cur = [reverse cur ++ y].
Proof.
  revert cur. induction y as [|c y IH]; intros cur Hy.
  - csimpl. by rewrite app_nil_r.
  - apply not_elem_of_cons in Hy as [Hne Hy]. cbn [split_from startswith].
    rewrite bool_decide_eq_false_2 by done. cbn [andb].
    rewrite (IH (c :: cur) Hy), reverse_cons, <- app_assoc. done.
Qed.

Lemma split_marker (a b : N) (x y cur : pystr) :
  a ∉ x -> a ∉ y ->
  split_from [a; b] (x ++ a :: b :: y) 0 cur = [reverse cur ++ x; y].
Proof.
  intros Hx Hy. revert cur. induction x as [|c x IH]; intros cur.
  - cbn [app split_from].
    assert (startswith [a; b] (a :: b :: y) = true) as ->
      by apply (startswith_self [a; b] y).
    cbn [length Nat.sub]. rewrite app_nil_r. f_equal.
    change (split_from [a; b] y 0 [] = [y]).
    by rewrite split_from_none.
  - apply not_elem_of_cons in Hx as [Hne Hx]. cbn [app split_from startswith].
    rewrite bool_decide_eq_false_2 by done. cbn [andb].
    rewrite (IH Hx (c :: cur)), reverse_cons, <- app_assoc. done.
Qed.

Variable py_int : pystr -> exn + Z.

(** [int(str(n)) == n] *)
Hypothesis py_int_str : forall n, py_int (str_of_nat n) = inr (Z.of_nat n).

Lemma cell_id_markers object_id r c :
  contains (py "_r") (cell_id object_id r c) = true
  /\ contains (py "_c") (cell_id object_id r c) = true.
Proof.
  unfold cell_id. split.
  - apply contains_app_r.
  - rewrite !app_assoc, <- (app_assoc _ (py "_c")). apply contains_app_r.
Qed.

Lemma cell_id_requests object_id r c (new_text : json) :
  contains (py "_r") object_id = false ->
  text_requests py_int (cell_id object_id r c) new_text
  = inr [DeleteText object_id (Some (CellLocation (Z.of_nat r) (Z.of_nat c)));
         InsertText object_id (Some (CellLocation (Z.of_nat r) (Z.of_nat c)))
                    new_text].
Proof.
  intros Hid. unfold text_requests.
  destruct (cell_id_markers object_id r c) as [-> ->]. cbn [andb].
  unfold split_once, cell_id.
  change (py "_r") with [95; 114]%N. change (py "_c") with [95; 99]%N.
  cbn [app].
  rewrite (split_once_marker 95 114 object_id _ []) by done.
  cbn [reverse app]. unfold split.
  rewrite (split_marker 95 99 (str_of_nat r) (str_of_nat c) []);
    [|by apply digits_no_char, str_of_nat_digits..].
  change (reverse (@nil N)) with (@nil N). cbn [app]. by rewrite !py_int_str.
Qed.

(** X12: The key that [extract_text] gives to a table cell is read back by
    [update_slides] as the table and the cell it was made from, exactly
    when the object id of the table does not hold the marker [_r]. *)
Theorem cell_key_round_trip (object_id : pystr) (r c : nat) (new_text : json) :
  text_requests py_int (cell_id object_id r c) new_text
  = inr [DeleteText object_id (Some (CellLocation (Z.of_nat r) (Z.of_nat c)));
         InsertText object_id (Some (CellLocation (Z.of_nat r) (Z.of_nat c)))
                    new_text]
  <-> contains (py "_r") object_id = false.
Proof.
  split; [|apply cell_id_requests].
  intros H. destruct (contains (py "_r") object_id) eqn:Hid; [exfalso|done].
  unfold text_requests in H.
  destruct (cell_id_markers object_id r c) as [Hr Hc]. rewrite Hr, Hc in H.
  cbn [andb] in H. unfold split_once, cell_id in H.
  destruct (split_once_inside (py "_r") object_id
              (py "_r" ++ str_of_nat r ++ py "_c" ++ str_of_nat c) [])
    as (before & after & E & Hlen); [done|done|].
  rewrite E in H. change (reverse (@nil N)) with (@nil N) in H. cbn [app] in H.
  destruct (split (py "_c") after) as [|? [|? [|? ?]]]; try done.
  destruct (py_int _); [done|]. destruct (py_int _); [done|].
  injection H as H _. rewrite H in Hlen. lia.
Qed.

(** X13: A key that holds both markers is never updated under its own id:
    when the call does not raise, its two requests address an object whose
    id is a strict prefix of the key.  So a text box whose object id holds
    [_r] and [_c] does not get its translation. *)
Theorem marked_key_never_updated (object_id : pystr) (new_text : json)
    (requests : list slides_request) :
  contains (py "_r") object_id = true ->
  contains (py "_c") object_id = true ->
  text_requests py_int object_id new_text = inr requests ->
  exists base_id location,
    requests = [DeleteText base_id (Some location);
                InsertText base_id (Some location) new_text]
    /\ (length base_id < length object_id)%nat.
Proof.
  intros Hr Hc H. unfold text_requests in H. rewrite Hr, Hc in H.
  cbn [andb] in H. unfold split_once in H.
  destruct (split_once_inside (py "_r") object_id [] []) as (before & after & E & Hlen);
    [done|done|].
  rewrite app_nil_r in E. rewrite E in H.
  change (reverse (@nil N)) with (@nil N) in H. cbn [app] in H.
  destruct (split (py "_c") after) as [|? [|? [|? ?]]]; try done.
  destruct (py_int _); [done|]. destruct (py_int _); [done|].
  injection H as <-. eauto.
Qed.

Lemma text_requests_length object_id (new_text : json) requests :
  text_requests py_int object_id new_text = inr requests -> length requests = 2%nat.
Proof.
  unfold text_requests. destruct (_ && _).
  - destruct (split_once _ _) as [|? [|? [|? ?]]]; try done.
    destruct (split _ _) as [|? [|? [|? ?]]]; try done.
    destruct (py_int _); [done|]. destruct (py_int _); [done|]. by intros [= <-].
  - by intros [= <-].
Qed.

Lemma take_drop_concat_pairs {A} (n : nat) (pairs : list (list A)) :
  Forall (fun p => length p = 2%nat) pairs ->
  take (2 * n) (concat pairs) = concat (take n pairs)
  /\ drop (2 * n) (concat pairs) = concat (drop n pairs).
Proof.
  intros Hp. revert n. induction Hp as [|p pairs Hlen _ IH]; intros n.
  - cbn [concat]. by rewrite !take_nil, !drop_nil.
  - destruct n as [|n]; [by rewrite Nat.mul_0_r, !take_0, !drop_0|].
    destruct p as [|a [|b [|? ?]]]; try done.
    replace (2 * S n)%nat with (S (S (2 * n))) by lia.
    cbn [concat app firstn skipn]. destruct (IH n) as [-> ->]. done.
Qed.

Lemma chunks_fuel_pairs {A} (f g : nat) (pairs : list (list A)) :
  Forall (fun p => length p = 2%nat) pairs ->
  (length pairs <= f)%nat -> (length pairs <= g)%nat ->
  chunks_fuel f 100 (concat pairs) = (fun c => concat c) <$> chunks_fuel g 50 pairs.
Proof.
  revert g pairs. induction f as [|f IH]; intros g pairs Hp Hf Hg.
  - destruct pairs; [|csimpl in Hf; lia]. by destruct g.
  - destruct pairs as [|p ps]; [by destruct g|].
    destruct g as [|g]; [csimpl in Hg; lia|].
    destruct (take_drop_concat_pairs 50 (p :: ps) Hp) as [Ht Hd].
    change (2 * 50)%nat with 100%nat in Ht, Hd.
    assert (exists a rest, concat (p :: ps) = a :: rest) as (a & rest & E).
    { apply Forall_cons in Hp as [Hlen _].
      destruct p as [|a p]; [done|]. csimpl. eauto. }
    cbn [chunks_fuel]. rewrite E. rewrite <- E. rewrite Ht, Hd, fmap_cons. f_equal.
    apply IH.
    + by apply Forall_drop.
    + rewrite length_drop. cbn [length] in *. lia.
    + rewrite length_drop. cbn [length] in *. lia.
Qed.

(** X14: The requests are built for all the texts before anything is sent.
    When they can be built, each body of [batchUpdate] holds the requests
    of at most 50 texts, in the order of the dictionary, the delete and the
    insert of a text always together.  Otherwise the first key that cannot
    be read ends the function with its exception, and nothing is sent. *)
Theorem update_batches_spec (translated_texts : dict json) :
  match update_batches py_int translated_texts with
  | inr bodies =>
      exists pairs,
        Forall2 (fun kv p => text_requests py_int kv.1 kv.2 = inr p)
                translated_texts pairs
        /\ Forall (fun p => length p = 2%nat) pairs
        /\ bodies = (fun c => concat c) <$> chunks 50 pairs
  | inl ex =>
      exists before kv after,
        translated_texts = before ++ kv :: after
        /\ text_requests py_int kv.1 kv.2 = inl ex
        /\ Forall (fun kv => ~ raises (text_requests py_int kv.1 kv.2)) before
  end.
Proof.
  unfold update_batches.
  assert (match update_requests py_int translated_texts with
          | inr requests =>
              exists pairs,
                Forall2 (fun kv p => text_requests py_int kv.1 kv.2 = inr p)
                        translated_texts pairs
                /\ Forall (fun p => length p = 2%nat) pairs
                /\ requests = concat pairs
          | inl ex =>
              exists before kv after,
                translated_texts = before ++ kv :: after
                /\ text_requests py_int kv.1 kv.2 = inl ex
                /\ Forall (fun kv => ~ raises (text_requests py_int kv.1 kv.2)) before
          end) as H.
  { induction translated_texts as [|[k t] rest IH]; cbn [update_requests].
    - exists []. split_and!; constructor.
    - destruct (text_requests py_int k t) as [ex|p] eqn:E.
      + exists [], (k, t), rest. split_and!; [done|done|constructor].
      + destruct (update_requests py_int rest) as [ex|more].
        * destruct IH as (before & kv & after & -> & Hkv & Hb).
          exists ((k, t) :: before), kv, after. split_and!; [done|done|].
          constructor; [|done]. cbn [fst snd]. rewrite E. intros [].
        * destruct IH as (pairs & H2 & Hl & ->).
          exists (p :: pairs). split_and!; [by constructor| |done].
          constructor; [|done]. by eapply text_requests_length. }
  destruct (update_requests py_int translated_texts) as [ex|requests]; [done|].
  destruct H as (pairs & H2 & Hl & ->). exists pairs. split_and!; [done|done|].
  unfold chunks. apply chunks_fuel_pairs; [done| |done].
  clear H2. induction Hl as [|p pairs Hp _ IH]; [done|].
  cbn [concat length]. rewrite length_app. lia.
Qed.

Lemma foldl_invariant {A B} (I : A -> Prop) (f : A -> B -> A) (l : list B) a :
  I a -> (forall a x, x ∈ l -> I a -> I (f a x)) -> I (foldl f a l).
Proof.
  revert a. induction l as [|x l IH]; intros a Ha Hf; csimpl; [done|].
  apply IH.
  - apply Hf; [apply list_elem_of_here|done].
  - intros a' y Hy. apply Hf. by apply list_elem_of_further.
Qed.

Lemma elem_of_imap_pair {A} (l : list A) i x :
  (i, x) ∈ imap pair l <-> l !! i = Some x.
Proof.
  rewrite list_elem_of_lookup. split.
  - intros (n & Hn). rewrite list_lookup_imap in Hn.
    destruct (l !! n) eqn:E; [|done]. csimpl in Hn. by injection Hn as -> ->.
  - intros H. exists i. by rewrite list_lookup_imap, H.
Qed.

(** A text kept by [extract_text] is not empty and has no blank at either
    end. *)
Lemma run_text_stripped text_elements : strip (run_text text_elements) = run_text text_elements.
Proof. unfold run_text. apply strip_idemp. Qed.

Lemma keep_text_invariant (P : pystr -> pystr -> Prop) key text acc :
  (text <> [] -> P key text) ->
  (forall k v, (k, v) ∈ acc.1 -> P k v) -> Forall (fun v => exists k, P k v) acc.2 ->
  (forall k v, (k, v) ∈ (keep_text key text acc).1 -> P k v)
  /\ Forall (fun v => exists k, P k v) (keep_text key text acc).2.
Proof.
  intros Hnew Hacc Hcontent. unfold keep_text.
  destruct text as [|c text]; [done|]. csimpl. split.
  - intros k v Hin. apply dict_set_elem_inv in Hin as [[= -> ->]|Hin]; [|by apply Hacc].
    by apply Hnew.
  - apply Forall_app. split; [done|]. apply Forall_singleton.
    exists key. by apply Hnew.
Qed.

Lemma extract_element_invariant (P : pystr -> pystr -> Prop) element acc :
  (forall k v, v <> [] -> strip v = v ->
     shape_source element k v \/ (exists r c, cell_source element r c k v) ->
     P k v) ->
  (forall k v, (k, v) ∈ acc.1 -> P k v) -> Forall (fun v => exists k, P k v) acc.2 ->
  (forall k v, (k, v) ∈ (extract_element acc element).1 -> P k v)
  /\ Forall (fun v => exists k, P k v) (extract_element acc element).2.
Proof.
  intros HP Hacc Hcontent. unfold extract_element.
  apply (foldl_invariant
           (fun acc => (forall k v, (k, v) ∈ acc.1 -> P k v)
                       /\ Forall (fun v => exists k, P k v) acc.2)).
  - destruct (shape element) as [[[tes|]]|] eqn:Es; [|done|done].
    apply keep_text_invariant; [|done|done].
    intros Hne. apply HP; [done|apply run_text_stripped|].
    left. exists tes. done.
  - intros acc1 [r row] Hr [H1 H2]. apply elem_of_imap_pair in Hr. cbn [fst snd].
    unfold extract_row.
    apply (foldl_invariant
             (fun acc => (forall k v, (k, v) ∈ acc.1 -> P k v)
                         /\ Forall (fun v => exists k, P k v) acc.2)); [done|].
    intros acc2 [c cell] Hc [H3 H4]. apply elem_of_imap_pair in Hc. cbn [fst snd].
    destruct (cell_text cell) as [tes|] eqn:Ec; [|done].
    apply keep_text_invariant; [|done|done].
    intros Hne. apply HP; [done|apply run_text_stripped|].
    right. exists r, c, row, cell, tes. done.
Qed.

Lemma extract_text_facts (slides : list slide) :
  let text_dict := (extract_text slides).1 in
  let slide_metadata := (extract_text slides).2 in
  (forall k v, (k, v) ∈ text_dict ->
     text_source slides k v /\ v <> [] /\ strip v = v)
  /\ length slide_metadata = length slides
  /\ (forall i info, slide_metadata !! i = Some info ->
        slide_number info = (i + 1)%nat /\ title info = []
        /\ Forall (fun v => exists k, text_source slides k v /\ v <> [] /\ strip v = v)
                  (slide_content info)).
Proof.
  cbv zeta. unfold extract_text.
  set (P := fun k v => text_source slides k v /\ v <> [] /\ strip v = v).
  assert (forall done_slides,
            (forall s, s ∈ done_slides -> s ∈ slides) ->
            let st := foldl extract_slide ([], []) (imap pair done_slides) in
            (forall k v, (k, v) ∈ st.1 -> P k v)
            /\ length st.2 = length done_slides
            /\ (forall i info, st.2 !! i = Some info ->
                  slide_number info = (i + 1)%nat /\ title info = []
                  /\ Forall (fun v => exists k, P k v) (slide_content info))) as H.
  { induction done_slides as [|s done_slides IH] using rev_ind; intros Hsub.
    - csimpl. split_and!; [|done|done]. intros k v Hin. by apply elem_of_nil in Hin.
    - rewrite imap_app, foldl_app. cbn [imap foldl].
      destruct IH as (H1 & H2 & H3).
      { intros s' Hs'. apply Hsub, elem_of_app. by left. }
      set (st := foldl extract_slide ([], []) (imap pair done_slides)) in *.
      unfold extract_slide. cbn [fst snd].
      assert ((forall k v, (k, v) ∈ (foldl extract_element (st.1, []) (pageElements s)).1 -> P k v)
              /\ Forall (fun v => exists k, P k v)
                        (foldl extract_element (st.1, []) (pageElements s)).2) as [H4 H5].
      { apply (foldl_invariant
                 (fun acc => (forall k v, (k, v) ∈ acc.1 -> P k v)
                             /\ Forall (fun v => exists k, P k v) acc.2)); [by split|].
        intros acc element He [Ha Hb]. apply extract_element_invariant; [|done|done].
        intros k v Hne Hstrip Hsrc. unfold P. split_and!; [|done|done].
        exists s, element. split_and!; [|done|done].
        apply Hsub, elem_of_app. right. apply list_elem_of_here. }
      destruct (foldl extract_element (st.1, []) (pageElements s)) as [text_dict content].
      cbn [fst snd] in *. split_and!; [done| |].
      + rewrite !length_app. csimpl. lia.
      + intros i info Hi. apply lookup_app_Some in Hi as [Hi|[Hle Hi]]; [by apply H3|].
        destruct (i - length st.2)%nat as [|n] eqn:En; [|by destruct n].
        csimpl in Hi. injection Hi as <-. csimpl.
        split_and!; [lia|done|done]. }
  destruct (H slides) as (H1 & H2 & H3); [done|]. split_and!; [done|done|].
  intros i info Hi. destruct (H3 i info Hi) as (? & ? & Hc). split_and!; [done|done|].
  eapply Forall_impl; [exact Hc|]. done.
Qed.

(** X15: [extract_text] keeps the texts of the shapes and of the table cells
    that are not blank, stripped, each under the id of its element or the
    key of its cell; the metadata have one entry for each slide, numbered
    from 1, with an empty title and texts that are kept ones. *)
Theorem extract_text_spec (slides : list slide) :
  let text_dict := (extract_text slides).1 in
  let slide_metadata := (extract_text slides).2 in
  (forall k v, (k, v) ∈ text_dict ->
     text_source slides k v /\ v <> [] /\ strip v = v)
  /\ length slide_metadata = length slides
  /\ (forall i info, slide_metadata !! i = Some info ->
        slide_number info = (i + 1)%nat /\ title info = []
        /\ Forall (fun v => exists k, text_source slides k v /\ v <> [] /\ strip v = v)
                  (slide_content info)).
Proof. apply extract_text_facts. Qed.

Lemma extracted_key_requests (slides : list slide) (k v : pystr)
    (new_text : json) :
  (forall s element, s ∈ slides -> element ∈ pageElements s ->
     contains (py "_r") (objectId element) = false) ->
  (k, v) ∈ (extract_text slides).1 ->
  exists s element location,
    s ∈ slides /\ element ∈ pageElements s
    /\ text_requests py_int k new_text
       = inr [DeleteText (objectId element) location;
              InsertText (objectId element) location new_text]
    /\ match location with
       | None => shape_source element k v
       | Some loc =>
           exists r c, loc = CellLocation (Z.of_nat r) (Z.of_nat c)
                       /\ cell_source element r c k v
       end.
Proof.
  intros Hids Hin.
  destruct (extract_text_facts slides) as (H & _). apply H in Hin as [Hsrc _].
  destruct Hsrc as (s & element & Hs & He & [Hshape|(r & c & Hcell)]).
  - exists s, element, None. split_and!; [done|done| |done].
    destruct Hshape as (tes & _ & -> & _). unfold text_requests.
    by rewrite (Hids s element Hs He).
  - exists s, element, (Some (CellLocation (Z.of_nat r) (Z.of_nat c))).
    split_and!; [done|done| |eauto].
    destruct Hcell as (row & cell & tes & _ & _ & _ & -> & _).
    apply cell_id_requests. by apply (Hids s element).
Qed.

(** X16: Every key that [extract_text] writes is read back by [update_slides]
    as the element, and the cell, that it came from, provided that no
    object id holds the marker [_r]: the requests for a presentation whose
    texts were all translated can always be built. *)
Theorem extracted_keys_update (slides : list slide) (k v : pystr)
    (new_text : json) :
  (forall s element, s ∈ slides -> element ∈ pageElements s ->
     contains (py "_r") (objectId element) = false) ->
  (k, v) ∈ (extract_text slides).1 ->
  exists s element location,
    s ∈ slides /\ element ∈ pageElements s
    /\ text_requests py_int k new_text
       = inr [DeleteText (objectId element) location;
              InsertText (objectId element) location new_text]
    /\ match location with
       | None => shape_source element k v
       | Some loc =>
           exists r c, loc = CellLocation (Z.of_nat r) (Z.of_nat c)
                       /\ cell_source element r c k v
       end.
Proof. apply extracted_key_requests. Qed.

End SlidesKeys.

Lemma ascii_int_str (n : nat) : Slides.ascii_int (str_of_nat n) = inr (Z.of_nat n).
Proof.
  unfold Slides.ascii_int. destruct (str_of_nat n) as [|c s] eqn:E.
  - by apply str_of_nat_nonempty in E.
  - by rewrite <- E, str_of_nat_digits, nat_of_digits_str.
Qed.

Lemma cell_key_round_trip_witness :
  Slides.text_requests Slides.ascii_int (Slides.cell_id (py "table1") 2 0)
    (JStr (py "Bonjour"))
  = inr [Slides.DeleteText (py "table1") (Some (Slides.CellLocation 2 0));
         Slides.InsertText (py "table1") (Some (Slides.CellLocation 2 0))
           (JStr (py "Bonjour"))]
  <-> contains (py "_r") (py "table1") = false.
Proof.
  apply (cell_key_round_trip Slides.ascii_int ascii_int_str (py "table1") 2 0
           (JStr (py "Bonjour"))).
Defined.

Lemma marked_key_never_updated_witness :
  exists base_id location,
    [Slides.DeleteText (py "box") (Some (Slides.CellLocation 1 2));
     Slides.InsertText (py "box") (Some (Slides.CellLocation 1 2)) (JStr (py "Bonjour"))]
    = [Slides.DeleteText base_id (Some location);
       Slides.InsertText base_id (Some location) (JStr (py "Bonjour"))]
    /\ (length base_id < length (py "box_r1_c2"))%nat.
Proof.
  apply (marked_key_never_updated Slides.ascii_int (py "box_r1_c2")
           (JStr (py "Bonjour"))).
  - vm_compute. reflexivity.
  - vm_compute. reflexivity.
  - vm_compute. reflexivity.
Defined.

Lemma extracted_keys_update_witness :
  let slides :=
    [Slides.Slide
       [Slides.PageElement (py "title1")
          (Some (Slides.Shape (Some [Slides.TextElement
                                       (Some (Slides.TextRun (Some (py " Hello "))))])))
          [];
        Slides.PageElement (py "table1") None
          [Slides.TableRow
             [Slides.TableCell
                (Some [Slides.TextElement (Some (Slides.TextRun (Some (py "World"))))])]]]] in
  exists s element location,
    s ∈ slides /\ element ∈ Slides.pageElements s
    /\ Slides.text_requests Slides.ascii_int (py "table1_r0_c0") (JStr (py "Monde"))
       = inr [Slides.DeleteText (Slides.objectId element) location;
              Slides.InsertText (Slides.objectId element) location (JStr (py "Monde"))]
    /\ match location with
       | None => shape_source element (py "table1_r0_c0") (py "World")
       | Some loc =>
           exists r c, loc = Slides.CellLocation (Z.of_nat r) (Z.of_nat c)
                       /\ cell_source element r c (py "table1_r0_c0") (py "World")
       end.
Proof.
  apply (extracted_keys_update Slides.ascii_int ascii_int_str).
  - intros s element Hs He.
    apply list_elem_of_singleton in Hs as ->. csimpl in He.
    apply elem_of_cons in He as [->|He]; [vm_compute; reflexivity|].
    apply list_elem_of_singleton in He as ->. vm_compute. reflexivity.
  - vm_compute. apply list_elem_of_further, list_elem_of_here.
Defined.


(** ** Replacement of escape sequences and the cleaning of the values *)

Section ReplaceFacts.

Lemma split_from_nonempty (sep s : pystr) (skip : nat) (cur : pystr) :
  split_from sep s skip cur <> [].
Proof.
  revert skip cur. induction s as [|c s IH]; intros skip cur; cbn [split_from]; [done|].
  destruct skip; [|apply IH]. destruct (startswith sep (c :: s)); [done|apply IH].
Qed.

Lemma split_from_skip (sep s : pystr) (skip : nat) (cur : pystr) :
  split_from sep s skip cur = split_from sep (drop skip s) 0 cur.
Proof.
  revert skip. induction s as [|c s IH]; intros skip.
  - by rewrite drop_nil.
  - destruct skip as [|k]; [done|]. cbn [split_from drop skipn]. apply IH.
Qed.

Lemma join_cons (sep p : pystr) (rest : list pystr) :
  rest <> [] -> join sep (p :: rest) = p ++ sep ++ join sep rest.
Proof. destruct rest; done. Qed.

Lemma join_split_cur (old new s cur : pystr) :
  join new (split_from old s 0 cur)
  = reverse cur ++ join new (split_from old s 0 []).
Proof.
  revert cur. induction s as [|c s IH]; intros cur; cbn [split_from].
  - cbn [join]. by rewrite app_nil_r.
  - destruct (startswith old (c :: s)).
    + rewrite !join_cons by apply split_from_nonempty. done.
    + rewrite (IH (c :: cur)), (IH [c]), reverse_cons, <- app_assoc. done.
Qed.

(** [replace] read from the left: a match is replaced and the scan goes
    on after it; any other character is kept. *)
Lemma replace_nil (old new : pystr) : replace old new [] = [].
Proof. done. Qed.

Lemma replace_cons (old new : pystr) c s :
  old <> [] ->
  replace old new (c :: s)
  = if startswith old (c :: s)
    then new ++ replace old new (drop (length old) (c :: s))
    else c :: replace old new s.
Proof.
  intros Hold. unfold replace, split. cbn [split_from].
  destruct (startswith old (c :: s)).
  - rewrite join_cons by apply split_from_nonempty.
    rewrite split_from_skip. destruct old as [|a old]; [done|].
    cbn [length Nat.sub drop skipn]. by rewrite Nat.sub_0_r.
  - rewrite join_split_cur. done.
Qed.

Variables (old : pystr) (c : N).
Hypothesis old_nonempty : old <> [].

Lemma replace_startswith (q s : pystr) :
  c ∉ q -> startswith q (replace old [c] s) = true -> startswith q s = true.
Proof.
  revert s. induction q as [|a q IH]; intros s Hq; [done|].
  apply not_elem_of_cons in Hq as [Hne Hq].
  destruct s as [|x s]; [by rewrite replace_nil|].
  rewrite replace_cons by done.
  destruct (startswith old (x :: s)); cbn [app startswith].
  - rewrite bool_decide_eq_false_2 by done. done.
  - rewrite !andb_true_iff. intros [? ?]. split; [done|]. by apply IH.
Qed.

Lemma contains_drop (p s : pystr) (n : nat) :
  contains p (drop n s) = true -> contains p s = true.
Proof.
  revert n. induction s as [|x s IH]; intros n; [by rewrite drop_nil|].
  destruct n as [|n]; [done|]. cbn [drop skipn]. intros H. apply IH in H.
  rewrite contains_cons, H. apply orb_true_r.
Qed.

Lemma replace_contains (p s : pystr) :
  c ∉ p -> contains p (replace old [c] s) = true -> contains p s = true.
Proof.
  intros Hp. remember (length s) as n eqn:Hn. revert s Hn.
  induction n as [n IH] using lt_wf_ind. intros s -> H.
  destruct s as [|x s]; [by rewrite replace_nil in H|].
  rewrite replace_cons in H by done.
  destruct (startswith old (x :: s)) eqn:Es.
  - cbn [app] in H. rewrite contains_cons in H. apply orb_true_iff in H as [H|H].
    + destruct p as [|a p]; [done|]. apply not_elem_of_cons in Hp as [Hne _].
      cbn [startswith] in H. by rewrite bool_decide_eq_false_2 in H.
    + apply (contains_drop _ _ (length old)).
      apply (IH (length (drop (length old) (x :: s)))); [|done|done].
      rewrite length_drop. destruct old; [done|]. csimpl. lia.
  - rewrite contains_cons in H. apply orb_true_iff in H as [H|H].
    + apply startswith_contains, (replace_startswith p (x :: s) Hp).
      by rewrite replace_cons, Es.
    + rewrite contains_cons. apply (IH (length s)) in H; [|csimpl; lia|done].
      rewrite H. apply orb_true_r.
Qed.

Lemma replace_removes (s : pystr) :
  c ∉ old -> contains old (replace old [c] s) = false.
Proof.
  intros Hc. remember (length s) as n eqn:Hn. revert s Hn.
  induction n as [n IH] using lt_wf_ind. intros s ->.
  destruct s as [|x s].
  - rewrite replace_nil. destruct old; done.
  - rewrite replace_cons by done.
    destruct (startswith old (x :: s)) eqn:Es.
    + cbn [app]. rewrite contains_cons. apply orb_false_iff. split.
      * destruct old as [|a o]; [done|]. apply not_elem_of_cons in Hc as [Hne _].
        cbn [startswith]. by rewrite bool_decide_eq_false_2.
      * apply (IH (length (drop (length old) (x :: s)))); [|done].
        rewrite length_drop. destruct old; [done|]. csimpl. lia.
    + rewrite contains_cons. apply orb_false_iff. split.
      * destruct (startswith old (x :: replace old [c] s)) eqn:E; [|done].
        assert (startswith old (x :: s) = true) as Hs; [|congruence].
        apply (replace_startswith old (x :: s) Hc). by rewrite replace_cons, Es.
      * apply (IH (length s)); [csimpl; lia|done].
Qed.

Lemma replace_absent (new s : pystr) :
  contains old s = false -> replace old new s = s.
Proof.
  induction s as [|x s IH]; intros H; [done|].
  rewrite contains_cons in H. apply orb_false_iff in H as [Hs H].
  rewrite replace_cons, Hs by done. by rewrite IH.
Qed.

End ReplaceFacts.

Lemma contains_no_head (a : N) (p s : pystr) :
  a ∉ s -> contains (a :: p) s = false.
Proof.
  induction s as [|x s IH]; intros Hs; [done|].
  apply not_elem_of_cons in Hs as [Hne Hs]. rewrite contains_cons, (IH Hs).
  cbn [startswith]. by rewrite bool_decide_eq_false_2.
Qed.

(** X17: [clean_text] leaves none of the three escape sequences it replaces
    (a backslash followed by [n], by [u000b] or by [t]) in its result, so
    cleaning twice changes nothing more; a text without a backslash is
    returned as it is. *)
Theorem clean_text_spec (text : pystr) :
  contains (py "\n") (clean_text text) = false
  /\ contains (py "\u000b") (clean_text text) = false
  /\ contains (py "\t") (clean_text text) = false
  /\ clean_text (clean_text text) = clean_text text
  /\ (92%N ∉ text -> clean_text text = text).
Proof.
  assert (forall s, contains (py "\n") (clean_text s) = false) as H1.
  { intros s. unfold clean_text.
    destruct (contains (py "\n") (replace (py "\t") [9%N] _)) eqn:E; [|done].
    apply replace_contains in E; [|done|by apply (bool_decide_unpack _)].
    apply replace_contains in E; [|done|by apply (bool_decide_unpack _)].
    rewrite replace_removes in E; [done|done|by apply (bool_decide_unpack _)]. }
  assert (forall s, contains (py "\u000b") (clean_text s) = false) as H2.
  { intros s. unfold clean_text.
    destruct (contains (py "\u000b") (replace (py "\t") [9%N] _)) eqn:E; [|done].
    apply replace_contains in E; [|done|by apply (bool_decide_unpack _)].
    rewrite replace_removes in E; [done|done|by apply (bool_decide_unpack _)]. }
  assert (forall s, contains (py "\t") (clean_text s) = false) as H3.
  { intros s. unfold clean_text.
    apply replace_removes; [done|by apply (bool_decide_unpack _)]. }
  assert (forall s, contains (py "\n") s = false -> contains (py "\u000b") s = false ->
            contains (py "\t") s = false -> clean_text s = s) as Hid.
  { intros s E1 E2 E3. unfold clean_text.
    rewrite (replace_absent (py "\n")) by done.
    rewrite (replace_absent (py "\u000b")) by done.
    by rewrite (replace_absent (py "\t")) by done. }
  split_and!; [done|done|done|by apply Hid|].
  intros Hb. apply Hid; by apply (contains_no_head 92).
Qed.

(** ** The blocks of [extract_json_blocks] and the braces of [repair_json] *)

Lemma take_while_Forall (f : N -> bool) (s : pystr) :
  Forall (fun c => f c = true) (take_while f s).
Proof.
  induction s as [|c s IH]; cbn [take_while]; [constructor|].
  destruct (f c) eqn:E; [by constructor|constructor].
Qed.

Lemma take_while_drop (f : N -> bool) (s : pystr) :
  take_while f s ++ drop (length (take_while f s)) s = s.
Proof.
  induction s as [|c s IH]; cbn [take_while]; [done|].
  destruct (f c); [|done]. cbn [length drop skipn app]. by rewrite IH.
Qed.

Lemma scan_matches {A} (m : pystr -> option (A * nat)) (s : pystr) (skip : nat) a :
  inl a ∈ scan m s skip ->
  exists before rest n, s = before ++ rest /\ m rest = Some (a, n).
Proof.
  revert skip. induction s as [|c s IH]; intros skip; cbn [scan].
  - intros H. by apply elem_of_nil in H.
  - assert (forall k, inl a ∈ scan m s k ->
              exists before rest n, c :: s = before ++ rest /\ m rest = Some (a, n))
      as Hrec.
    { intros k H. destruct (IH k H) as (before & rest & n & -> & Hm).
      by exists (c :: before), rest, n. }
    destruct skip as [|k]; [|apply Hrec].
    destruct (m (c :: s)) as [[a' n]|] eqn:Em.
    + intros H. apply elem_of_cons in H as [[= ->]|H]; [|by eapply Hrec].
      by exists [], (c :: s), n.
    + intros H. apply elem_of_cons in H as [[=]|H]. by eapply Hrec.
Qed.

Lemma contains_app_l (p before rest : pystr) :
  startswith p rest = true -> contains p (before ++ rest) = true.
Proof.
  intros H. induction before as [|c before IH]; cbn [app].
  - by apply startswith_contains.
  - rewrite contains_cons, IH. apply orb_true_r.
Qed.

(** X18: A potential block of [extract_json_blocks] is a piece of the text that
    opens with a brace, closes with a brace and holds no other brace: an
    object with an object inside is never found as a whole, only its
    innermost braces are. *)
Theorem potential_blocks_are_flat (text block : pystr) :
  block ∈ find_all m_block text ->
  exists body,
    block = [123%N] ++ body ++ [125%N]
    /\ (123%N ∉ body) /\ (125%N ∉ body)
    /\ contains block text = true.
Proof.
  unfold find_all. intros H. apply list_elem_of_omap in H as ([b|ch] & H & Hb); [|done].
  injection Hb as ->. apply scan_matches in H as (before & rest & n & -> & Hm).
  unfold m_block in Hm. destruct rest as [|c rest]; [done|].
  assert (c = 123%N) as ->.
  { destruct c as [|p]; [done|]. do 7 (destruct p as [p|p|]; try done). }
  set (f := fun c : N => negb (N.eqb c 123) && negb (N.eqb c 125)) in *.
  pose proof (take_while_Forall f rest) as Hbody.
  pose proof (take_while_drop f rest) as Hrest.
  destruct (drop (length (take_while f rest)) rest) as [|d after] eqn:Ed; [done|].
  assert (d = 125%N) as ->.
  { destruct d as [|p]; [done|]. do 7 (destruct p as [p|p|]; try done). }
  injection Hm as <- _. set (tw := take_while f rest) in *. clearbody tw.
  exists tw. rewrite Forall_forall in Hbody. split_and!.
  - done.
  - intros Hin. by apply Hbody in Hin.
  - intros Hin. by apply Hbody in Hin.
  - apply contains_app_l. rewrite <- Hrest.
    cbn [app startswith]. rewrite bool_decide_eq_true_2 by done. cbn [andb].
    replace (tw ++ 125%N :: after) with ((tw ++ [125%N]) ++ after)
      by (by rewrite <- app_assoc).
    apply startswith_self.
Qed.

Lemma potential_blocks_are_flat_witness :
  exists body,
    pyq "{'b': 'c'}" = [123%N] ++ body ++ [125%N]
    /\ (123%N ∉ body) /\ (125%N ∉ body)
    /\ contains (pyq "{'b': 'c'}") (pyq "{'a': {'b': 'c'}}") = true.
Proof.
  apply (potential_blocks_are_flat (pyq "{'a': {'b': 'c'}}") (pyq "{'b': 'c'}")).
  vm_compute. apply list_elem_of_here.
Defined.

Lemma drop_while_dropped (f : N -> bool) s :
  exists dropped, s = dropped ++ drop_while f s
                  /\ Forall (fun c => f c = true) dropped.
Proof.
  induction s as [|a s (d & IH & Hd)]; cbn [drop_while]; [by exists []|].
  destruct (f a) eqn:E; [|by exists []]. exists (a :: d). split.
  - cbn [app]. by rewrite <- IH.
  - by constructor.
Qed.

Lemma rstrip_removed (s : pystr) :
  exists removed, s = rstrip s ++ removed
                  /\ Forall (fun c => is_space c = true) removed.
Proof.
  unfold rstrip, lstrip.
  destruct (drop_while_dropped is_space (reverse s)) as (d & Hd & Hf).
  exists (reverse d). split.
  - rewrite <- reverse_app, <- Hd. by rewrite reverse_involutive.
  - by apply Forall_reverse.
Qed.

Lemma rstrip_char_removed (c : N) (s : pystr) :
  exists removed, s = rstrip_char c s ++ removed
                  /\ Forall (fun x => x = c) removed.
Proof.
  unfold rstrip_char.
  destruct (drop_while_dropped (N.eqb c) (reverse s)) as (d & Hd & Hf).
  exists (reverse d). split.
  - rewrite <- reverse_app, <- Hd. by rewrite reverse_involutive.
  - apply Forall_reverse. eapply Forall_impl; [exact Hf|].
    intros x Hx. apply N.eqb_eq in Hx. done.
Qed.

Lemma count_char_app (c : N) (s1 s2 : pystr) :
  count_char c (s1 ++ s2) = (count_char c s1 + count_char c s2)%nat.
Proof. unfold count_char. by rewrite filter_app, length_app. Qed.

Lemma count_char_replicate (c x : N) (n : nat) :
  count_char c (replicate n x) = if decide (x = c) then n else 0%nat.
Proof.
  unfold count_char. induction n as [|n IH]; cbn [replicate].
  - by destruct (decide (x = c)).
  - rewrite filter_cons. destruct (decide (x = c)); csimpl; by rewrite IH.
Qed.

Lemma count_char_absent (c : N) (s : pystr) :
  Forall (fun x => x <> c) s -> count_char c s = 0%nat.
Proof.
  unfold count_char. induction 1 as [|x s Hx _ IH]; [done|].
  by rewrite filter_cons_False.
Qed.

(** X19: The brace balancing of [repair_json]: the closing braces that are
    missing are appended, and the text is then balanced; a balanced text is
    left alone.  With closing braces in excess, only closing braces and
    blanks are taken away, and only from the end of the text. *)
Theorem balance_braces_spec (json_content : pystr) :
  let opening := count_char 123 json_content in
  let closing := count_char 125 json_content in
  let balanced := balance_braces json_content in
  ((closing <= opening)%nat ->
     balanced = json_content ++ replicate (opening - closing) 125%N
     /\ count_char 123 balanced = count_char 125 balanced)
  /\ ((opening < closing)%nat ->
        exists removed,
          json_content = balanced ++ removed
          /\ Forall (fun c => c = 125%N \/ is_space c = true) removed
          /\ count_char 123 balanced = opening).
Proof.
  cbv zeta. unfold balance_braces. split.
  - intros Hle.
    assert (json_content ++ replicate (count_char 123 json_content
                                       - count_char 125 json_content) 125%N
            = if (count_char 125 json_content <? count_char 123 json_content)%nat
              then json_content ++ replicate (count_char 123 json_content
                                              - count_char 125 json_content) 125%N
              else Nat.iter (count_char 125 json_content - count_char 123 json_content)
                     (fun s => rstrip (rstrip_char 125 (rstrip s))) json_content) as <-.
    { destruct (Nat.ltb_spec (count_char 125 json_content) (count_char 123 json_content))
        as [Hlt|Hge]; [done|].
      replace (count_char 123 json_content - count_char 125 json_content)%nat
        with 0%nat by lia.
      replace (count_char 125 json_content - count_char 123 json_content)%nat
        with 0%nat by lia.
      cbn [replicate Nat.iter nat_rect]. by rewrite app_nil_r. }
    split; [done|]. rewrite !count_char_app, !count_char_replicate.
    rewrite decide_False by done. rewrite decide_True by done. lia.
  - intros Hlt.
    rewrite (proj2 (Nat.ltb_ge _ _)) by lia.
    generalize (count_char 125 json_content - count_char 123 json_content)%nat.
    intros k. induction k as [|k (removed & Hr & Hf & Hc)].
    + exists []. cbn [Nat.iter nat_rect]. by rewrite app_nil_r.
    + rewrite Nat.iter_succ. set (s := Nat.iter k _ json_content) in *.
      destruct (rstrip_removed s) as (r1 & H1 & F1).
      destruct (rstrip_char_removed 125 (rstrip s)) as (r2 & H2 & F2).
      destruct (rstrip_removed (rstrip_char 125 (rstrip s))) as (r3 & H3 & F3).
      set (s' := rstrip (rstrip_char 125 (rstrip s))) in *.
      assert (s = s' ++ (r3 ++ r2 ++ r1)) as Hs.
      { rewrite H1 at 1. rewrite H2 at 1. rewrite H3 at 1. by rewrite <- !app_assoc. }
      assert (Forall (fun c => c = 125%N \/ is_space c = true) (r3 ++ r2 ++ r1)) as Hall.
      { rewrite !Forall_app. split_and!.
        - eapply Forall_impl; [exact F3|]. auto.
        - eapply Forall_impl; [exact F2|]. auto.
        - eapply Forall_impl; [exact F1|]. auto. }
      exists ((r3 ++ r2 ++ r1) ++ removed). split_and!.
      * rewrite Hr at 1. rewrite Hs at 1. by rewrite <- !app_assoc.
      * by apply Forall_app.
      * rewrite <- Hc. clearbody s'. rewrite Hs. rewrite count_char_app.
        rewrite (count_char_absent 123 (r3 ++ r2 ++ r1)); [lia|].
        eapply Forall_impl; [exact Hall|]. intros x [->|Hx]; [done|].
        intros ->. done.
Qed.

(** ** The code fence around an answer *)

Lemma split_head_cur (sep z cur : pystr) :
  nth 0 (split_from sep z 0 cur) [] = reverse cur ++ nth 0 (split_from sep z 0 []) [].
Proof.
  revert cur. induction z as [|c z IH]; intros cur; cbn [split_from].
  - cbn [nth]. by rewrite app_nil_r.
  - destruct (startswith sep (c :: z)).
    + cbn [nth]. by rewrite app_nil_r.
    + rewrite (IH (c :: cur)), (IH [c]), reverse_cons, <- app_assoc. done.
Qed.

Lemma split_head_app (a : N) (sep x z : pystr) :
  a ∉ x ->
  nth 0 (split (a :: sep) (x ++ z)) [] = x ++ nth 0 (split (a :: sep) z) [].
Proof.
  unfold split. intros Hx.
  assert (forall cur, nth 0 (split_from (a :: sep) (x ++ z) 0 cur) []
                      = reverse cur ++ x ++ nth 0 (split_from (a :: sep) z 0 []) [])
    as H; [|apply (H [])].
  induction x as [|c x IH]; intros cur.
  - apply split_head_cur.
  - apply not_elem_of_cons in Hx as [Hne Hx]. cbn [app split_from startswith].
    rewrite bool_decide_eq_false_2 by done. cbn [andb].
    rewrite (IH Hx (c :: cur)), reverse_cons, <- !app_assoc. done.
Qed.

Lemma split_first (a : N) (sep x z : pystr) :
  a ∉ x ->
  split (a :: sep) (x ++ a :: sep ++ z) = x :: split (a :: sep) z.
Proof.
  unfold split. intros Hx.
  assert (forall cur, split_from (a :: sep) (x ++ a :: sep ++ z) 0 cur
                      = (reverse cur ++ x) :: split_from (a :: sep) z 0 [])
    as H; [|apply (H [])].
  induction x as [|c x IH]; intros cur.
  - cbn [app split_from].
    assert (startswith (a :: sep) (a :: sep ++ z) = true) as ->
      by apply (startswith_self (a :: sep) z).
    rewrite app_nil_r. f_equal. rewrite split_from_skip.
    cbn [length Nat.sub]. rewrite Nat.sub_0_r.
    by rewrite drop_app_length.
  - apply not_elem_of_cons in Hx as [Hne Hx]. cbn [app split_from startswith].
    rewrite bool_decide_eq_false_2 by done. cbn [andb].
    rewrite (IH Hx (c :: cur)), reverse_cons, <- !app_assoc. done.
Qed.

Lemma split_head_match (sep w : pystr) :
  sep <> [] -> startswith sep w = true -> nth 0 (split sep w) [] = [].
Proof.
  intros Hsep H. unfold split. destruct w as [|c w].
  - by destruct sep.
  - cbn [split_from]. by rewrite H.
Qed.

Lemma split_from_step (sep s cur : pystr) c :
  startswith sep (c :: s) = false ->
  split_from sep (c :: s) 0 cur = split_from sep s 0 (c :: cur).
Proof. intros H. cbn [split_from]. by rewrite H. Qed.

Lemma fence_not_inside (e : N) (ending : pystr) :
  96%N <> e ->
  startswith [96; 96; 96; 106; 115; 111; 110]%N (96%N :: 96%N :: e :: ending) = false
  /\ startswith [96; 96; 96; 106; 115; 111; 110]%N (96%N :: e :: ending) = false.
Proof.
  intros Hne. cbn [startswith]. rewrite !bool_decide_eq_true_2 by done.
  rewrite (bool_decide_eq_false_2 (96%N = e)) by done. done.
Qed.

(** X20: The text between the fences is what is decoded: for an answer made of
    an introduction, a fence opened with [json], a body, a closing fence
    and an end, none of them holding a backtick, it is the body, stripped;
    an answer without a backtick is taken whole, stripped. *)
Theorem fenced_content_spec (intro body ending : pystr) :
  96%N ∉ intro -> 96%N ∉ body -> 96%N ∉ ending ->
  fenced_content (intro ++ py "```json" ++ body ++ py "```" ++ ending)
    = strip body
  /\ fenced_content body = strip body.
Proof.
  intros Hi Hb He. split.
  - unfold fenced_content. rewrite contains_app_r.
    change (py "```json" ++ body ++ py "```" ++ ending)
      with (96%N :: py "``json" ++ body ++ py "```" ++ ending).
    rewrite (split_first 96 (py "``json") intro _ Hi). cbn [nth].
    rewrite (split_head_app 96 (py "``json") body _ Hb).
    change (py "```") with (96%N :: py "``").
    rewrite (split_head_app 96 (py "``") body _ Hb). f_equal.
    rewrite <- (app_nil_r body) at 2. f_equal.
    set (w := nth 0 (split (96%N :: py "``json") ((96%N :: py "``") ++ ending)) []).
    assert (w = [] \/ startswith (96%N :: py "``") w = true) as [->|Hw];
      [|done|by apply split_head_match].
    unfold w, split.
    change (96%N :: py "``json") with [96; 96; 96; 106; 115; 111; 110]%N.
    change ((96%N :: py "``") ++ ending) with (96%N :: 96%N :: 96%N :: ending).
    change (96%N :: py "``") with [96; 96; 96]%N.
    destruct (startswith [96; 96; 96; 106; 115; 111; 110]%N
                (96%N :: 96%N :: 96%N :: ending)) eqn:E0.
    { left. cbn [split_from]. by rewrite E0. }
    right. rewrite (split_from_step _ _ _ _ E0).
    destruct ending as [|e ending]; [done|].
    apply not_elem_of_cons in He as [Hne He].
    destruct (fence_not_inside e ending) as [E1 E2]; [done|].
    rewrite (split_from_step _ _ _ _ E1), (split_from_step _ _ _ _ E2).
    rewrite split_from_none by (apply not_elem_of_cons; by split).
    done.
  - unfold fenced_content.
    change (py "```json") with (96%N :: py "``json").
    change (py "```") with (96%N :: py "``").
    rewrite (contains_no_head 96 (py "``json") body Hb).
    by rewrite (contains_no_head 96 (py "``") body Hb).
Qed.

Lemma fenced_content_spec_witness :
  fenced_content (py "Here is the JSON: " ++ py "```json" ++ pyq " {'a': 'b'} "
                    ++ py "```" ++ py " Done.")
    = strip (pyq " {'a': 'b'} ")
  /\ fenced_content (pyq " {'a': 'b'} ") = strip (pyq " {'a': 'b'} ").
Proof.
  apply (fenced_content_spec (py "Here is the JSON: ") (pyq " {'a': 'b'} ") (py " Done.")).
  - apply (bool_decide_unpack _). vm_compute. exact I.
  - apply (bool_decide_unpack _). vm_compute. exact I.
  - apply (bool_decide_unpack _). vm_compute. exact I.
Defined.


(** ** The recovery helper of src/batch-recovery.py *)

Section RetryFacts.

Import BatchRecovery.
Variable translate_hook : nat -> dict pystr -> exn + dict json.
Variable batch_file_error : dict pystr -> option exn.
Variable state_file_error : state -> option exn.

Lemma list_remove_perm `{EqDecision A} (x : A) l r :
  list_remove x l = Some r -> l ≡ₚ x :: r.
Proof.
  revert r. induction l as [|y l IH]; intros r; cbn [list_remove]; [done|].
  destruct (decide (x = y)) as [->|Hne]; [by intros [= ->]|].
  destruct (list_remove x l) as [r'|]; [|done]. intros [= <-].
  rewrite (IH r' eq_refl). apply Permutation_swap.
Qed.

(** What the sub-batches of one failed batch have done to the state when
    their loop ends: each one that failed has added an entry with the new
    size, the others have added their translations. *)
Lemma sub_batches_loop_spec index size subs i count st out :
  BatchRecovery.sub_batches_loop translate_hook batch_file_error state_file_error
    index size subs i count st = inr out ->
  exists news,
    BatchRecovery.failed_batches out.2 = BatchRecovery.failed_batches st ++ news
    /\ (out.1 + length news = count + length subs)%nat
    /\ Forall (fun fi => batch_size fi = size) news
    /\ dict_keys (BatchRecovery.translated_items st)
         ⊆ dict_keys (BatchRecovery.translated_items out.2)
    /\ BatchRecovery.completed_batches st ⊆ BatchRecovery.completed_batches out.2
    /\ calls out.2 = (calls st + length subs)%nat.
Proof.
  revert i count st.
  induction subs as [|b rest IH]; intros i count st; cbn [BatchRecovery.sub_batches_loop].
  - intros [= <-]. exists []. rewrite app_nil_r. csimpl. split_and!; try done; lia.
  - destruct (process_batch _ _ _ b _ size st) as [ex|[[ok result] st']] eqn:Ep; [done|].
    apply process_batch_inr in Ep as (Hcalls & Hk & Hc & Hf).
    destruct ok.
    + destruct Hf as [[_ Hf]|[? _]]; [|done].
      destruct (state_file_error _); [done|]. intros H.
      apply IH in H as (news & H1 & H2 & H3 & H4 & H5 & H6).
      exists news. csimpl in *. rewrite H1, H6, Hf, Hcalls.
      split_and!; [done|lia|done| |by etransitivity|lia].
      intros k Hk'. apply H4, dict_keys_update_subseteq. by apply Hk.
    + destruct Hf as [[? _]|(_ & err & Hf)]; [done|]. intros H.
      apply IH in H as (news & H1 & H2 & H3 & H4 & H5 & H6).
      eexists (_ :: news). rewrite H1, H6, Hf, Hcalls. csimpl.
      split_and!; [by rewrite <- app_assoc|lia|by constructor|
                   by etransitivity|by etransitivity|lia].
Qed.

(** The exception that ends the loop of the sub-batches is the one of a
    write. *)
Lemma sub_batches_loop_inl index size subs i count st ex :
  BatchRecovery.sub_batches_loop translate_hook batch_file_error state_file_error
    index size subs i count st = inl ex ->
  (exists b, batch_file_error b = Some ex)
  \/ (exists s, state_file_error s = Some ex).
Proof.
  revert i count st.
  induction subs as [|b rest IH]; intros i count st; cbn [BatchRecovery.sub_batches_loop];
    [done|].
  destruct (process_batch _ _ _ b _ size st) as [e|[[[] result] st']] eqn:Ep.
  - intros [= <-]. by eapply process_batch_inl.
  - destruct (state_file_error _) eqn:Es; [intros [= <-]; right; eauto|]. apply IH.
  - apply IH.
Qed.

(** X21: One failed batch of [retry_failed_batches], when its retry ends
    without an exception of the file writes: its entry is removed when no
    sub-batch failed, and only then; otherwise the entry stays and every
    sub-batch that failed has added an entry of its own, with half the
    size. *)
Theorem retry_step_spec (text_dict : dict pystr) (info : failed_info)
    (st st' : state) :
  info ∈ BatchRecovery.failed_batches st ->
  retry_step translate_hook batch_file_error state_file_error text_dict info st
    = inr st' ->
  exists news,
    Forall (fun fi => batch_size fi = Nat.max 1 (batch_size info / 2)) news
    /\ (length news <= length (BatchRecovery.retry_sub_batches text_dict info).2)%nat
    /\ match news with
       | [] => BatchRecovery.failed_batches st ≡ₚ info :: BatchRecovery.failed_batches st'
       | _ => BatchRecovery.failed_batches st' = BatchRecovery.failed_batches st ++ news
       end.
Proof.
  intros Hin. unfold retry_step.
  destruct (BatchRecovery.retry_sub_batches text_dict info) as [size subs] eqn:E.
  assert (size = Nat.max 1 (batch_size info / 2)) as Hsize.
  { unfold BatchRecovery.retry_sub_batches in E. by injection E as <- _. }
  destruct (BatchRecovery.sub_batches_loop _ _ _ (batch_index info) size subs 0 0 st)
    as [ex|[count st1]] eqn:El; [done|].
  destruct (sub_batches_loop_spec _ _ _ _ _ _ _ El) as (news & H1 & H2 & H3 & _).
  cbn [fst snd] in *.
  destruct (decide (count = length subs)) as [Heq|Hne].
  - rewrite bool_decide_eq_true_2 by done.
    assert (news = []) as -> by (destruct news; [done|csimpl in H2; lia]).
    rewrite app_nil_r in H1.
    destruct (list_remove info (BatchRecovery.failed_batches st1)) as [r|] eqn:Hr;
      [|done].
    destruct (state_file_error _); [done|]. intros [= <-].
    exists []. split_and!; [done|csimpl; lia|]. csimpl.
    rewrite <- H1. by apply list_remove_perm.
  - rewrite bool_decide_eq_false_2 by done. intros [= <-].
    exists news. subst size. split_and!; [done|csimpl; lia|].
    destruct news; [csimpl in H2; lia|done].
Qed.

Lemma retry_step_invariant text_dict info st rest :
  info :: rest ⊆+ BatchRecovery.failed_batches st ->
  match retry_step translate_hook batch_file_error state_file_error
          text_dict info st with
  | inr st' =>
      rest ⊆+ BatchRecovery.failed_batches st'
      /\ dict_keys (BatchRecovery.translated_items st)
           ⊆ dict_keys (BatchRecovery.translated_items st')
      /\ BatchRecovery.completed_batches st ⊆ BatchRecovery.completed_batches st'
      /\ (calls st <= calls st')%nat
  | inl ex =>
      (exists b, batch_file_error b = Some ex)
      \/ (exists s, state_file_error s = Some ex)
  end.
Proof.
  intros Hsub. unfold retry_step.
  destruct (BatchRecovery.retry_sub_batches text_dict info) as [size subs].
  destruct (BatchRecovery.sub_batches_loop _ _ _ (batch_index info) size subs 0 0 st)
    as [ex|[count st1]] eqn:El; [by eapply sub_batches_loop_inl|].
  destruct (sub_batches_loop_spec _ _ _ _ _ _ _ El)
    as (news & H1 & H2 & H3 & H4 & H5 & H6).
  cbn [fst snd] in *.
  assert (info :: rest ⊆+ BatchRecovery.failed_batches st1) as Hsub1.
  { rewrite H1. by apply submseteq_inserts_r. }
  case_bool_decide.
  - destruct (list_remove_elem info (BatchRecovery.failed_batches st1)) as (r & Hr & _).
    { eapply elem_of_submseteq; [|exact Hsub1]. apply list_elem_of_here. }
    rewrite Hr. destruct (state_file_error _) eqn:Es; [right; eauto|].
    csimpl. split_and!; [|done|done|lia].
    apply list_remove_perm in Hr. rewrite Hr in Hsub1.
    by apply (submseteq_app_inv_l _ _ [info]).
  - split_and!; [|done|done|lia].
    etransitivity; [|exact Hsub1]. by apply submseteq_cons.
Qed.

(** X22: [retry_failed_batches] never fails on its own: the entry that it
    removes is always in the list, whatever the sub-batches added to it,
    and the only exceptions that it lets out are those of the writes of
    its two files.  When it returns, the translations and the completed
    batches that the state held are kept. *)
Theorem retry_failed_batches_returns (text_dict : dict pystr) (st : state) :
  match retry_failed_batches translate_hook batch_file_error state_file_error
          text_dict st with
  | inr st' =>
      dict_keys (BatchRecovery.translated_items st)
        ⊆ dict_keys (BatchRecovery.translated_items st')
      /\ BatchRecovery.completed_batches st ⊆ BatchRecovery.completed_batches st'
  | inl ex =>
      (exists b, batch_file_error b = Some ex)
      \/ (exists s, state_file_error s = Some ex)
  end.
Proof.
  unfold retry_failed_batches.
  assert (forall snapshot st0,
            snapshot ⊆+ BatchRecovery.failed_batches st0 ->
            match retry_loop translate_hook batch_file_error state_file_error
                    text_dict snapshot st0 with
            | inr st' =>
                dict_keys (BatchRecovery.translated_items st0)
                  ⊆ dict_keys (BatchRecovery.translated_items st')
                /\ BatchRecovery.completed_batches st0
                     ⊆ BatchRecovery.completed_batches st'
            | inl ex =>
                (exists b, batch_file_error b = Some ex)
                \/ (exists s, state_file_error s = Some ex)
            end) as H.
  { induction snapshot as [|info rest IH]; intros st0 Hsub; cbn [retry_loop]; [done|].
    pose proof (retry_step_invariant text_dict info st0 rest Hsub) as Hstep.
    destruct (retry_step _ _ _ text_dict info st0) as [ex|st1]; [done|].
    destruct Hstep as (Hrest & Hk & Hc & _).
    specialize (IH st1 Hrest).
    destruct (retry_loop _ _ _ text_dict rest st1) as [ex|st']; [done|].
    destruct IH as [Hk' Hc']. split; etransitivity; done. }
  by apply H.
Qed.

End RetryFacts.

Lemma retry_step_spec_witness :
  let hook := fun (_ : nat) (_ : dict pystr) =>
                (inl (APIError (py "overloaded")) : exn + dict json) in
  let text_dict := [(py "k1", py "one"); (py "k2", py "two")] in
  let info := BatchRecovery.FailedInfo (py "1") [py "k1"; py "k2"] (py "overloaded") 2 in
  let st := BatchRecovery.State [] [info] [] 1 in
  exists st' news,
    BatchRecovery.retry_step hook BatchRecovery.utf8_batch_error
      BatchRecovery.utf8_state_error text_dict info st = inr st'
    /\ Forall (fun fi => BatchRecovery.batch_size fi
                         = Nat.max 1 (BatchRecovery.batch_size info / 2)) news
    /\ (length news <= length (BatchRecovery.retry_sub_batches text_dict info).2)%nat
    /\ match news with
       | [] => BatchRecovery.failed_batches st ≡ₚ info :: BatchRecovery.failed_batches st'
       | _ => BatchRecovery.failed_batches st' = BatchRecovery.failed_batches st ++ news
       end.
Proof.
  intros hook text_dict info st.
  assert (exists st',
            BatchRecovery.retry_step hook BatchRecovery.utf8_batch_error
              BatchRecovery.utf8_state_error text_dict info st = inr st')
    as [st' Hrun].
  { eexists. vm_compute. reflexivity. }
  exists st'.
  destruct (retry_step_spec hook BatchRecovery.utf8_batch_error
              BatchRecovery.utf8_state_error text_dict info st st')
    as (news & H).
  - csimpl. apply list_elem_of_here.
  - exact Hrun.
  - exists news. split; [exact Hrun|exact H].
Defined.

(** ** The block scanner of src/pptx_translator.py *)

Section BlockScanner.

Import PptxBlocks.

Lemma count_char_singleton (c x : N) :
  count_char c [x] = if decide (x = c) then 1%nat else 0%nat.
Proof. apply (count_char_replicate c x 1). Qed.

Lemma brace_depth_snoc (s : pystr) (c : N) :
  brace_depth (s ++ [c])
  = brace_depth s + (if N.eqb c 123 then 1 else if N.eqb c 125 then -1 else 0).
Proof.
  unfold brace_depth. rewrite !count_char_app, !count_char_singleton.
  destruct (N.eqb_spec c 123) as [->|H1].
  - rewrite decide_True by done. rewrite decide_False by done. lia.
  - rewrite (decide_False (P := c = 123%N)) by done.
    destruct (N.eqb_spec c 125) as [->|H2].
    + rewrite decide_True by done. lia.
    + rewrite decide_False by done. lia.
Qed.

Lemma segment_snoc (text : pystr) (s n : nat) (c : N) :
  (s <= n)%nat -> text !! n = Some c ->
  take (S n - s) (drop s text) = take (n - s) (drop s text) ++ [c].
Proof.
  intros Hle Hc. replace (S n - s)%nat with (S (n - s)) by lia.
  apply take_S_r. rewrite lookup_drop. by replace (s + (n - s))%nat with n by lia.
Qed.

Lemma scan_step (text : pystr) (n : nat) (c : N) (st : scan_state) :
  text !! n = Some c -> scan_inv text n st ->
  scan_inv text (S n) (block_step text st (n, c)).
Proof.
  intros Hc [Hblocks Hstart]. unfold block_step.
  assert (forall s, (s < n)%nat ->
            head (take (n - s) (drop s text)) = Some 123%N ->
            head (take (S n - s) (drop s text)) = Some 123%N) as Hhead.
  { intros s Hs Hh. rewrite (segment_snoc text s n c) by (done || lia).
    destruct (take (n - s) (drop s text)); done. }
  assert (forall s, (s < n)%nat ->
            (forall m, (0 < m <= n - s)%nat -> 0 < brace_depth (take m (drop s text))) ->
            0 < brace_depth (take (S n - s) (drop s text)) ->
            forall m, (0 < m <= S n - s)%nat ->
                      0 < brace_depth (take m (drop s text))) as Hpre.
  { intros s Hs Hall Hlast m Hm.
    destruct (decide (m = S n - s)%nat) as [->|Hne]; [done|]. apply Hall. lia. }
  destruct (N.eqb_spec c 123) as [->|H1]; [|destruct (N.eqb_spec c 125) as [->|H2]].
  - (* an opening brace *)
    split; [done|]. cbn [start depth].
    destruct (Z.eqb_spec (depth st) 0) as [Hz|Hnz].
    + replace (S n - n)%nat with 1%nat by lia.
      assert (take 1 (drop n text) = [123%N]) as Hseg.
      { pose proof (segment_snoc text n n 123 (le_n n) Hc) as Hseg.
        rewrite Nat.sub_diag, take_0 in Hseg.
        by replace (S n - n)%nat with 1%nat in Hseg by lia. }
      split_and!; [lia|by rewrite Hseg|by rewrite Hz, Hseg|].
      intros m Hm. replace m with 1%nat by lia. by rewrite Hseg.
    + destruct (start st) as [s|]; [|done].
      destruct Hstart as (Hs & Hh & Hd & Hall).
      assert (depth st + 1 = brace_depth (take (S n - s) (drop s text))) as Hd'.
      { rewrite (segment_snoc text s n 123) by (done || lia).
        rewrite brace_depth_snoc, Hd. done. }
      assert (0 < depth st).
      { rewrite Hd. apply Hall. lia. }
      split_and!; [lia|by apply Hhead|done|].
      apply (Hpre s); [done|done|lia].
  - (* a closing brace *)
    cbn [start depth]. destruct (start st) as [s|]; [|done].
    destruct Hstart as (Hs & Hh & Hd & Hall).
    assert (depth st - 1 = brace_depth (take (S n - s) (drop s text))) as Hd'.
    { rewrite (segment_snoc text s n 125) by (done || lia).
      rewrite brace_depth_snoc, Hd. csimpl. lia. }
    assert (0 < depth st).
    { rewrite Hd. apply Hall. lia. }
    destruct (Z.eqb_spec (depth st - 1) 0) as [Hz|Hnz].
    + split; [|done]. cbn [blocks]. apply Forall_app. split; [done|].
      apply Forall_singleton. unfold top_level_object. split_and!.
      * by apply Hhead.
      * rewrite (segment_snoc text s n 125) by (done || lia). apply last_snoc.
      * by rewrite <- Hd'.
      * intros m Hm. rewrite take_take.
        rewrite length_take, length_drop in Hm.
        replace (m `min` (S n - s))%nat with m by lia. apply Hall.
        apply lookup_lt_Some in Hc. lia.
    + split; [done|]. cbn [start depth].
      split_and!; [lia|by apply Hhead|done|].
      apply (Hpre s); [done|done|lia].
  - (* any other character *)
    split; [done|]. destruct (start st) as [s|]; [|done].
    destruct Hstart as (Hs & Hh & Hd & Hall).
    assert (depth st = brace_depth (take (S n - s) (drop s text))) as Hd'.
    { rewrite (segment_snoc text s n c) by (done || lia).
      rewrite brace_depth_snoc, Hd.
      rewrite (proj2 (N.eqb_neq c 123)), (proj2 (N.eqb_neq c 125)) by done. lia. }
    split_and!; [lia|by apply Hhead|done|].
    apply (Hpre s); [done|done|].
    rewrite <- Hd', Hd. apply Hall. lia.
Qed.

Lemma scan_prefix (text : pystr) (n : nat) :
  (n <= length text)%nat ->
  scan_inv text n
    (foldl (block_step text) (ScanState 0 None []) (imap pair (take n text))).
Proof.
  induction n as [|n IH]; intros Hn.
  - rewrite take_0. by split.
  - destruct (lookup_lt_is_Some_2 text n) as [c Hc]; [lia|].
    rewrite (take_S_r _ _ _ Hc), imap_app, foldl_app. cbn [imap foldl].
    rewrite length_take, Nat.min_l, Nat.add_0_r by lia.
    apply scan_step; [done|]. apply IH. lia.
Qed.

(** X23: Every block that the brace counter of [extract_json_blocks] finds is
    one object from its first character to its last: it opens with a
    brace, closes with a brace, its braces are balanced, and they are not
    balanced at any earlier point. *)
Theorem balanced_blocks_spec (text : pystr) :
  Forall top_level_object (balanced_blocks text).
Proof.
  unfold balanced_blocks, scan_blocks.
  set (t := drop_after_brace (drop_before_brace text)).
  destruct (scan_prefix t (length t)) as [H _]; [done|].
  by rewrite take_ge in H by done.
Qed.

End BlockScanner.

(** ** The sub-batches of a failed batch *)

Lemma chunks_fuel_count {A} (fuel n : nat) (items : list A) :
  (0 < n)%nat ->
  (n * length (chunks_fuel fuel n items) <= length items + n - 1)%nat.
Proof.
  intros Hn. revert items. induction fuel as [|f IH]; intros items.
  - cbn [chunks_fuel length]. lia.
  - destruct items as [|x rest]; [cbn [chunks_fuel length]; lia|].
    cbn [chunks_fuel]. set (l := x :: rest).
    pose proof (IH (drop n l)) as H. rewrite length_drop in H.
    assert (1 <= length l)%nat by (unfold l; csimpl; lia).
    clearbody l. cbn [length]. rewrite Nat.mul_succ_r.
    destruct (le_lt_dec n (length l)) as [Hle|Hlt]; [lia|].
    destruct (length (chunks_fuel f n (drop n l))) as [|c]; [lia|].
    rewrite Nat.mul_succ_r in H. lia.
Qed.

Lemma chunks_fuel_NoDup {V} (fuel n : nat) (items : dict V) :
  NoDup (dict_keys items) ->
  Forall (fun c => NoDup (dict_keys c)) (chunks_fuel fuel n items).
Proof.
  revert items. induction fuel as [|f IH]; intros items Hnd; [constructor|].
  destruct items as [|x rest]; [constructor|]. cbn [chunks_fuel].
  constructor.
  - apply (sublist_NoDup _ (dict_keys (x :: rest))); [done|].
    unfold dict_keys. apply fmap_sublist, sublist_take.
  - apply IH. apply (sublist_NoDup _ (dict_keys (x :: rest))); [done|].
    unfold dict_keys. apply fmap_sublist, sublist_drop.
Qed.

(** X24: The sub-batches of a failed batch hold its fragments that are still in
    [text_dict], in the order of its keys, each fragment once; none is
    empty, none holds more than [max(5, n // 4)] of the [n] fragments, and
    there are at most five of them. *)
Theorem retry_sub_batches_spec (text_dict : dict pystr) (keys : list pystr) :
  NoDup keys ->
  let retry_items :=
    omap (fun k => match dict_get k text_dict with
                   | Some v => Some (k, v)
                   | None => None
                   end) keys in
  let sub_batches := retry_sub_batches text_dict keys in
  concat sub_batches = retry_items
  /\ Forall (fun b => b <> []
                      /\ (length b <= Nat.max 5 (length retry_items / 4))%nat)
            sub_batches
  /\ (length sub_batches <= 5)%nat.
Proof.
  intros Hnd retry_items sub_batches.
  assert (NoDup (dict_keys retry_items)) as Hitems.
  { unfold retry_items, dict_keys. clear sub_batches.
    induction Hnd as [|k keys Hk Hnd IH]; [constructor|]. cbn [omap list_omap].
    destruct (dict_get k text_dict) as [v|]; [|done]. csimpl.
    constructor; [|done]. intros Hin. apply Hk.
    apply list_elem_of_fmap in Hin as ([k' v'] & -> & Hin).
    apply list_elem_of_omap in Hin as (k'' & Hin & Hkv).
    destruct (dict_get k'' text_dict); [|done]. by injection Hkv as -> _. }
  assert (sub_batches
          = chunks (Nat.max 5 (length retry_items / 4)) retry_items) as ->.
  { unfold sub_batches, retry_sub_batches. fold retry_items.
    rewrite (dict_of_items_NoDup retry_items) by done.
    pose proof (chunks_fuel_NoDup (length retry_items)
                  (Nat.max 5 (length retry_items / 4)) retry_items Hitems) as Hc.
    unfold chunks. induction Hc as [|c cs Hc _ IH]; [done|].
    rewrite fmap_cons, IH. by rewrite dict_of_items_NoDup. }
  set (n := Nat.max 5 (length retry_items / 4)).
  assert (0 < n)%nat as Hn by lia.
  destruct (chunks_fuel_concat (length retry_items) n retry_items Hn (le_n _))
    as [Hcat Hall].
  split_and!; [done|done|].
  pose proof (chunks_fuel_count (length retry_items) n retry_items Hn) as Hcount.
  fold (chunks n retry_items) in Hcount.
  pose proof (Nat.div_mod (length retry_items) 4 ltac:(lia)) as Hdiv.
  pose proof (Nat.mod_upper_bound (length retry_items) 4 ltac:(lia)) as Hmod.
  assert (length retry_items / 4 <= n)%nat by lia. assert (5 <= n)%nat by lia.
  nia.
Qed.

Lemma retry_sub_batches_spec_witness :
  let text_dict := Stub.numbered 12 in
  let keys := dict_keys (Stub.numbered 12) in
  let retry_items :=
    omap (fun k => match dict_get k text_dict with
                   | Some v => Some (k, v)
                   | None => None
                   end) keys in
  let sub_batches := retry_sub_batches text_dict keys in
  concat sub_batches = retry_items
  /\ Forall (fun b => b <> []
                      /\ (length b <= Nat.max 5 (length retry_items / 4))%nat)
            sub_batches
  /\ (length sub_batches <= 5)%nat.
Proof.
  apply (retry_sub_batches_spec (Stub.numbered 12) (dict_keys (Stub.numbered 12))).
  apply (bool_decide_unpack _). vm_compute. exact I.
Defined.

Lemma resume_translates_no_batch_witness :
  let text_dict := [(py "a", py "one"); (py "b", py "two")] in
  let st := RecoveryState [py "batch_1"] [] [(py "a", JStr (py "un"))]
              (Some [(py "a", py "a"); (py "b", py "b")]) in
  translate_text RefJson.json_loads Stub.faithful text_dict (Some st) 0 []
  = inr (final_sweep RefJson.json_loads Stub.faithful text_dict
           (translated_items st) (Job st [] 0 [])).
Proof.
  apply (resume_translates_no_batch RefJson.json_loads Stub.faithful
           [(py "a", py "one"); (py "b", py "two")]
           (RecoveryState [py "batch_1"] [] [(py "a", JStr (py "un"))]
              (Some [(py "a", py "a"); (py "b", py "b")]))
           [(py "a", py "a"); (py "b", py "b")] 0 []).
  - discriminate.
  - reflexivity.
  - intros k Hk. csimpl in *. done.
Defined.


(** ** From the presentation to the requests *)

Section Pipeline.

Context {file : recovery_file}.
Variable json_loads : pystr -> exn + json.
Variable backend : nat -> request -> exn + pystr.
Variable py_int : pystr -> exn + Z.
Variable F : pystr -> json.

Lemma keep_text_NoDup key text (acc : dict pystr * list pystr) :
  NoDup (dict_keys acc.1) -> NoDup (dict_keys (Slides.keep_text key text acc).1).
Proof.
  intros H. unfold Slides.keep_text. destruct text; [done|]. by apply dict_set_NoDup.
Qed.

Lemma extract_text_NoDup (slides : list Slides.slide) :
  NoDup (dict_keys (Slides.extract_text slides).1).
Proof.
  unfold Slides.extract_text.
  apply (foldl_invariant (fun st => NoDup (dict_keys st.1))); [apply NoDup_nil_2|].
  intros st [i s] _ Hst. unfold Slides.extract_slide. cbn [fst snd].
  assert (NoDup (dict_keys (foldl Slides.extract_element (st.1, [])
                              (Slides.pageElements s)).1)) as H.
  { apply (foldl_invariant (fun acc : dict pystr * list pystr => NoDup (dict_keys acc.1)));
      [done|].
    intros acc element _ Hacc. unfold Slides.extract_element.
    apply (foldl_invariant (fun acc : dict pystr * list pystr => NoDup (dict_keys acc.1))).
    - destruct (Slides.shape element) as [[[tes|]]|]; try done.
      by apply keep_text_NoDup.
    - intros acc1 [r row] _ H1. unfold Slides.extract_row. cbn [fst snd].
      apply (foldl_invariant
               (fun acc : dict pystr * list pystr => NoDup (dict_keys acc.1))); [done|].
      intros acc2 [c cell] _ H2. cbn [fst snd].
      destruct (Slides.cell_text cell); [|done]. by apply keep_text_NoDup. }
  by destruct (foldl Slides.extract_element _ _).
Qed.

Lemma update_requests_elems (d : dict json) :
  (forall k t, (k, t) ∈ d -> exists p, Slides.text_requests py_int k t = inr p) ->
  exists requests,
    Slides.update_requests py_int d = inr requests
    /\ forall rq, rq ∈ requests ->
         exists k t p, (k, t) ∈ d /\ Slides.text_requests py_int k t = inr p /\ rq ∈ p.
Proof.
  induction d as [|[k t] rest IH]; intros Hall; cbn [Slides.update_requests].
  - exists []. split; [done|]. intros rq H. by apply elem_of_nil in H.
  - destruct (Hall k t) as (p & Hp); [apply list_elem_of_here|]. rewrite Hp.
    destruct IH as (more & -> & Hmore).
    { intros k' t' H. apply Hall. by apply list_elem_of_further. }
    exists (p ++ more). split; [done|]. intros rq Hrq.
    apply elem_of_app in Hrq as [Hrq|Hrq].
    + exists k, t, p. split_and!; [apply list_elem_of_here|done|done].
    + destruct (Hmore rq Hrq) as (k' & t' & p' & H1 & H2 & H3).
      exists k', t', p'. split_and!; [by apply list_elem_of_further|done|done].
Qed.

(** [int(str(n)) == n] *)
Hypothesis py_int_str : forall n, py_int (str_of_nat n) = inr (Z.of_nat n).

(** The answers of the backend, once decoded, hold translations of the
    texts of the request, under their keys. *)
Hypothesis answers_translate :
  forall rq now r,
    attempt json_loads backend rq now = inr r ->
    translations_of F (rq_payload rq) r.

(** X26: The whole program on a new job, when it gets as far as the
    [batchUpdate] calls (the presentation was read, the translation
    returned, and the second [presentations().get] and the copy of the
    file raised nothing): the bodies are sent for the copy that
    [files().copy] made under the title of the presentation and the target
    language; and when no object id of the presentation holds the marker
    [_r] and the backend answers with translations of what it is asked,
    every request of these bodies clears or fills a shape or a table cell
    that a text was extracted from, with the translation of that very
    text. *)
Theorem main_writes_back (get_title : exn + pystr)
    (copy_file : pystr -> exn + pystr) (target_language : pystr)
    (slides : list Slides.slide) (now : nat) (files : list recovery_state)
    (new_presentation_id : pystr) (bodies : list (list Slides.slides_request)) :
  (forall s element, s ∈ slides -> element ∈ Slides.pageElements s ->
     contains (py "_r") (Slides.objectId element) = false) ->
  main json_loads backend py_int get_title copy_file target_language
       slides None now files = inr (new_presentation_id, bodies) ->
  (exists original_title,
     get_title = inr original_title
     /\ copy_file (original_title ++ py " - " ++ target_language)
        = inr new_presentation_id)
  /\ forall rq, rq ∈ concat bodies -> writes_back F slides rq.
Proof.
  intros Hids. unfold main.
  pose proof (extract_text_NoDup slides) as Hnd.
  pose proof (fun k v t => extracted_key_requests py_int py_int_str slides k v t Hids)
    as Hkey.
  destruct (Slides.extract_text slides) as [text_dict slide_metadata]. cbn [fst] in *.
  destruct (translate_text json_loads backend text_dict None now files)
    as [e|[result j]] eqn:Erun; [done|].
  pose proof (new_job_sound json_loads backend F answers_translate text_dict now files
                result j Hnd Erun) as Hsound.
  destruct get_title as [e|original_title]; [done|].
  destruct (copy_file _) as [e|new_id] eqn:Ecopy; [done|].
  assert (forall k t, (k, t) ∈ result ->
            exists s element location v,
              s ∈ slides /\ element ∈ Slides.pageElements s
              /\ Slides.text_requests py_int k t
                 = inr [Slides.DeleteText (Slides.objectId element) location;
                        Slides.InsertText (Slides.objectId element) location (F v)]
              /\ match location with
                 | None => shape_source element k v
                 | Some loc =>
                     exists r c,
                       loc = Slides.CellLocation (Z.of_nat r) (Z.of_nat c)
                       /\ cell_source element r c k v
                 end) as Hreq.
  { intros k t Hkt. destruct (Hsound k t Hkt) as (v & Hv & ->).
    apply dict_get_Some_elem in Hv.
    destruct (Hkey k v (F v) Hv) as (s & element & location & Hs & He & Hr & Hl).
    by exists s, element, location, v. }
  destruct (update_requests_elems result) as (requests & Hu & Helems).
  { intros k t Hkt. destruct (Hreq k t Hkt) as (s & e & l & v & _ & _ & Hr & _). eauto. }
  unfold Slides.update_batches. rewrite Hu. intros [= <- <-].
  split; [eauto|].
  rewrite chunks_concat by lia. intros rq Hrq.
  destruct (Helems rq Hrq) as (k & t & p & Hkt & Hp & Hin).
  destruct (Hreq k t Hkt) as (s & element & location & v & Hs & He & Hr & Hl).
  rewrite Hr in Hp. injection Hp as <-.
  exists s, element, location, k, v. split_and!; [done|done| |done].
  apply elem_of_cons in Hin as [->|Hin]; [by left|].
  apply list_elem_of_singleton in Hin as ->. by right.
Qed.

End Pipeline.

Lemma main_writes_back_witness :
  let slides :=
    [Slides.Slide
       [Slides.PageElement (py "title1")
          (Some (Slides.Shape (Some [Slides.TextElement
                                       (Some (Slides.TextRun (Some (py " Hello "))))])))
          [];
        Slides.PageElement (py "table1") None
          [Slides.TableRow
             [Slides.TableCell
                (Some [Slides.TextElement (Some (Slides.TextRun (Some (py "World"))))])]]]] in
  let backend :=
    answering_only [(py "title1", py "Hello"); (py "table1_r0_c0", py "World")] in
  let copy_file := fun name : pystr => (inr (py "copy of " ++ name) : exn + pystr) in
  exists new_presentation_id bodies,
    main RefJson.json_loads backend Slides.ascii_int (inr (py "Deck")) copy_file
         (py "fr") slides None 0 [] = inr (new_presentation_id, bodies)
    /\ (exists original_title,
          inr (py "Deck") = inr (A := exn) original_title
          /\ copy_file (original_title ++ py " - " ++ py "fr")
             = inr new_presentation_id)
    /\ forall rq, rq ∈ concat bodies ->
         writes_back (fun v => JStr (Stub.tr v)) slides rq.
Proof.
  intros slides backend copy_file.
  assert (forall rq now r,
            attempt RefJson.json_loads backend rq now = inr r ->
            translations_of (fun v => JStr (Stub.tr v)) (rq_payload rq) r) as Hans.
  { intros [final idx payload] now r. unfold attempt, backend, answering_only. csimpl.
    destruct (decide (payload = [(py "title1", py "Hello");
                                 (py "table1_r0_c0", py "World")]))
      as [->|Hne]; [|done].
    vm_compute. intros [= <-] k t Hin.
    apply elem_of_cons in Hin as [[= -> ->]|Hin];
      [eexists; split; vm_compute; reflexivity|].
    apply elem_of_cons in Hin as [[= -> ->]|Hin];
      [eexists; split; vm_compute; reflexivity|].
    by apply elem_of_nil in Hin. }
  assert (exists new_presentation_id bodies,
            main RefJson.json_loads backend Slides.ascii_int (inr (py "Deck")) copy_file
                 (py "fr") slides None 0 [] = inr (new_presentation_id, bodies))
    as (new_id & bodies & Hrun).
  { eexists _, _. vm_compute. reflexivity. }
  exists new_id, bodies. split; [exact Hrun|].
  apply (main_writes_back RefJson.json_loads backend Slides.ascii_int
           (fun v => JStr (Stub.tr v)) ascii_int_str Hans
           (inr (py "Deck")) copy_file (py "fr") slides 0 [] new_id bodies).
  - intros s element Hs He.
    apply list_elem_of_singleton in Hs as ->. csimpl in He.
    apply elem_of_cons in He as [->|He]; [vm_compute; reflexivity|].
    apply list_elem_of_singleton in He as ->. vm_compute. reflexivity.
  - exact Hrun.
Defined.

(** ** The recovery file at the end of a run *)

Section FileInSync.

Context {file : recovery_file}.
Variable json_loads : pystr -> exn + json.
Variable backend : nat -> request -> exn + pystr.

Lemma translating_in_sync batches i j j' :
  translating json_loads backend batches i j = inr j' ->
  file_in_sync j -> file_in_sync j'.
Proof.
  revert i j. induction batches as [|b rest IH]; intros i j; cbn [translating];
    [by intros [= <-]|].
  destruct (translating_step json_loads backend i b j) as [e|j1] eqn:Es; [done|].
  intros H Hj. apply (IH _ _ H).
  apply translating_step_inr in Es as [[_ ->]|[_ Es]]; [done|].
  destruct (translate_batch json_loads backend _ _ _ _) as [[ex|r] now'].
  - by destruct Es as [_ ->].
  - by destruct Es as [[_ ->]|(ex & _ & _ & ->)].
Qed.

Lemma sub_batches_loop_in_sync id subs i j :
  file_in_sync j -> file_in_sync (sub_batches_loop json_loads backend id subs i j).
Proof.
  revert i j. induction subs as [|b rest IH]; intros i j Hj; cbn [sub_batches_loop]; [done|].
  apply IH. unfold sub_batch_step.
  by destruct (translate_batch json_loads backend _ _ _ _) as [[ex|r] now'].
Qed.

Lemma reconciling_in_sync text_dict snapshot j j' :
  reconciling json_loads backend text_dict snapshot j = inr j' ->
  file_in_sync j -> file_in_sync j'.
Proof.
  revert j. induction snapshot as [|fb rest IH]; intros j; cbn [reconciling].
  - by intros [= <-].
  - unfold reconcile_step. destruct (list_remove fb _); [|done].
    destruct (uncaught _) as [ex|j1] eqn:Eu; [done|].
    apply uncaught_inr in Eu as [_ ->].
    intros H _. by apply (IH _ H).
Qed.

Lemma final_sweep_in_sync text_dict full j :
  file_in_sync j -> file_in_sync (final_sweep json_loads backend text_dict full j).2.
Proof.
  intros Hj. unfold final_sweep. destruct (missing_dict text_dict full); [done|].
  by destruct (attempt json_loads backend _ _).
Qed.

(** X27: When a run ends, the last write of the recovery file was a write
    of the recovery state of the job: every change of the state was
    followed by a write.  After a run that wrote, the file holds that
    state when this last write raised nothing, and no checkpoint when it
    raised (the final sweep drops the exception of its write).  For a run
    that resumes, this needs the state that it starts from to be the one
    of the last write of the file. *)
Theorem recovery_file_in_sync (text_dict : dict pystr)
    (resume : option recovery_state) (now : nat) (files : list recovery_state)
    (result : dict json) (j : job) :
  match resume with
  | Some st => head files = Some st
  | None => True
  end ->
  translate_text json_loads backend text_dict resume now files = inr (result, j) ->
  head (disk j) = Some (rstate j)
  /\ exists written,
       disk j = written ++ files
       /\ (written <> [] ->
           checkpoint (disk j)
           = match dump_error (rstate j) with
             | None => Some (rstate j)
             | Some _ => None
             end).
Proof.
  intros Hfile H.
  assert (head (disk j) = Some (rstate j)) as Hsync.
  { unfold translate_text in H.
    destruct (setup_recovery_system resume now files) as [e|j0] eqn:E0; [done|].
    apply setup_recovery_system_inr in E0.
    assert (forall unique duplicates j1,
              prepare text_dict j0 = inr (unique, duplicates, j1) -> file_in_sync j1)
      as Hprep.
    { intros unique duplicates j1 E.
      apply prepare_inr in E as [(_ & _ & _ & ->)|(_ & _ & _ & ->)]; [done|].
      destruct resume as [st|]; [by subst j0|]. by destruct E0 as [_ ->]. }
    destruct (prepare text_dict _) as [ex|[[unique duplicates] j1]]; [done|].
    specialize (Hprep _ _ _ eq_refl). revert H. cbv zeta.
    destruct (filter _ unique) as [|kv rem].
    - intros [= E]. change j with (result, j).2. rewrite <- E.
      by apply final_sweep_in_sync.
    - destruct (split_dict_into_smart_batches _ _ _ _) as [ex|batches]; [done|].
      unfold run_batches.
      destruct (translating json_loads backend batches 0 _) as [ex|j2] eqn:E2; [done|].
      destruct (reconciling json_loads backend text_dict _ _) as [ex|j3] eqn:E3; [done|].
      intros [= E]. change j with (result, j).2. rewrite <- E.
      apply final_sweep_in_sync.
      apply (reconciling_in_sync _ _ _ _ E3).
      by apply (translating_in_sync _ _ _ _ E2). }
  split; [done|].
  destruct (translate_text_grows _ _ _ _ _ _ _ _ H) as (written & Hd & _).
  exists written. split; [done|]. intros _.
  unfold checkpoint. destruct (disk j) as [|w older]; [done|].
  by injection Hsync as ->.
Qed.

End FileInSync.

Lemma recovery_file_in_sync_witness :
  exists result j,
    translate_text RefJson.json_loads Stub.faithful
      [(py "s1", py "Hello"); (py "s2", py "World"); (py "s3", py "Hello")]
      None 0 [] = inr (result, j)
    /\ head (disk j) = Some (rstate j)
    /\ exists written,
         disk j = written ++ []
         /\ (written <> [] ->
             checkpoint (disk j)
             = match dump_error (rstate j) with
               | None => Some (rstate j)
               | Some _ => None
               end).
Proof.
  eexists _, _. split; [vm_compute; reflexivity|].
  eapply (recovery_file_in_sync RefJson.json_loads Stub.faithful
            [(py "s1", py "Hello"); (py "s2", py "World"); (py "s3", py "Hello")]
            None 0 []).
  - exact I.
  - vm_compute. reflexivity.
Defined.
